(** * Verification of the task-execution and LLM-analysis pipeline

    Shallow embedding of the run tracker ([TaskExecutor]), the chunked
    log analyzer and the structured-data analyzer ([LangGraphAnalyzer]),
    and the aggregating source ([MultiSource]).

    Python values are modelled as follows:
    - [str] is a list of Unicode code points ([N]); literals are written
      as UTF-8 text and decoded by [lit];
    - an operation that may raise returns a [py_result];
    - [int] is [Z]; [len] results are [nat] or [Z] as convenient. *)

From Stdlib Require Import ZArith NArith List Bool Lia Sorted.
From Stdlib Require Import Strings.String Strings.Ascii.
From Stdlib Require Numbers.DecimalString.
From stdpp Require Import base numbers list gmap strings relations.

Set Default Proof Using "Type".

(** ** Python strings *)

Module PyStr.

Definition char := N.
Definition str := list char.

(** The line feed, ['\n']. *)
Definition NL : char := 10%N.

(** Decoder used only to write literals: the bytes of a Rocq string
    literal are the UTF-8 encoding of the Python literal. *)
Fixpoint utf8_decode (bs : list N) : str :=
  match bs with
  | [] => []
  | b :: r =>
    if (b <? 128)%N then b :: utf8_decode r
    else if (b <? 224)%N then
      match r with
      | b1 :: r' => ((b mod 32) * 64 + b1 mod 64)%N :: utf8_decode r'
      | _ => []
      end
    else if (b <? 240)%N then
      match r with
      | b1 :: b2 :: r' =>
        ((b mod 16) * 4096 + (b1 mod 64) * 64 + b2 mod 64)%N :: utf8_decode r'
      | _ => []
      end
    else
      match r with
      | b1 :: b2 :: b3 :: r' =>
        ((b mod 8) * 262144 + (b1 mod 64) * 4096 + (b2 mod 64) * 64 + b3 mod 64)%N
          :: utf8_decode r'
      | _ => []
      end
  end.

Definition lit (s : string) : str :=
  utf8_decode (map N_of_ascii (list_ascii_of_string s)).
#[global] Arguments lit : simpl never.

(** [sep.join(parts)] *)
Fixpoint join (sep : str) (parts : list str) : str :=
  match parts with
  | [] => []
  | p :: rest =>
    match rest with
    | [] => p
    | _ :: _ => p ++ sep ++ join sep rest
    end
  end.

(** [s.split(sep)] for a one-character separator: never returns the
    empty list ([''.split('\n') == ['']]). *)
Fixpoint split (sep : char) (s : str) : list str :=
  match s with
  | [] => [[]]
  | c :: s' =>
    if (c =? sep)%N then [] :: split sep s'
    else
      match split sep s' with
      | [] => [[c]]
      | p :: ps => (c :: p) :: ps
      end
  end.

(** Number of occurrences of a character, [s.count(c)]. *)
Fixpoint count (c : char) (s : str) : nat :=
  match s with
  | [] => 0
  | x :: s' => (if (x =? c)%N then 1 else 0) + count c s'
  end.

(** [str.isspace] for one character (CPython's [Py_UNICODE_ISSPACE]). *)
Definition isspace (c : char) : bool :=
  ((9 <=? c) && (c <=? 13) || (28 <=? c) && (c <=? 32) || (c =? 133) || (c =? 160)
   || (c =? 5760) || (8192 <=? c) && (c <=? 8202) || (c =? 8232) || (c =? 8233)
   || (c =? 8239) || (c =? 8287) || (c =? 12288))%N.

Fixpoint lstrip (s : str) : str :=
  match s with
  | [] => []
  | c :: s' => if isspace c then lstrip s' else s
  end.

Definition rstrip (s : str) : str := rev (lstrip (rev s)).

(** [s.strip()] *)
Definition strip (s : str) : str := rstrip (lstrip s).

Fixpoint startswith (p s : str) : bool :=
  match p, s with
  | [], _ => true
  | _ :: _, [] => false
  | a :: p', b :: s' => (a =? b)%N && startswith p' s'
  end.

(** [sub in s] *)
Fixpoint contains (sub s : str) : bool :=
  startswith sub s ||
  match s with
  | [] => false
  | _ :: s' => contains sub s'
  end.

Fixpoint str_eqb (a b : str) : bool :=
  match a, b with
  | [], [] => true
  | x :: a', y :: b' => (x =? y)%N && str_eqb a' b'
  | _, _ => false
  end.

(** [a < b] on strings: lexicographic on code points. *)
Fixpoint str_ltb (a b : str) : bool :=
  match a, b with
  | _, [] => false
  | [], _ :: _ => true
  | x :: a', y :: b' => (x <? y)%N || (x =? y)%N && str_ltb a' b'
  end.

End PyStr.
Export PyStr.

(** ** Exceptions *)

Inductive exn_class :=
  | UnicodeEncodeError
  | ValueError
  | KeyError
  | TypeError
  | AttributeError
  | IndexError
  | ConnectionError
  | ConnectionRefusedError      (* a subclass of ConnectionError *)
  | AsyncioTimeoutError
  | HttpxTimeoutException
  | HttpxConnectError
  | OpenAIAPIError
  | OpenAIAuthenticationError   (* a subclass of openai.APIError *)
  | OtherException (name : str).

Record exn := Exn { exn_type : exn_class; exn_msg : str }.

Inductive py_result (A : Type) :=
  | Ok (a : A)
  | Raise (e : exn).
Arguments Ok {A} a.
Arguments Raise {A} e.

#[global] Instance py_result_bind : MBind py_result := λ A B k r,
  match r with
  | Ok a => k a
  | Raise e => Raise e
  end.

(** ** UTF-8 encoding, [s.encode('utf-8')] *)

Definition is_surrogate (c : char) : bool := ((55296 <=? c) && (c <=? 57343))%N.

(** A code point that [encode('utf-8')] accepts. *)
Definition encodable (c : char) : bool :=
  negb (is_surrogate c) && (c <? 1114112)%N.

Definition encode_char (c : char) : py_result (list N) :=
  if (c <? 128)%N then Ok [c]
  else if (c <? 2048)%N then Ok [192 + c / 64; 128 + c mod 64]%N
  else if is_surrogate c then
    Raise (Exn UnicodeEncodeError (lit "surrogates not allowed"))
  else if (c <? 65536)%N then
    Ok [224 + c / 4096; 128 + (c / 64) mod 64; 128 + c mod 64]%N
  else if (c <? 1114112)%N then
    Ok [240 + c / 262144; 128 + (c / 4096) mod 64; 128 + (c / 64) mod 64; 128 + c mod 64]%N
  else Raise (Exn UnicodeEncodeError (lit "code point not in range")).

Fixpoint utf8_encode (s : str) : py_result (list N) :=
  match s with
  | [] => Ok []
  | c :: s' =>
    bs ← encode_char c;
    rest ← utf8_encode s';
    Ok (bs ++ rest)
  end.

(** Number of bytes of one encodable code point, and of a string. *)
Definition utf8_size (c : char) : Z :=
  if (c <? 128)%N then 1
  else if (c <? 2048)%N then 2
  else if (c <? 65536)%N then 3
  else 4.

Fixpoint utf8_len (s : str) : Z :=
  match s with
  | [] => 0
  | c :: s' => utf8_size c + utf8_len s'
  end.

(** ** The chunker: [LangGraphAnalyzer._chunk_logs] (log analysis) *)

Module Chunker.

(** [len(line.encode('utf-8'))] *)
Definition line_size (line : str) : py_result Z :=
  bs ← utf8_encode line;
  Ok (Z.of_nat (length bs)).

Definition nonempty {A} (l : list A) : bool :=
  match l with [] => false | _ :: _ => true end.

(** The [for line in lines] loop together with the final flush. *)
Fixpoint chunk_loop (chunk_size : Z) (lines : list str)
    (chunks : list str) (current_chunk : list str) (current_size : Z)
    : py_result (list str) :=
  match lines with
  | [] =>
    if nonempty current_chunk
    then Ok (chunks ++ [join [NL] current_chunk])
    else Ok chunks
  | line :: rest =>
    size ← line_size line;
    if (current_size + size >? chunk_size)%Z && nonempty current_chunk
    then chunk_loop chunk_size rest
           (chunks ++ [join [NL] current_chunk]) [line] size
    else chunk_loop chunk_size rest
           chunks (current_chunk ++ [line]) (current_size + size)%Z
  end.

Definition _chunk_logs (chunk_size : Z) (logs : str) : py_result (list str) :=
  chunk_loop chunk_size (split NL logs) [] [] 0.

(** Total size of a group of lines as the loop counts it: the sum of the
    lines' byte lengths, the joining line feeds not included. *)
Definition sum_sizes (g : list str) : Z := foldr (λ l acc, utf8_len l + acc)%Z 0%Z g.

Definition all_encodable (s : str) : Prop := Forall (λ c, encodable c = true) s.

Definition group_ok (chunk_size : Z) (g : list str) : Prop :=
  length g = 1 ∨ (sum_sizes g ≤ chunk_size)%Z.

(** The size bound as the specification words it: a chunk exceeds
    [chunk_size] bytes only if it is one single line longer than that. *)
Definition claimed_size_bound (chunk_size : Z) (logs : str) : Prop :=
  ∀ chunks c,
    _chunk_logs chunk_size logs = Ok chunks → c ∈ chunks →
    (utf8_len c ≤ chunk_size)%Z ∨ (count NL c = 0 ∧ (chunk_size < utf8_len c)%Z).

(** The two-line text ["ab\nc"]. *)
Definition two_lines : str := lit "ab" ++ [NL] ++ lit "c".

End Chunker.

(** ** The chunked log analyzer: [log_analyzer.plugins.analyzers.langgraph] *)

Module LogAnalyzer.
Import Chunker.

(** What [analyze] may be handed. *)
Inductive py_data :=
  | DStr (s : str)             (* [isinstance(data, str)] *)
  | DIter (items : list str)   (* an iterable of strings *)
  | DOther (repr : str).       (* anything else; [repr] is [str(data)] *)

(** A request sent to the chat-completion endpoint. The index of a chunk
    request identifies the call, so that the endpoint may answer two
    equal chunks differently. *)
Inductive request :=
  | ChunkReq (index : nat) (prompt : str)
  | SummaryReq (prompt : str).

(** Observable effects of an analysis, in the order they happen. *)
Inductive event :=
  | LLMCall (req : request)
  | Progress (run_id : Z) (total_chunks processed_chunks : nat).

Definition world := list event.

(** The analyzer object. A prompt template is kept as the function
    [template.format(...)] of the text it is given; templates on which
    [format] raises are not modelled. *)
Record LangGraphAnalyzer := {
  mode : str;
  concurrency : Z;
  chunk_size : Z;
  analyze_log_chunk_prompt : str → str;
  summarize_analyses_prompt : str → str;
  progress_callback : bool;     (* a callback was passed to [__init__] *)
  run_id : option Z;            (* [None] until [set_run_id] *)
}.

Definition set_run_id (self : LangGraphAnalyzer) (r : Z) : LangGraphAnalyzer :=
  {| mode := mode self; concurrency := concurrency self;
     chunk_size := chunk_size self;
     analyze_log_chunk_prompt := analyze_log_chunk_prompt self;
     summarize_analyses_prompt := summarize_analyses_prompt self;
     progress_callback := progress_callback self;
     run_id := Some r |}.

Definition NO_LOGS : str := lit "未发现任何错误日志".

Definition NO_ERRORS_REPORT : str :=
  lit "## 分析结果" ++ [NL; NL] ++ lit "✅ **未发现任何错误**" ++ [NL; NL]
  ++ lit "本次分析未检测到任何错误、异常或警告信息。".

Definition SEPARATOR : str := [NL; NL] ++ lit "---" ++ [NL; NL].

Definition is_empty {A} (l : list A) : bool :=
  match l with [] => true | _ :: _ => false end.

(** [if self.progress_callback and self.run_id: self.progress_callback(...)] *)
Definition notify (self : LangGraphAnalyzer) (total processed : nat) (w : world) : world :=
  match run_id self with
  | Some r =>
    if progress_callback self && negb (r =? 0)%Z
    then w ++ [Progress r total processed]
    else w
  | None => w
  end.

(** The noise filter of [_analyze_async]: the body of the loop decides
    whether [a] is skipped ([continue]) or appended. *)
Definition skipped (a : str) : bool :=
  if is_empty a || str_eqb (strip a) (lit "<NONE>") then true
  else if contains (lit "未发现任何错误") a || contains (lit "未发现错误") a
          || contains (lit "无错误") a then true
  else if length (strip a) <? 50 then true
  else false.

Fixpoint filter_loop (analyses : list str) (valid_analyses : list str) : list str :=
  match analyses with
  | [] => valid_analyses
  | a :: rest =>
    if skipped a then filter_loop rest valid_analyses
    else filter_loop rest (valid_analyses ++ [a])
  end.

Definition noise_filter (analyses : list str) : list str := filter_loop analyses [].

Section WithLLM.

(** The endpoint: what the request returns. [Ok None] is a response
    whose message has no content; [Raise] covers time-outs, connection
    errors and malformed responses. *)
Variable llm : request → py_result (option str).

(** [_analyze_chunk]: the request it sends and the text it returns. *)
Definition chunk_request (self : LangGraphAnalyzer) (index : nat) (chunk : str) : request :=
  ChunkReq index (analyze_log_chunk_prompt self chunk).

Definition FAILED : str := lit "分析失败: ".

Definition NONE_STRIP : str := lit "'NoneType' object has no attribute 'strip'".

Definition _analyze_chunk (self : LangGraphAnalyzer) (index : nat) (chunk : str) : str :=
  match llm (chunk_request self index chunk) with
  | Ok (Some content) => strip content
  | Ok None => FAILED ++ NONE_STRIP
  | Raise e => FAILED ++ exn_msg e
  end.

(** [_analyze_sequential] *)
Fixpoint sequential_loop (self : LangGraphAnalyzer) (total : nat) (i : nat)
    (chunks : list str) (analyses : list str) (w : world) : list str * world :=
  match chunks with
  | [] => (analyses, w)
  | chunk :: rest =>
    let w1 := w ++ [LLMCall (chunk_request self i chunk)] in
    let analysis := _analyze_chunk self i chunk in
    sequential_loop self total (S i) rest (analyses ++ [analysis])
      (notify self total (i + 1) w1)
  end.

Definition _analyze_sequential (self : LangGraphAnalyzer) (chunks : list str) (w : world)
    : list str * world :=
  sequential_loop self (length chunks) 0 chunks [] w.

(** [_analyze_concurrent]: one task per chunk. A task moves through the
    following points; every move is one atomic action, so that the
    interleavings considered include all those of the event loop. *)
Inductive tstate :=
  | Waiting                (* before [async with semaphore] *)
  | Calling                (* semaphore held, request in flight *)
  | GotResult (r : str)    (* before [async with lock] *)
  | InLock (r : str)       (* lock held *)
  | Counted (r : str)      (* [processed_count += 1] done *)
  | Notified (r : str)     (* callback done, lock still held *)
  | Unlocked (r : str)     (* lock released, semaphore still held *)
  | Done (r : str).        (* returned *)

Record cstate := {
  tasks : list tstate;
  permits : nat;           (* value of the semaphore *)
  lock : bool;             (* the [asyncio.Lock] is held *)
  processed_count : nat;
  trace : world;
}.

Definition set_task (s : cstate) (i : nat) (t : tstate) : cstate :=
  {| tasks := <[i := t]> (tasks s); permits := permits s; lock := lock s;
     processed_count := processed_count s; trace := trace s |}.

(** The next action of task [i], if it can move. *)
Definition cstep (self : LangGraphAnalyzer) (chunks : list str) (i : nat) (s : cstate)
    : option cstate :=
  match tasks s !! i, chunks !! i with
  | Some Waiting, Some chunk =>
    match permits s with
    | O => None
    | S n =>
      Some {| tasks := <[i := Calling]> (tasks s); permits := n; lock := lock s;
              processed_count := processed_count s;
              trace := trace s ++ [LLMCall (chunk_request self i chunk)] |}
    end
  | Some Calling, Some chunk => Some (set_task s i (GotResult (_analyze_chunk self i chunk)))
  | Some (GotResult r), _ =>
    if lock s then None
    else Some {| tasks := <[i := InLock r]> (tasks s); permits := permits s; lock := true;
                 processed_count := processed_count s; trace := trace s |}
  | Some (InLock r), _ =>
    Some {| tasks := <[i := Counted r]> (tasks s); permits := permits s; lock := lock s;
            processed_count := processed_count s + 1; trace := trace s |}
  | Some (Counted r), _ =>
    Some {| tasks := <[i := Notified r]> (tasks s); permits := permits s; lock := lock s;
            processed_count := processed_count s;
            trace := notify self (length chunks) (processed_count s) (trace s) |}
  | Some (Notified r), _ =>
    Some {| tasks := <[i := Unlocked r]> (tasks s); permits := permits s; lock := false;
            processed_count := processed_count s; trace := trace s |}
  | Some (Unlocked r), _ =>
    Some {| tasks := <[i := Done r]> (tasks s); permits := S (permits s); lock := lock s;
            processed_count := processed_count s; trace := trace s |}
  | _, _ => None
  end.

(** A schedule names, action by action, the task that moves. *)
Fixpoint run_schedule (self : LangGraphAnalyzer) (chunks : list str)
    (sched : list nat) (s : cstate) : option cstate :=
  match sched with
  | [] => Some s
  | i :: rest =>
    match cstep self chunks i s with
    | Some s' => run_schedule self chunks rest s'
    | None => None
    end
  end.

Definition cinit (self : LangGraphAnalyzer) (chunks : list str) (w : world) : cstate :=
  {| tasks := map (λ _, Waiting) chunks; permits := Z.to_nat (concurrency self);
     lock := false; processed_count := 0; trace := w |}.

(** The results [asyncio.gather] returns, in task order, once every task
    has returned. *)
Fixpoint gather (ts : list tstate) : option (list str) :=
  match ts with
  | [] => Some []
  | Done r :: rest =>
    match gather rest with
    | Some rs => Some (r :: rs)
    | None => None
    end
  | _ :: _ => None
  end.

(** [_analyze_concurrent] under a schedule: [None] when the schedule is
    not one of the program or leaves a task unfinished. A negative
    initial value makes [asyncio.Semaphore] raise. *)
Definition _analyze_concurrent (self : LangGraphAnalyzer) (chunks : list str)
    (sched : list nat) (w : world) : option (py_result (list str) * world) :=
  if (concurrency self <? 0)%Z
  then Some (Raise (Exn ValueError (lit "Semaphore initial value must be >= 0")), w)
  else
    match run_schedule self chunks sched (cinit self chunks w) with
    | Some s =>
      match gather (tasks s) with
      | Some results => Some (Ok results, trace s)
      | None => None
      end
    | None => None
    end.

(** [_summarize] *)
Definition _summarize (self : LangGraphAnalyzer) (analyses : list str) (w : world)
    : str * world :=
  match analyses with
  | [a] => (a, w)
  | _ =>
    let req := SummaryReq (summarize_analyses_prompt self (join SEPARATOR analyses)) in
    let w1 := w ++ [LLMCall req] in
    match llm req with
    | Ok (Some content) => (strip content, w1)
    | _ => (join SEPARATOR analyses, w1)
    end
  end.

(** The text [_analyze_async] works on. *)
Definition log_text (data : py_data) : str :=
  match data with
  | DStr s => s
  | DIter items => join [NL] items
  | DOther repr => repr
  end.

(** The per-chunk phase of [_analyze_async]: the branch on [self.mode].
    The schedule is consulted in concurrent mode only. *)
Definition analyse_chunks (self : LangGraphAnalyzer) (chunks : list str)
    (sched : list nat) (w : world) : option (py_result (list str) * world) :=
  if str_eqb (mode self) (lit "concurrent")
  then _analyze_concurrent self chunks sched w
  else Some (let '(analyses, w2) := _analyze_sequential self chunks w in
             (Ok analyses, w2)).

(** [_analyze_async], which [analyze] runs to completion. *)
Definition _analyze_async (self : LangGraphAnalyzer) (data : py_data)
    (sched : list nat) (w : world) : option (py_result str * world) :=
  let log_data := log_text data in
  if is_empty (strip log_data) then Some (Ok NO_LOGS, w)
  else
    match _chunk_logs (chunk_size self) log_data with
    | Raise e => Some (Raise e, w)
    | Ok chunks =>
      let total_chunks := length chunks in
      let w1 := notify self total_chunks 0 w in
      match analyse_chunks self chunks sched w1 with
      | None => None
      | Some (Raise e, w2) => Some (Raise e, w2)
      | Some (Ok analyses, w2) =>
        let w3 := notify self total_chunks total_chunks w2 in
        let valid_analyses := noise_filter analyses in
        if is_empty valid_analyses then Some (Ok NO_ERRORS_REPORT, w3)
        else
          let '(summary, w4) := _summarize self valid_analyses w3 in
          Some (Ok summary, w4)
      end
    end.

Definition analyze := _analyze_async.

End WithLLM.

(** The default prompt templates. *)
Definition default_chunk_prompt (log_chunk : str) : str :=
  lit "请分析以下错误日志，识别所有错误、异常和警告。" ++ [NL]
  ++ lit "如果未发现错误，请回复 " ++ [34%N] ++ lit "<NONE>" ++ [34%N] ++ lit "。" ++ [NL]
  ++ lit "如果发现错误，请详细说明错误类型、严重程度和相关信息。" ++ [NL; NL]
  ++ lit "日志内容：" ++ [NL] ++ log_chunk ++ [NL].

Definition default_summary_prompt (analyses : str) : str :=
  lit "请将以下多个错误分析结果整合为一份完整的分析报告。" ++ [NL]
  ++ lit "报告应包含：错误分类、时间维度分析、应用维度分析、错误关联分析和修复建议。"
  ++ [NL; NL] ++ lit "分析结果：" ++ [NL] ++ analyses ++ [NL].

(** An analyzer as [TaskExecutor.create_analyzer] builds it, with the
    constructor's default parameters, after [set_run_id(1)]. *)
Definition example_analyzer (m : str) : LangGraphAnalyzer :=
  {| mode := m; concurrency := 3; chunk_size := 5000;
     analyze_log_chunk_prompt := default_chunk_prompt;
     summarize_analyses_prompt := default_summary_prompt;
     progress_callback := true; run_id := Some 1%Z |}.

(** An endpoint that reports one finding, for any chunk. *)
Definition FINDING : str :=
  lit "ERROR: connection refused by upstream service at 10.0.0.1:5432 (severity high)".

Definition stub_llm (req : request) : py_result (option str) := Ok (Some FINDING).


Definition overtaking : list nat :=
  [0; 1; 1; 1; 1; 0; 1; 1; 0; 0; 1; 2; 0; 2; 0; 2; 2; 0; 2; 2; 2].



(** A 120-byte log of three lines cut into chunks of at most 50 bytes,
    with an endpoint that finds something in the last chunk only. *)
Definition forty : str := lit "2024-01-01T00:00:00Z service ok; all fine".

Definition three_line_log : py_data := DStr (join [NL] [forty; forty; forty]).

Definition small_chunks (m : str) : LangGraphAnalyzer :=
  {| mode := m; concurrency := 2; chunk_size := 50;
     analyze_log_chunk_prompt := default_chunk_prompt;
     summarize_analyses_prompt := default_summary_prompt;
     progress_callback := true; run_id := Some 7%Z |}.

Definition last_chunk_llm (req : request) : py_result (option str) :=
  match req with
  | ChunkReq 2 _ => Ok (Some FINDING)
  | _ => Ok (Some (lit "<NONE>"))
  end.

(** Number of synthesis requests and of per-chunk requests in a trace. *)
Definition is_summary_call (e : event) : bool :=
  match e with LLMCall (SummaryReq _) => true | _ => false end.

Definition is_chunk_call (e : event) : bool :=
  match e with LLMCall (ChunkReq _ _) => true | _ => false end.

Definition is_progress (e : event) : bool :=
  match e with Progress _ _ _ => true | _ => false end.

Definition count_events (p : event → bool) (w : world) : nat :=
  length (List.filter p w).

(** The processed counts reported through the callback, in order. *)
Definition reported (w : world) : list nat :=
  omap (λ e, match e with Progress _ _ p => Some p | _ => None end) w.

(** Whether the guard [self.progress_callback and self.run_id] holds. *)
Definition notifying (self : LangGraphAnalyzer) : bool :=
  match run_id self with
  | Some r => progress_callback self && negb (r =? 0)%Z
  | None => false
  end.

(** Counting the tasks of a concurrent run by where they are. *)
Definition count_by (f : tstate → nat) (ts : list tstate) : nat := sum_list (map f ts).

Definition started (t : tstate) : nat :=
  match t with Waiting => 0 | _ => 1 end.

Definition in_flight (t : tstate) : nat :=
  match t with Waiting | Done _ => 0 | _ => 1 end.

Definition in_lock (t : tstate) : nat :=
  match t with InLock _ | Counted _ | Notified _ => 1 | _ => 0 end.

Definition counted (t : tstate) : nat :=
  match t with Counted _ | Notified _ | Unlocked _ | Done _ => 1 | _ => 0 end.

Definition notified (t : tstate) : nat :=
  match t with Notified _ | Unlocked _ | Done _ => 1 | _ => 0 end.

Definition result_of (t : tstate) : option str :=
  match t with
  | Waiting | Calling => None
  | GotResult r | InLock r | Counted r | Notified r | Unlocked r | Done r => Some r
  end.

(** Actions a task still has to take. *)
Definition remaining (t : tstate) : nat :=
  match t with
  | Waiting => 7 | Calling => 6 | GotResult _ => 5 | InLock _ => 4
  | Counted _ => 3 | Notified _ => 2 | Unlocked _ => 1 | Done _ => 0
  end.

End LogAnalyzer.

(** ** The structured-data analyzer: [db_ops_analyzer.plugins.analyzers.langgraph] *)

Module DbAnalyzer.

(** [str(i)] for an [int]. *)
Definition str_of_Z (z : Z) : str :=
  lit (DecimalString.NilZero.string_of_int (Z.to_int z)).
#[global] Arguments str_of_Z : simpl never.

(** [isinstance(e, cls)] for the classes the handlers name. *)
Definition isinstance (c cls : exn_class) : bool :=
  match cls, c with
  | ConnectionError, (ConnectionError | ConnectionRefusedError) => true
  | OpenAIAPIError, (OpenAIAPIError | OpenAIAuthenticationError) => true
  | AsyncioTimeoutError, AsyncioTimeoutError => true
  | HttpxTimeoutException, HttpxTimeoutException => true
  | HttpxConnectError, HttpxConnectError => true
  | _, _ => false
  end.

(** [type(e).__name__] *)
Definition class_name (c : exn_class) : str :=
  match c with
  | UnicodeEncodeError => lit "UnicodeEncodeError"
  | ValueError => lit "ValueError"
  | KeyError => lit "KeyError"
  | TypeError => lit "TypeError"
  | AttributeError => lit "AttributeError"
  | IndexError => lit "IndexError"
  | ConnectionError => lit "ConnectionError"
  | ConnectionRefusedError => lit "ConnectionRefusedError"
  | AsyncioTimeoutError => lit "TimeoutError"
  | HttpxTimeoutException => lit "TimeoutException"
  | HttpxConnectError => lit "ConnectError"
  | OpenAIAPIError => lit "APIError"
  | OpenAIAuthenticationError => lit "AuthenticationError"
  | OtherException name => name
  end.

(** A value that configuration or a source puts under ['host'],
    ['database_type'], ...: a string or a number. *)
Inductive scalar :=
  | SStr (s : str)
  | SInt (z : Z).

Definition scalar_str (v : scalar) : str :=
  match v with
  | SStr s => s
  | SInt z => str_of_Z z
  end.

(** A row of a result set. *)
Definition row := list (str * scalar).

(** The dictionary a source's [collect] returns, in the format
    [AbstractSource.collect] documents: the entries the analyzer and the
    executor read are kept as fields, [None] standing for an absent key;
    where present, ['slow_queries'], ['processlist'] and ['tables'] are
    lists. A value that is not a dictionary, or that holds an unsized
    value under one of these keys, is outside the documented format. *)
Record db_data := {
  database_type : option scalar;
  host : option scalar;
  port : option scalar;
  database : option scalar;
  slow_queries : option (list row);
  processlist : option (list row);
  tables : option (list row);
  errors : list str;
}.

(** [d.get(key, default)] *)
Definition get {A} (entry : option A) (default : A) : A :=
  match entry with
  | Some v => v
  | None => default
  end.

Record LangGraphAnalyzer := {
  base_url : str;
  api_key : str;
  model_name : str;
  timeout : Z;
  (** [prompt_template.format(database_data=.., current_time=..)], for
      the configured or the default template. *)
  analyze_database_prompt : str → str → str;
}.

(** What awaiting the chat completion does: a response with its list of
    choices, each a message content or [None], or an exception. *)
Inductive llm_outcome :=
  | Response (choices : list (option str))
  | Failure (e : exn).

Definition SP2 : str := lit "  ".

(** [_format_error_report]; [report_time] is the formatted clock. *)
Definition _format_error_report (report_time : str) (error_msg : str) (data : db_data) : str :=
  lit "# 📊 数据库运维分析报告" ++ [NL; NL]
  ++ lit "> **报告生成时间**: " ++ report_time ++ SP2 ++ [NL]
  ++ lit "> **数据库类型**: " ++ scalar_str (get (database_type data) (SStr (lit "Unknown")))
  ++ SP2 ++ [NL]
  ++ lit "> **数据库地址**: " ++ scalar_str (get (host data) (SStr (lit "Unknown")))
  ++ SP2 ++ [NL]
  ++ lit "> **状态**: ❌ 分析失败" ++ [NL; NL]
  ++ lit "---" ++ [NL; NL]
  ++ lit "## ⚠️ 错误信息" ++ [NL; NL]
  ++ error_msg ++ [NL; NL]
  ++ lit "## 📋 收集的数据概览" ++ [NL; NL]
  ++ lit "- **慢查询数量**: " ++ str_of_Z (Z.of_nat (length (get (slow_queries data) []))) ++ [NL]
  ++ lit "- **活跃连接数**: " ++ str_of_Z (Z.of_nat (length (get (processlist data) []))) ++ [NL]
  ++ lit "- **表数量**: " ++ str_of_Z (Z.of_nat (length (get (tables data) []))) ++ [NL; NL]
  ++ lit "---" ++ [NL; NL]
  ++ lit "**注意**: 由于分析过程出错，无法生成完整的分析报告。请检查数据收集是否正常。" ++ [NL].

(** The messages of the five handlers of [_analyze_async]. *)
Definition timeout_msg (self : LangGraphAnalyzer) : str :=
  lit "数据库分析超时（已等待 " ++ str_of_Z (timeout self) ++ lit " 秒）" ++ [NL; NL]
  ++ lit "可能的原因：" ++ [NL]
  ++ lit "1. LLM API服务响应慢" ++ [NL]
  ++ lit "2. 数据量过大，分析时间过长" ++ [NL]
  ++ lit "3. 网络连接不稳定" ++ [NL; NL]
  ++ lit "建议：" ++ [NL]
  ++ lit "- 检查LLM API服务状态" ++ [NL]
  ++ lit "- 尝试增加超时时间（当前: " ++ str_of_Z (timeout self) ++ lit "秒）" ++ [NL]
  ++ lit "- 检查网络连接".

Definition request_timeout_msg (self : LangGraphAnalyzer) (e : exn) : str :=
  lit "LLM API请求超时" ++ [NL; NL]
  ++ lit "错误详情: " ++ exn_msg e ++ [NL; NL]
  ++ lit "可能的原因：" ++ [NL]
  ++ lit "1. LLM API服务无响应" ++ [NL]
  ++ lit "2. 网络连接超时" ++ [NL]
  ++ lit "3. 服务器负载过高" ++ [NL; NL]
  ++ lit "建议：" ++ [NL]
  ++ lit "- 检查LLM API服务是否正常运行" ++ [NL]
  ++ lit "- 检查网络连接" ++ [NL]
  ++ lit "- 尝试增加超时时间（当前: " ++ str_of_Z (timeout self) ++ lit "秒）".

Definition connect_msg (self : LangGraphAnalyzer) (e : exn) : str :=
  lit "无法连接到LLM API服务" ++ [NL; NL]
  ++ lit "错误详情: " ++ exn_msg e ++ [NL; NL]
  ++ lit "可能的原因：" ++ [NL]
  ++ lit "1. LLM API服务未运行" ++ [NL]
  ++ lit "2. base_url配置错误（当前: " ++ base_url self ++ lit "）" ++ [NL]
  ++ lit "3. 网络不通或防火墙阻止" ++ [NL; NL]
  ++ lit "建议：" ++ [NL]
  ++ lit "- 检查base_url配置是否正确" ++ [NL]
  ++ lit "- 检查LLM API服务是否运行" ++ [NL]
  ++ lit "- 测试网络连接: curl " ++ base_url self.

Definition api_error_msg (self : LangGraphAnalyzer) (e : exn) : str :=
  lit "LLM API错误" ++ [NL; NL]
  ++ lit "错误详情: " ++ exn_msg e ++ [NL; NL]
  ++ lit "可能的原因：" ++ [NL]
  ++ lit "1. API密钥无效（当前key: " ++ take 10 (api_key self) ++ lit "...）" ++ [NL]
  ++ lit "2. 模型名称错误（当前: " ++ model_name self ++ lit "）" ++ [NL]
  ++ lit "3. API服务返回错误" ++ [NL; NL]
  ++ lit "建议：" ++ [NL]
  ++ lit "- 检查API密钥是否正确" ++ [NL]
  ++ lit "- 检查模型名称是否正确" ++ [NL]
  ++ lit "- 查看LLM API服务日志".

Definition generic_msg (e : exn) : str :=
  lit "数据库分析失败" ++ [NL; NL]
  ++ lit "错误详情: " ++ exn_msg e ++ [NL; NL]
  ++ lit "错误类型: " ++ class_name (exn_type e).

(** The [except] clauses, tried in the order they are written. *)
Definition error_message (self : LangGraphAnalyzer) (e : exn) : str :=
  if isinstance (exn_type e) AsyncioTimeoutError then timeout_msg self
  else if isinstance (exn_type e) HttpxTimeoutException then request_timeout_msg self e
  else if isinstance (exn_type e) HttpxConnectError then connect_msg self e
  else if isinstance (exn_type e) OpenAIAPIError then api_error_msg self e
  else generic_msg e.

(** [response.choices[0].message.content.strip()] *)
Definition response_text (choices : list (option str)) : py_result str :=
  match choices with
  | [] => Raise (Exn IndexError (lit "list index out of range"))
  | None :: _ => Raise (Exn AttributeError (lit "'NoneType' object has no attribute 'strip'"))
  | Some content :: _ => Ok (strip content)
  end.

Section WithEnvironment.

(** [json.dumps(data, indent=2, ensure_ascii=False, default=str)], total
    on dictionaries of the documented format. *)
Variable json_dumps : db_data → str.

(** The endpoint, by the prompt it is sent. *)
Variable llm : str → llm_outcome.

(** The two formatting passes of the success path,
    [_format_report(_force_format_report(text), data)], kept abstract:
    they run inside the [try] block and may return or raise. *)
Variable render_report : str → db_data → py_result str.

(** The body of the [try] block. *)
Definition attempt (self : LangGraphAnalyzer) (prompt : str) (data : db_data)
    : py_result str :=
  match llm prompt with
  | Failure e => Raise e
  | Response choices =>
    analysis_result ← response_text choices;
    render_report analysis_result data
  end.

(** [_analyze_async]; [now] is the formatted clock. *)
Definition _analyze_async (self : LangGraphAnalyzer) (now : str) (data : db_data)
    : py_result str :=
  let data_str := json_dumps data in
  let prompt := analyze_database_prompt self data_str now in
  match attempt self prompt data with
  | Ok report => Ok report
  | Raise e => Ok (_format_error_report now (error_message self e) data)
  end.

Definition analyze := _analyze_async.

End WithEnvironment.

(** The heading under which a handler reports a failure, and the
    families of failures the specification names. *)
Definition category_heading (c : exn_class) : str :=
  if isinstance c AsyncioTimeoutError then lit "数据库分析超时"
  else if isinstance c HttpxTimeoutException then lit "LLM API请求超时"
  else if isinstance c HttpxConnectError then lit "无法连接到LLM API服务"
  else if isinstance c OpenAIAPIError then lit "LLM API错误"
  else lit "数据库分析失败".




(** An analyzer, a data set as [task.py] builds it when the database
    cannot be reached, and an endpoint that rejects the API key. *)
Definition example_db_analyzer : LangGraphAnalyzer :=
  {| base_url := lit "http://127.0.0.1:4000/v1"; api_key := lit "sk-0123456789abcdef";
     model_name := lit "qwen3"; timeout := 60;
     analyze_database_prompt := λ database_data current_time,
       lit "# 数据库运维分析任务" ++ [NL] ++ database_data ++ [NL] ++ current_time |}.

Definition unreachable_data : db_data :=
  {| database_type := Some (SStr (lit "Postgresql")); host := Some (SStr (lit "10.0.0.5"));
     port := Some (SInt 5432); database := Some (SStr (lit "orders"));
     slow_queries := Some []; processlist := Some []; tables := Some [];
     errors := [lit "db unreachable"] |}.

Definition rejecting_llm (prompt : str) : llm_outcome :=
  Failure (Exn OpenAIAuthenticationError (lit "Incorrect API key provided")).

End DbAnalyzer.

(** ** Configuration: [db_ops_analyzer.config] *)

Module Configuration.
Import DbAnalyzer.

(** A plugin entry of a task, [{'name': .., 'params': {..}}]; [None]
    stands for an absent key. *)
Record plugin_config := {
  cfg_name : option str;
  cfg_params : option (list (str * scalar));
}.

(** A task of the configuration file, or an override: a dictionary with
    the keys the executor reads and possibly others. *)
Record task_config := {
  tc_name : option str;
  tc_source : option plugin_config;
  tc_analyzer : option plugin_config;
  tc_sinks : option (list plugin_config);
  tc_extra : list (str * scalar);
}.

(** Truth value of the dictionary: it has at least one key. *)
Definition truthy (cfg : task_config) : bool :=
  match tc_name cfg, tc_source cfg, tc_analyzer cfg, tc_sinks cfg, tc_extra cfg with
  | None, None, None, None, [] => false
  | _, _, _, _, _ => true
  end.

Record Config := { tasks : list task_config }.

Definition get_tasks (self : Config) : list task_config := tasks self.

(** [Config.get_task]: the first task whose ['name'] is [task_name]. *)
Fixpoint find_task (tasks : list task_config) (task_name : str) : option task_config :=
  match tasks with
  | [] => None
  | task :: rest =>
    match tc_name task with
    | Some n => if str_eqb n task_name then Some task else find_task rest task_name
    | None => find_task rest task_name
    end
  end.

Definition get_task (self : Config) (task_name : str) : option task_config :=
  find_task (get_tasks self) task_name.

(** [override_config or self.config.get_task(task_name)] *)
Definition resolve (override_config named : option task_config) : option task_config :=
  match override_config with
  | Some cfg => if truthy cfg then Some cfg else named
  | None => named
  end.

(** [d.get(key)] on a parameter dictionary. *)
Fixpoint dict_get (key : str) (d : list (str * scalar)) : option scalar :=
  match d with
  | [] => None
  | (k, v) :: rest => if str_eqb k key then Some v else dict_get key rest
  end.

(** [d[key]], raising [KeyError] on an absent key. *)
Definition subscript {A} (key : str) (entry : option A) : py_result A :=
  match entry with
  | Some v => Ok v
  | None => Raise (Exn KeyError ([39%N] ++ key ++ [39%N]))
  end.

Definition NOT_FOUND : str := lit "任务不存在: ".

End Configuration.

(** ** The run tracker of the database variant: [db_ops_analyzer.task] *)

Module DbExecutor.
Import DbAnalyzer Configuration.

Record run_info := {
  id : Z;
  task_name : str;
  status : str;
  stage : str;
  progress : Z * str;           (* ['percentage'], ['stage'] *)
  started_at : str;
  finished_at : option str;
  error : option str;
  report_id : option str;
}.

Record report := {
  r_id : str;
  r_run_id : Z;
  r_task_name : str;
  r_database : scalar;
  r_content : str;
  r_created_at : str;
  r_timestamp : str;
}.

(** The executor object; its lock is part of the thread model below. *)
Record TaskExecutor := {
  config : Config;
  runs : gmap Z run_info;
  reports : gmap str report;
  _run_id_counter : Z;
}.

(** Plugin instances, by what their methods do when called. *)
Record Source := { collect : py_result db_data }.
Record Sink := { save : str → py_result (option str) }.

(** Readings of [datetime.now()] during one run, already formatted. *)
Record clock := {
  timestamp : str;          (* [strftime('%Y%m%d_%H%M%S')] for the metadata *)
  created_at : str;         (* [isoformat()] when the report is recorded *)
  finished_at_time : str;   (* [isoformat()] when the run ends *)
  report_time : str;        (* [strftime('%Y-%m-%d %H:%M:%S')] in a report *)
}.

(** State and exceptions: a computation leaves the executor as it was at
    the point where it raised. *)
Definition M (A : Type) : Type := TaskExecutor → py_result A * TaskExecutor.

#[global] Instance M_ret : MRet M := λ A a st, (Ok a, st).

#[global] Instance M_bind : MBind M := λ A B k m st,
  match m st with
  | (Ok a, st') => k a st'
  | (Raise e, st') => (Raise e, st')
  end.

Definition lift {A} (r : py_result A) : M A := λ st, (r, st).

Definition set_runs (st : TaskExecutor) (rs : gmap Z run_info) : TaskExecutor :=
  {| config := config st; runs := rs; reports := reports st;
     _run_id_counter := _run_id_counter st |}.

Definition set_reports (st : TaskExecutor) (rp : gmap str report) : TaskExecutor :=
  {| config := config st; runs := runs st; reports := rp;
     _run_id_counter := _run_id_counter st |}.

(** Mutating the dictionary [run_info = self.runs[run_id]] in place. *)
Definition update_run (run_id : Z) (f : run_info → run_info) : M unit :=
  λ st, (Ok tt, set_runs st (alter f run_id (runs st))).

(** [self.reports[key] = report] *)
Definition put_report (key : str) (r : report) : M unit :=
  λ st, (Ok tt, set_reports st (<[key := r]> (reports st))).

Definition at_stage (s : str) (percentage : Z) (ri : run_info) : run_info :=
  {| id := id ri; task_name := task_name ri; status := status ri; stage := s;
     progress := (percentage, s); started_at := started_at ri;
     finished_at := finished_at ri; error := error ri; report_id := report_id ri |}.

(** The five assignments that mark a run failed. *)
Definition mark_failed (now : str) (msg : str) (ri : run_info) : run_info :=
  {| id := id ri; task_name := task_name ri; status := lit "failed";
     stage := lit "failed"; progress := (0%Z, lit "failed");
     started_at := started_at ri; finished_at := Some now; error := Some msg;
     report_id := report_id ri |}.

Definition mark_completed (now : str) (key : str) (ri : run_info) : run_info :=
  {| id := id ri; task_name := task_name ri; status := lit "completed";
     stage := lit "finished"; progress := (100%Z, lit "finished");
     started_at := started_at ri; finished_at := Some now; error := error ri;
     report_id := Some key |}.

Definition with_report_id (key : str) (ri : run_info) : run_info :=
  {| id := id ri; task_name := task_name ri; status := status ri; stage := stage ri;
     progress := progress ri; started_at := started_at ri;
     finished_at := finished_at ri; error := error ri; report_id := Some key |}.

(** [str.title()] on ASCII text, which plugin names are. *)
Definition is_lower (c : char) : bool := ((97 <=? c) && (c <=? 122))%N.
Definition is_upper (c : char) : bool := ((65 <=? c) && (c <=? 90))%N.

Fixpoint title_from (inside_word : bool) (s : str) : str :=
  match s with
  | [] => []
  | c :: rest =>
    if is_lower c then (if inside_word then c else (c - 32)%N) :: title_from true rest
    else if is_upper c then (if inside_word then (c + 32)%N else c) :: title_from true rest
    else c :: title_from false rest
  end.

Definition title (s : str) : str := title_from false s.

Definition UNKNOWN : scalar := SStr (lit "Unknown").

Section WithEnvironment.

(** Constructors of the plugin classes, which may raise. *)
Variable construct_source : str → list (str * scalar) → py_result Source.
Variable construct_analyzer : list (str * scalar) → py_result LangGraphAnalyzer.
Variable construct_sink : list (str * scalar) → py_result Sink.

(** The environment of the analyzer. *)
Variable json_dumps : db_data → str.
Variable llm : str → llm_outcome.
Variable render_report : str → db_data → py_result str.

Definition name_text (n : option str) : str := get n (lit "None").

Definition create_source (source_config : plugin_config) : py_result Source :=
  let source_params := get (cfg_params source_config) [] in
  match cfg_name source_config with
  | Some n =>
    if str_eqb n (lit "mysql") || str_eqb n (lit "postgresql")
       || str_eqb n (lit "redis") || str_eqb n (lit "mongodb")
    then construct_source n source_params
    else Raise (Exn ValueError (lit "未知的Source插件: " ++ n))
  | None => Raise (Exn ValueError (lit "未知的Source插件: None"))
  end.

Definition create_analyzer (analyzer_config : plugin_config)
    : py_result LangGraphAnalyzer :=
  let analyzer_params := get (cfg_params analyzer_config) [] in
  match cfg_name analyzer_config with
  | Some n =>
    if str_eqb n (lit "langgraph") then construct_analyzer analyzer_params
    else Raise (Exn ValueError (lit "未知的Analyzer插件: " ++ n))
  | None => Raise (Exn ValueError (lit "未知的Analyzer插件: None"))
  end.

(** [create_sinks]: a sink that is unknown or cannot be built is skipped. *)
Fixpoint create_sinks (sinks_config : list plugin_config) : list Sink :=
  match sinks_config with
  | [] => []
  | sink_config :: rest =>
    let sink_params := get (cfg_params sink_config) [] in
    match cfg_name sink_config with
    | Some n =>
      if str_eqb n (lit "file") then
        match construct_sink sink_params with
        | Ok sink => sink :: create_sinks rest
        | Raise _ => create_sinks rest
        end
      else create_sinks rest
    | None => create_sinks rest
    end
  end.

(** The loop over the sinks: what [save] returns is dropped and what it
    raises is logged, so the loop leaves the executor unchanged. *)
Fixpoint save_all (sinks : list Sink) (result : str) : M unit :=
  match sinks with
  | [] => mret tt
  | sink :: rest =>
    match save sink result with
    | Ok _ => save_all rest result
    | Raise _ => save_all rest result
    end
  end.

(** The dictionary [error_data] of the [except ConnectionError] branch. *)
Definition error_data (source_config : plugin_config) (e : exn) : db_data :=
  let params := get (cfg_params source_config) [] in
  {| database_type := Some (SStr (title (get (cfg_name source_config) (lit "Unknown"))));
     host := Some (get (dict_get (lit "host") params) UNKNOWN);
     port := Some (get (dict_get (lit "port") params) UNKNOWN);
     database := Some (get (dict_get (lit "database") params) UNKNOWN);
     slow_queries := Some []; processlist := Some []; tables := Some [];
     errors := [exn_msg e] |}.

Definition CONNECTION_FAILED : str := lit "数据库连接失败: ".

Definition report_key (clk : clock) (task_name : str) : str :=
  timestamp clk ++ lit "_" ++ task_name.

(** The [except ConnectionError as e] branch around [source.collect()]. *)
Definition on_connection_error (clk : clock) (run_id : Z) (task_name : str)
    (task_config : task_config) (source_config : plugin_config) (e : exn) : M unit :=
  update_run run_id (mark_failed (finished_at_time clk) (exn_msg e));;
  let data := error_data source_config e in
  temp_analyzer ← lift (create_analyzer
                          (get (tc_analyzer task_config)
                               {| cfg_name := None; cfg_params := None |}));
  let result := _format_error_report (report_time clk)
                  (CONNECTION_FAILED ++ exn_msg e) data in
  let key := report_key clk task_name in
  put_report key
    {| r_id := key; r_run_id := run_id; r_task_name := task_name;
       r_database := get (database data) (SStr (lit "all"));
       r_content := result; r_created_at := created_at clk;
       r_timestamp := timestamp clk |};;
  update_run run_id (with_report_id key);;
  let sinks := create_sinks (get (tc_sinks task_config) []) in
  save_all sinks result.

(** The body of the outer [try] of [_run_task]. *)
Definition try_block (clk : clock) (run_id : Z) (task_name : str)
    (task_config : task_config) : M unit :=
  update_run run_id (at_stage (lit "collecting") 10);;
  source_config ← lift (subscript (lit "source") (tc_source task_config));
  source ← lift (create_source source_config);
  analyzer_config ← lift (subscript (lit "analyzer") (tc_analyzer task_config));
  analyzer ← lift (create_analyzer analyzer_config);
  let sinks := create_sinks (get (tc_sinks task_config) []) in
  match collect source with
  | Raise e =>
    if isinstance (exn_type e) ConnectionError
    then on_connection_error clk run_id task_name task_config source_config e
    else lift (Raise e)
  | Ok data =>
    update_run run_id (at_stage (lit "analyzing") 50);;
    result ← lift (analyze json_dumps llm render_report analyzer (report_time clk) data);
    update_run run_id (at_stage (lit "saving") 90);;
    save_all sinks result;;
    let key := report_key clk task_name in
    put_report key
      {| r_id := key; r_run_id := run_id; r_task_name := task_name;
         r_database := get (database data) (SStr (lit "all"));
         r_content := result; r_created_at := created_at clk;
         r_timestamp := timestamp clk |};;
    update_run run_id (mark_completed (finished_at_time clk) key)
  end.

(** [_run_task]: [self.runs[run_id]] is read before the [try]; the
    [except Exception] clause marks the run failed. *)
Definition _run_task (clk : clock) (run_id : Z) (task_name : str)
    (task_config : task_config) : M unit := λ st,
  match runs st !! run_id with
  | None => (Raise (Exn KeyError (str_of_Z run_id)), st)
  | Some _ =>
    match try_block clk run_id task_name task_config st with
    | (Ok tt, st') => (Ok tt, st')
    | (Raise e, st') =>
      update_run run_id (mark_failed (finished_at_time clk) (exn_msg e)) st'
    end
  end.

End WithEnvironment.

(** [_create_run], as one caller executes it. *)
Definition new_run (run_id : Z) (name : str) (now : str) : run_info :=
  {| id := run_id; task_name := name; status := lit "running"; stage := lit "queued";
     progress := (0%Z, lit "queued"); started_at := now; finished_at := None;
     error := None; report_id := None |}.

Definition _create_run (name : str) (now : str) : M Z := λ st,
  let run_id := (_run_id_counter st + 1)%Z in
  (Ok run_id,
   {| config := config st; runs := <[run_id := new_run run_id name now]> (runs st);
      reports := reports st; _run_id_counter := run_id |}).

(** [execute_task_async]: the run id it returns together with the
    arguments of the thread it starts. *)
Definition execute_task_async (name : str) (override_config : option task_config)
    (now : str) : M (Z * task_config) := λ st,
  match resolve override_config (get_task (config st) name) with
  | None => (Raise (Exn ValueError (NOT_FOUND ++ name)), st)
  | Some task_config =>
    if truthy task_config
    then (run_id ← _create_run name now; mret (run_id, task_config)) st
    else (Raise (Exn ValueError (NOT_FOUND ++ name)), st)
  end.

Definition get_run (st : TaskExecutor) (run_id : Z) : option run_info := runs st !! run_id.

Definition get_report (st : TaskExecutor) (report_id : str) : option report :=
  reports st !! report_id.

(** How a run can end: failed with the message of [e] recorded and the
    report registry as it was before the run, ... *)
Definition failed_without_report (st st' : TaskExecutor) (run_id : Z) (e : exn) : Prop :=
  reports st' = reports st
  ∧ ∃ ri, get_run st' run_id = Some ri
          ∧ status ri = lit "failed" ∧ stage ri = lit "failed"
          ∧ error ri = Some (exn_msg e).


(** A configured task on a PostgreSQL source that cannot be reached:
    [collect] raises [ConnectionError("db unreachable")]. *)
Definition nightly : task_config :=
  {| tc_name := Some (lit "nightly");
     tc_source := Some {| cfg_name := Some (lit "postgresql");
                          cfg_params := Some [(lit "host", SStr (lit "10.0.0.5"));
                                              (lit "port", SInt 5432)] |};
     tc_analyzer := Some {| cfg_name := Some (lit "langgraph"); cfg_params := None |};
     tc_sinks := None; tc_extra := [] |}.

Definition unreachable : exn := Exn ConnectionError (lit "db unreachable").

Definition unreachable_source (name : str) (params : list (str * scalar))
    : py_result Source :=
  Ok {| collect := Raise unreachable |}.

(** A source whose [collect] fails for another reason. *)
Definition misconfigured : exn := Exn ValueError (lit "bad query limit").

Definition misconfigured_source (name : str) (params : list (str * scalar))
    : py_result Source :=
  Ok {| collect := Raise misconfigured |}.

Definition any_analyzer (params : list (str * scalar)) : py_result LangGraphAnalyzer :=
  Ok example_db_analyzer.

Definition no_sink (params : list (str * scalar)) : py_result Sink :=
  Raise (Exn TypeError (lit "unexpected keyword argument")).

Definition noon : clock :=
  {| timestamp := lit "20260101_120000"; created_at := lit "2026-01-01T12:00:01";
     finished_at_time := lit "2026-01-01T12:00:01";
     report_time := lit "2026-01-01 12:00:01" |}.

(** The executor after [execute_task_async('nightly')] on a fresh one. *)
Definition launched : TaskExecutor :=
  {| config := {| tasks := [nightly] |};
     runs := {[ 1%Z := new_run 1 (lit "nightly") (lit "2026-01-01T12:00:00") ]};
     reports := ∅; _run_id_counter := 1 |}.

End DbExecutor.

(** ** The run tracker of the log variant: [log_analyzer.task] *)

Module LogExecutor.
Import DbAnalyzer Configuration.

Record progress_info := {
  total_chunks : nat;
  processed_chunks : nat;
  percentage : Z;
}.

Record run_info := {
  id : Z;
  task_name : str;
  container_name : str;
  status : str;
  stage : str;
  started_at : str;
  finished_at : option str;
  error : option str;
  progress : progress_info;
  report_id : option str;
}.

Record report := {
  r_id : str;
  r_run_id : Z;
  r_task_name : str;
  r_container_name : str;
  r_content : str;
  r_file_path : option str;
  r_minio_path : option str;
  r_created_at : str;
  r_timestamp : str;
}.

Record TaskExecutor := {
  runs : gmap Z run_info;
  reports : gmap str report;
  _run_id_counter : Z;
}.

Record Source := { collect : py_result LogAnalyzer.py_data }.

(** A sink: [str(type(sink))] and what [save] does. *)
Record Sink := { type_name : str; save : str → py_result (option str) }.

Record clock := {
  timestamp : str;          (* [strftime('%Y%m%d_%H%M%S')] *)
  created_at : str;         (* [isoformat()] when the report is recorded *)
  finished_at_time : str;   (* [isoformat()] when the run ends *)
}.

Definition M (A : Type) : Type := TaskExecutor → py_result A * TaskExecutor.

#[global] Instance M_ret : MRet M := λ A a st, (Ok a, st).

#[global] Instance M_bind : MBind M := λ A B k m st,
  match m st with
  | (Ok a, st') => k a st'
  | (Raise e, st') => (Raise e, st')
  end.

Definition lift {A} (r : py_result A) : M A := λ st, (r, st).

Definition set_runs (st : TaskExecutor) (rs : gmap Z run_info) : TaskExecutor :=
  {| runs := rs; reports := reports st; _run_id_counter := _run_id_counter st |}.

Definition set_reports (st : TaskExecutor) (rp : gmap str report) : TaskExecutor :=
  {| runs := runs st; reports := rp; _run_id_counter := _run_id_counter st |}.

Definition update_run (run_id : Z) (f : run_info → run_info) : M unit :=
  λ st, (Ok tt, set_runs st (alter f run_id (runs st))).

Definition put_report (key : str) (r : report) : M unit :=
  λ st, (Ok tt, set_reports st (<[key := r]> (reports st))).

Definition with_stage (s : str) (ri : run_info) : run_info :=
  {| id := id ri; task_name := task_name ri; container_name := container_name ri;
     status := status ri; stage := s; started_at := started_at ri;
     finished_at := finished_at ri; error := error ri; progress := progress ri;
     report_id := report_id ri |}.

Definition with_progress (p : progress_info) (ri : run_info) : run_info :=
  {| id := id ri; task_name := task_name ri; container_name := container_name ri;
     status := status ri; stage := stage ri; started_at := started_at ri;
     finished_at := finished_at ri; error := error ri; progress := p;
     report_id := report_id ri |}.

Definition mark_failed (now : str) (msg : str) (ri : run_info) : run_info :=
  {| id := id ri; task_name := task_name ri; container_name := container_name ri;
     status := lit "failed"; stage := lit "failed"; started_at := started_at ri;
     finished_at := Some now; error := Some msg; progress := progress ri;
     report_id := report_id ri |}.

Definition mark_completed (now : str) (key : str) (ri : run_info) : run_info :=
  {| id := id ri; task_name := task_name ri; container_name := container_name ri;
     status := lit "completed"; stage := lit "finished"; started_at := started_at ri;
     finished_at := Some now; error := error ri;
     progress := {| total_chunks := total_chunks (progress ri);
                    processed_chunks := processed_chunks (progress ri);
                    percentage := 100 |};
     report_id := Some key |}.

(** [str.lower()] on ASCII text. *)
Definition lower (s : str) : str :=
  map (λ c, if ((65 <=? c) && (c <=? 90))%N then (c + 32)%N else c) s.

Section WithEnvironment.

(** [int(processed / total * 100)], a floating-point computation that
    is left to the environment. *)
Variable percent : nat → nat → Z.

(** Constructors of the plugin classes, which may raise. *)
Variable construct_source : str → list (str * scalar) → py_result Source.
Variable construct_analyzer : list (str * scalar) → py_result LogAnalyzer.LangGraphAnalyzer.
Variable construct_sink : str → list (str * scalar) → py_result Sink.

(** [analyzer.analyze(data)] run to its end: what it returns or raises
    and the effects it had meanwhile. *)
Variable run_analyze : LogAnalyzer.LangGraphAnalyzer → LogAnalyzer.py_data
                       → py_result str * LogAnalyzer.world.

(** The configuration module of this variant is not among the sources;
    its [get_task] is a parameter. *)
Variable get_task : str → option task_config.

Definition create_source (source_config : plugin_config) : py_result Source :=
  let source_params := get (cfg_params source_config) [] in
  match cfg_name source_config with
  | Some n =>
    if str_eqb n (lit "multi") || str_eqb n (lit "docker") || str_eqb n (lit "file")
    then construct_source n source_params
    else Raise (Exn ValueError (lit "未知的Source插件: " ++ n))
  | None => Raise (Exn ValueError (lit "未知的Source插件: None"))
  end.

(** [create_analyzer] hands [self._update_progress] to the analyzer. *)
Definition with_callback (a : LogAnalyzer.LangGraphAnalyzer) : LogAnalyzer.LangGraphAnalyzer :=
  {| LogAnalyzer.mode := LogAnalyzer.mode a;
     LogAnalyzer.concurrency := LogAnalyzer.concurrency a;
     LogAnalyzer.chunk_size := LogAnalyzer.chunk_size a;
     LogAnalyzer.analyze_log_chunk_prompt := LogAnalyzer.analyze_log_chunk_prompt a;
     LogAnalyzer.summarize_analyses_prompt := LogAnalyzer.summarize_analyses_prompt a;
     LogAnalyzer.progress_callback := true;
     LogAnalyzer.run_id := LogAnalyzer.run_id a |}.

Definition create_analyzer (analyzer_config : plugin_config)
    : py_result LogAnalyzer.LangGraphAnalyzer :=
  let analyzer_params := get (cfg_params analyzer_config) [] in
  match cfg_name analyzer_config with
  | Some n =>
    if str_eqb n (lit "langgraph")
    then a ← construct_analyzer analyzer_params; Ok (with_callback a)
    else Raise (Exn ValueError (lit "未知的Analyzer插件: " ++ n))
  | None => Raise (Exn ValueError (lit "未知的Analyzer插件: None"))
  end.

Fixpoint create_sinks (sinks_config : list plugin_config) : list Sink :=
  match sinks_config with
  | [] => []
  | sink_config :: rest =>
    let sink_params := get (cfg_params sink_config) [] in
    match cfg_name sink_config with
    | Some n =>
      if str_eqb n (lit "database") || str_eqb n (lit "file") || str_eqb n (lit "minio")
      then
        match construct_sink n sink_params with
        | Ok sink => sink :: create_sinks rest
        | Raise _ => create_sinks rest
        end
      else create_sinks rest
    | None => create_sinks rest
    end
  end.

(** [_update_progress], the callback. *)
Definition _update_progress (run_id : Z) (total processed : nat) : M unit := λ st,
  match runs st !! run_id with
  | Some _ =>
    let pct := if (0 <? total) then percent processed total else 0%Z in
    update_run run_id
      (with_progress {| total_chunks := total; processed_chunks := processed;
                        percentage := pct |}) st
  | None => (Ok tt, st)
  end.

(** The callbacks among the effects of an analysis, applied in order. *)
Fixpoint deliver (w : LogAnalyzer.world) : M unit :=
  match w with
  | [] => mret tt
  | LogAnalyzer.Progress r total processed :: rest =>
    _update_progress r total processed;; deliver rest
  | _ :: rest => deliver rest
  end.

(** The loop over the sinks: first path returned, and last path that
    looks like an object-storage path. *)
Fixpoint save_all (sinks : list Sink) (result : str)
    (sink_result minio_path : option str) : option str * option str :=
  match sinks with
  | [] => (sink_result, minio_path)
  | sink :: rest =>
    match save sink result with
    | Ok (Some result_path) =>
      if LogAnalyzer.is_empty result_path
      then save_all rest result sink_result minio_path
      else
        let sink_result' := match sink_result with
                            | Some p => if LogAnalyzer.is_empty p then Some result_path else Some p
                            | None => Some result_path
                            end in
        let minio_path' :=
          if contains (lit "minio") (lower (type_name sink)) || contains (lit "/") result_path
          then Some result_path else minio_path in
        save_all rest result sink_result' minio_path'
    | Ok None => save_all rest result sink_result minio_path
    | Raise _ => save_all rest result sink_result minio_path
    end
  end.

(** [data = '\n'.join(data)] for an iterable that is not a string. *)
Definition joined (data : LogAnalyzer.py_data) : LogAnalyzer.py_data :=
  match data with
  | LogAnalyzer.DIter items => LogAnalyzer.DStr (join [NL] items)
  | other => other
  end.

(** The body of the [try] of [_run_task]. *)
Definition try_block (clk : clock) (run_id : Z) (name : str)
    (task_config : task_config) (container : option str) : M unit :=
  update_run run_id (with_stage (lit "collecting"));;
  update_run run_id (with_progress
                       {| total_chunks := 0; processed_chunks := 0; percentage := 0 |});;
  source_config ← lift (subscript (lit "source") (tc_source task_config));
  source ← lift (create_source source_config);
  analyzer_config ← lift (subscript (lit "analyzer") (tc_analyzer task_config));
  analyzer ← lift (create_analyzer analyzer_config);
  let analyzer := LogAnalyzer.set_run_id analyzer run_id in
  let sinks := create_sinks (get (tc_sinks task_config) []) in
  data ← lift (collect source);
  let data := joined data in
  update_run run_id (with_stage (lit "analyzing"));;
  let '(outcome, effects) := run_analyze analyzer data in
  deliver effects;;
  result ← lift outcome;
  update_run run_id (with_stage (lit "saving"));;
  st ← (λ st, (Ok st, st));
  let container_label :=
    match container with
    | Some c => if LogAnalyzer.is_empty c
                then from_option container_name (lit "all") (runs st !! run_id)
                else c
    | None => from_option container_name (lit "all") (runs st !! run_id)
    end in
  let '(sink_result, minio_path) := save_all sinks result None None in
  let key := timestamp clk ++ lit "_" ++ container_label in
  let r := {| r_id := key; r_run_id := run_id; r_task_name := name;
              r_container_name := container_label; r_content := result;
              r_file_path := sink_result; r_minio_path := minio_path;
              r_created_at := created_at clk; r_timestamp := timestamp clk |} in
  put_report key r;;
  put_report (str_of_Z run_id) r;;
  update_run run_id (mark_completed (finished_at_time clk) key).

(** [_run_task]: every exception of the [try] block ends in the one
    [except Exception] clause. *)
Definition _run_task (clk : clock) (run_id : Z) (name : str)
    (task_config : task_config) (container : option str) : M unit := λ st,
  match runs st !! run_id with
  | None => (Raise (Exn KeyError (str_of_Z run_id)), st)
  | Some _ =>
    match try_block clk run_id name task_config container st with
    | (Ok tt, st') => (Ok tt, st')
    | (Raise e, st') =>
      update_run run_id (mark_failed (finished_at_time clk) (exn_msg e)) st'
    end
  end.

Definition new_run (run_id : Z) (name : str) (container : option str) (now : str)
    : run_info :=
  {| id := run_id; task_name := name;
     container_name := match container with
                       | Some c => if LogAnalyzer.is_empty c then lit "all" else c
                       | None => lit "all"
                       end;
     status := lit "running"; stage := lit "queued"; started_at := now;
     finished_at := None; error := None;
     progress := {| total_chunks := 0; processed_chunks := 0; percentage := 0 |};
     report_id := None |}.

Definition _create_run (name : str) (container : option str) (now : str) : M Z := λ st,
  let run_id := (_run_id_counter st + 1)%Z in
  (Ok run_id,
   {| runs := <[run_id := new_run run_id name container now]> (runs st);
      reports := reports st; _run_id_counter := run_id |}).

Definition execute_task_async (name : str) (override_config : option task_config)
    (container : option str) (now : str) : M (Z * task_config) := λ st,
  match resolve override_config (get_task name) with
  | None => (Raise (Exn ValueError (NOT_FOUND ++ name)), st)
  | Some task_config =>
    if truthy task_config
    then (run_id ← _create_run name container now; mret (run_id, task_config)) st
    else (Raise (Exn ValueError (NOT_FOUND ++ name)), st)
  end.

End WithEnvironment.

Definition get_run (st : TaskExecutor) (run_id : Z) : option run_info := runs st !! run_id.

(** [get_report] looks [str(report_id)] up. *)
Definition get_report (st : TaskExecutor) (report_id : str) : option report :=
  reports st !! report_id.

(** How a run ends on an exception: failed with the message of [e]
    recorded and the report registry as it was before the run. *)
Definition failed_without_report (st st' : TaskExecutor) (run_id : Z) (e : exn) : Prop :=
  reports st' = reports st
  ∧ ∃ ri, get_run st' run_id = Some ri
          ∧ status ri = lit "failed" ∧ stage ri = lit "failed"
          ∧ error ri = Some (exn_msg e).

(** A task on a source whose [collect] raises
    [ConnectionError("docker daemon unreachable")]. *)
Definition container_logs : task_config :=
  {| tc_name := Some (lit "container_logs");
     tc_source := Some {| cfg_name := Some (lit "docker");
                          cfg_params := Some [(lit "container_name", SStr (lit "web"))] |};
     tc_analyzer := Some {| cfg_name := Some (lit "langgraph"); cfg_params := None |};
     tc_sinks := None; tc_extra := [] |}.

Definition unreachable : exn := Exn ConnectionError (lit "docker daemon unreachable").

Definition unreachable_source (name : str) (params : list (str * scalar))
    : py_result Source :=
  Ok {| collect := Raise unreachable |}.

Definition any_analyzer (params : list (str * scalar))
    : py_result LogAnalyzer.LangGraphAnalyzer :=
  Ok (LogAnalyzer.example_analyzer (lit "sequential")).

Definition no_sink (name : str) (params : list (str * scalar)) : py_result Sink :=
  Raise (Exn TypeError (lit "unexpected keyword argument")).

(** [analyze] under the stub endpoint, sequentially. *)
Definition stub_analyze (a : LogAnalyzer.LangGraphAnalyzer) (data : LogAnalyzer.py_data)
    : py_result str * LogAnalyzer.world :=
  default (Raise (Exn ValueError []), [])
    (LogAnalyzer.analyze LogAnalyzer.stub_llm a data [] []).

Definition whole_percent (processed total : nat) : Z :=
  (Z.of_nat processed * 100 / Z.of_nat total)%Z.

Definition noon : clock :=
  {| timestamp := lit "20260101_120000"; created_at := lit "2026-01-01T12:00:01";
     finished_at_time := lit "2026-01-01T12:00:01" |}.

Definition no_tasks (name : str) : option task_config := None.

(** The executor after [execute_task_async('container_logs')]. *)
Definition launched : TaskExecutor :=
  {| runs := {[ 1%Z := new_run 1 (lit "container_logs") None (lit "2026-01-01T12:00:00") ]};
     reports := ∅; _run_id_counter := 1 |}.

End LogExecutor.

(** ** Concurrent callers of [_create_run] (both variants) *)

Module RunIds.

(** Where a caller of [_create_run] stands. *)
Inductive pc :=
  | Entering                 (* before [with self._lock] *)
  | Holding                  (* lock acquired *)
  | Computed (run_id : Z)    (* [run_id = self._run_id_counter + 1] done *)
  | Stored (run_id : Z)      (* [self._run_id_counter = run_id] done *)
  | Released (run_id : Z)    (* lock released *)
  | Returned (run_id : Z).   (* [self.runs[run_id] = run_info] done, id returned *)

(** The executor as the callers share it: the counter, the lock, the
    run registry (each run id with the caller that recorded it), and the
    values assigned to the counter so far, in order. *)
Record state := {
  threads : list pc;
  _run_id_counter : Z;
  _lock : bool;
  runs : gmap Z nat;
  issued : list Z;
}.

(** The next action of caller [i], if it can move. *)
Definition step (i : nat) (s : state) : option state :=
  match threads s !! i with
  | Some Entering =>
    if _lock s then None
    else Some {| threads := <[i := Holding]> (threads s);
                 _run_id_counter := _run_id_counter s; _lock := true;
                 runs := runs s; issued := issued s |}
  | Some Holding =>
    Some {| threads := <[i := Computed (_run_id_counter s + 1)]> (threads s);
            _run_id_counter := _run_id_counter s; _lock := _lock s;
            runs := runs s; issued := issued s |}
  | Some (Computed run_id) =>
    Some {| threads := <[i := Stored run_id]> (threads s);
            _run_id_counter := run_id; _lock := _lock s;
            runs := runs s; issued := issued s ++ [run_id] |}
  | Some (Stored run_id) =>
    Some {| threads := <[i := Released run_id]> (threads s);
            _run_id_counter := _run_id_counter s; _lock := false;
            runs := runs s; issued := issued s |}
  | Some (Released run_id) =>
    Some {| threads := <[i := Returned run_id]> (threads s);
            _run_id_counter := _run_id_counter s; _lock := _lock s;
            runs := <[run_id := i]> (runs s); issued := issued s |}
  | Some (Returned _) | None => None
  end.

Fixpoint run_schedule (sched : list nat) (s : state) : option state :=
  match sched with
  | [] => Some s
  | i :: rest =>
    match step i s with
    | Some s' => run_schedule rest s'
    | None => None
    end
  end.

(** [K] callers enter an executor whose counter is [c0]. *)
Definition init (c0 : Z) (K : nat) : state :=
  {| threads := replicate K Entering; _run_id_counter := c0; _lock := false;
     runs := ∅; issued := [] |}.

(** The run id a caller has been given, once the counter holds it. *)
Definition id_of (t : pc) : option Z :=
  match t with
  | Stored r | Released r | Returned r => Some r
  | _ => None
  end.

Definition ids (ts : list pc) : list Z := omap id_of ts.

(** The ids returned, by caller, once every caller has returned. *)
Fixpoint returned (ts : list pc) : option (list Z) :=
  match ts with
  | [] => Some []
  | Returned r :: rest =>
    match returned rest with
    | Some rs => Some (r :: rs)
    | None => None
    end
  | _ :: _ => None
  end.

Definition count_by (f : pc → nat) (ts : list pc) : nat := sum_list (map f ts).

Definition in_lock (t : pc) : nat :=
  match t with Holding | Computed _ | Stored _ => 1 | _ => 0 end.

Definition remaining (t : pc) : nat :=
  match t with
  | Entering => 5 | Holding => 4 | Computed _ => 3 | Stored _ => 2
  | Released _ => 1 | Returned _ => 0
  end.

(** Three callers; the third enters the lock first, the first last. *)
Definition crossing : list nat := [2; 2; 2; 2; 1; 1; 2; 1; 1; 0; 0; 1; 0; 0; 0].

Definition crossing_end : state :=
  default (init 0 3) (run_schedule crossing (init 0 3)).

End RunIds.

(** * The aggregating source
    [log_analyzer/plugins/sources/multi.py] *)

Module MultiSource.

(** What a sub-source's [collect()] returns: a string (DockerSource), an
    iterable of chunks, which may itself raise after some chunks while it
    is being iterated, or a value of another type. *)
Inductive collected :=
  | RStr (s : str)
  | RIter (chunks : list str) (failure : option exn)
  | ROther.

(** A sub-source instance: its [label] attribute, if set, and the outcome
    of calling its [collect()]. *)
Record Source := {
  label : option str;
  collect : py_result collected;
}.

(** An entry of [call_chain], a dictionary from strings to strings. *)
Definition chain := gmap str str.

Record MultiSource := {
  source_instances : list Source;
  call_chain : list chain;
}.

(** An element of [all_logs]: [(timestamp, label, log_content)]. *)
Definition entry : Type := str * str * str.

Definition timestamp_of (e : entry) : str := e.1.1.

(** The truth value of a string. *)
Definition truthy (s : str) : bool :=
  match s with [] => false | _ :: _ => true end.

(** [getattr(source_instance, "label", "unknown")] *)
Definition label_of (src : Source) : str := default (lit "unknown") (label src).

Section WithClock.

(** [datetime.now().strftime("%Y-%m-%d %H:%M:%S")] at its n-th call
    (counted from 0) within one [collect()]. *)
Variable now : nat → str.

(** [all_logs.append((now, label, content))]: the clock is read once for
    every entry appended, so the number of entries counts its calls. *)
Definition append_entry (lbl content : str) (all_logs : list entry) : list entry :=
  all_logs ++ [(now (length all_logs), lbl, content)].

(** [for log_chunk in result: if log_chunk: all_logs.append(...)] *)
Fixpoint take_chunks (lbl : str) (chunks : list str) (all_logs : list entry)
  : list entry :=
  match chunks with
  | [] => all_logs
  | log_chunk :: rest =>
    take_chunks lbl rest
      (if truthy log_chunk then append_entry lbl log_chunk all_logs else all_logs)
  end.

(** The body of the loop over the sub-sources, with its [try]: whatever
    is raised, by the call or while the iterable is consumed, is logged
    and the entries appended so far stay. *)
Definition collect_from (src : Source) (all_logs : list entry) : list entry :=
  match collect src with
  | Ok (RStr result) =>
    if truthy result then append_entry (label_of src) result all_logs else all_logs
  | Ok (RIter chunks _) => take_chunks (label_of src) chunks all_logs
  | Ok ROther => all_logs
  | Raise _ => all_logs
  end.

Fixpoint collect_all (sources : list Source) (all_logs : list entry) : list entry :=
  match sources with
  | [] => all_logs
  | src :: rest => collect_all rest (collect_from src all_logs)
  end.

(** [all_logs.sort(key=lambda x: x[0])]: a stable sort on the timestamp. *)
Fixpoint insert_sorted (e : entry) (sorted : list entry) : list entry :=
  match sorted with
  | [] => [e]
  | x :: rest =>
    if str_ltb (timestamp_of x) (timestamp_of e) then x :: insert_sorted e rest
    else e :: x :: rest
  end.

Definition sort (all_logs : list entry) : list entry := foldr insert_sorted [] all_logs.

(** One line of the call chain annotation. *)
Definition chain_line (c : chain) : py_result str :=
  src ← Configuration.subscript (lit "from") (c !! lit "from");
  dst ← Configuration.subscript (lit "to") (c !! lit "to");
  Ok (lit "# 调用关系: " ++ src ++ lit " -> " ++ dst ++ lit " ("
      ++ default (lit "unknown") (c !! lit "protocol") ++ lit ")").

Fixpoint chain_lines (chains : list chain) : py_result (list str) :=
  match chains with
  | [] => Ok []
  | c :: rest =>
    line ← chain_line c;
    lines ← chain_lines rest;
    Ok (line :: lines)
  end.

Definition call_chain_info (chains : list chain) : py_result str :=
  lines ← chain_lines chains;
  Ok (join [NL] lines ++ [NL; NL]).

(** [f"[{timestamp}] [{label}] {line}\n"] *)
Definition format_line (timestamp lbl line : str) : str :=
  lit "[" ++ timestamp ++ lit "] [" ++ lbl ++ lit "] " ++ line ++ [NL].

Definition nonblank (line : str) : bool := truthy (strip line).

(** The lines yielded for one entry. *)
Definition format_entry (e : entry) : list str :=
  let '(timestamp, lbl, log_content) := e in
  map (format_line timestamp lbl) (filter (λ line, nonblank line = true) (split NL log_content)).

(** [MultiSource.collect], a generator: the items it yields, and the
    exception that ends it, if one does. *)
Definition collect_merged (self : MultiSource) : list str * option exn :=
  let all_logs := collect_all (source_instances self) [] in
  match all_logs with
  | [] => ([], None)
  | _ :: _ =>
    let sorted := sort all_logs in
    let lines := flat_map format_entry sorted in
    match call_chain self with
    | [] => (lines, None)
    | _ :: _ =>
      match call_chain_info (call_chain self) with
      | Ok info => (info :: lines, None)
      | Raise e => ([], Some e)
      end
    end
  end.

End WithClock.

(** The chunks a returned value hands over. *)
Definition chunks_of (r : collected) : list str :=
  match r with
  | RStr s => [s]
  | RIter chunks _ => chunks
  | ROther => []
  end.

(** The non-blank lines a sub-source contributes. *)
Definition lines_of (src : Source) : list str :=
  match collect src with
  | Ok r => filter (λ line, nonblank line = true) (flat_map (split NL) (chunks_of r))
  | Raise _ => []
  end.

(** A call chain entry that names both ends. *)
Definition names_both_ends (c : chain) : bool :=
  bool_decide (is_Some (c !! lit "from")) && bool_decide (is_Some (c !! lit "to")).

(** Three sub-sources, the second of which cannot be reached. *)
Definition web : Source :=
  {| label := Some (lit "web");
     collect := Ok (RStr (lit "GET /orders 500" ++ [NL] ++ [NL] ++ lit "retrying")) |}.

Definition gateway : Source :=
  {| label := Some (lit "gateway");
     collect := Raise (Exn ConnectionError (lit "docker daemon unreachable")) |}.

Definition orders_db : Source :=
  {| label := Some (lit "orders-db");
     collect := Ok (RIter [lit "deadlock detected"; []; lit "connection reset"] None) |}.

Definition web_to_db : chain :=
  <[lit "from" := lit "web"]> (<[lit "to" := lit "orders-db"]> (<[lit "protocol" := lit "HTTP"]> ∅)).

Definition three_sources : MultiSource :=
  {| source_instances := [web; gateway; orders_db]; call_chain := [] |}.

Definition three_sources_with_chain : MultiSource :=
  {| source_instances := [web; gateway; orders_db]; call_chain := [web_to_db] |}.

(** A clock that stands still during the collection. *)
Definition noon (_ : nat) : str := lit "2024-05-01 12:00:00".

End MultiSource.

(** ** How [_chunk_logs] packs lines *)

Module Packing.
Import Chunker.

(** Consecutive groups of lines as the loop closes them: a group is
    closed only when the first line of the next one would have taken it
    over [chunk_size]. *)
Fixpoint packed (chunk_size : Z) (groups : list (list str)) : Prop :=
  match groups with
  | [] => True
  | g :: rest =>
    match rest with
    | [] => True
    | h :: _ => (chunk_size < sum_sizes g + utf8_len (default [] (head h)))%Z
    end
    ∧ packed chunk_size rest
  end.

(** The byte count the loop works with for a whole text: the bytes of
    its lines, line feeds left out. *)
Definition line_bytes (logs : str) : Z := sum_sizes (split NL logs).

(** A text with a lone surrogate, which [encode('utf-8')] rejects. *)
Definition with_surrogate : str := lit "ok" ++ [NL] ++ [56320%N] ++ lit "x".

End Packing.

(** ** Views of an analysis used to state its behaviour *)

Module AnalysisViews.
Import Chunker LogAnalyzer.

(** The same analyzer constructed with another [mode]. *)
Definition with_mode (m : str) (self : LangGraphAnalyzer) : LangGraphAnalyzer :=
  {| mode := m; concurrency := concurrency self; chunk_size := chunk_size self;
     analyze_log_chunk_prompt := analyze_log_chunk_prompt self;
     summarize_analyses_prompt := summarize_analyses_prompt self;
     progress_callback := progress_callback self; run_id := run_id self |}.

(** The same analyzer constructed with another [concurrency]. *)
Definition with_concurrency (c : Z) (self : LangGraphAnalyzer) : LangGraphAnalyzer :=
  {| mode := mode self; concurrency := c; chunk_size := chunk_size self;
     analyze_log_chunk_prompt := analyze_log_chunk_prompt self;
     summarize_analyses_prompt := summarize_analyses_prompt self;
     progress_callback := progress_callback self; run_id := run_id self |}.

Definition concurrent (self : LangGraphAnalyzer) : bool :=
  str_eqb (mode self) (lit "concurrent").

(** The effects of [_analyze_sequential], chunk by chunk: the request,
    then the progress report if one is made. *)
Definition sequential_trace (self : LangGraphAnalyzer) (chunks : list str) : world :=
  concat (imap (λ i chunk,
                  notify self (length chunks) (i + 1)
                    [LLMCall (chunk_request self i chunk)]) chunks).

(** The tail of [_analyze_async], from the per-chunk analyses on: the
    text it returns. *)
Definition report_text (llm : request → py_result (option str))
    (self : LangGraphAnalyzer) (analyses : list str) : str :=
  let valid_analyses := noise_filter analyses in
  if is_empty valid_analyses then NO_ERRORS_REPORT
  else (_summarize llm self valid_analyses []).1.

(** The request [_summarize] sends for two or more analyses. *)
Definition summary_request (self : LangGraphAnalyzer) (analyses : list str) : request :=
  SummaryReq (summarize_analyses_prompt self (join SEPARATOR analyses)).

(** An endpoint that cannot be reached: every request raises
    [APIConnectionError("Connection error.")]. *)
Definition unreachable_llm (req : request) : py_result (option str) :=
  Raise (Exn (OtherException (lit "APIConnectionError")) (lit "Connection error.")).

(** An endpoint that analyses chunks and fails on the synthesis. *)
Definition no_summary_llm (req : request) : py_result (option str) :=
  match req with
  | ChunkReq _ _ => Ok (Some FINDING)
  | SummaryReq _ => Raise (Exn HttpxTimeoutException (lit "Request timed out."))
  end.

End AnalysisViews.

(** ** The life of an executor (database variant) *)

Module DbLife.
Import DbAnalyzer Configuration DbExecutor.

(** [TaskExecutor.__init__] *)
Definition fresh (cfg : Config) : TaskExecutor :=
  {| config := cfg; runs := ∅; reports := ∅; _run_id_counter := 0 |}.

(** The record of a run keeps what [_create_run] wrote into it. *)
Definition same_run (ri0 ri : run_info) : Prop :=
  id ri = id ri0 ∧ task_name ri = task_name ri0 ∧ started_at ri = started_at ri0.

(** What a run may touch: its own record and the report under [key]. *)
Definition touches_only (run_id : Z) (key : str) (st st' : TaskExecutor) : Prop :=
  config st' = config st
  ∧ _run_id_counter st' = _run_id_counter st
  ∧ (∀ k, k ≠ run_id → runs st' !! k = runs st !! k)
  ∧ (∀ k, k ≠ key → reports st' !! k = reports st !! k).

Definition completed (ri : run_info) : Prop :=
  status ri = lit "completed" ∧ stage ri = lit "finished"
  ∧ progress ri = (100%Z, lit "finished").

Definition failed (ri : run_info) : Prop :=
  status ri = lit "failed" ∧ stage ri = lit "failed"
  ∧ progress ri = (0%Z, lit "failed") ∧ is_Some (error ri).

(** Run ids and records agree: the ids in use are 1, ..., counter, and
    the record under an id carries it. *)
Definition well_formed (st : TaskExecutor) : Prop :=
  (0 ≤ _run_id_counter st)%Z
  ∧ (∀ k, is_Some (runs st !! k) ↔ (1 ≤ k ≤ _run_id_counter st)%Z)
  ∧ (∀ k ri, runs st !! k = Some ri → id ri = k).

Section WithEnvironment.

Variable construct_source : str → list (str * scalar) → py_result Source.
Variable construct_analyzer : list (str * scalar) → py_result LangGraphAnalyzer.
Variable construct_sink : list (str * scalar) → py_result Sink.
Variable json_dumps : db_data → str.
Variable llm : str → llm_outcome.
Variable render_report : str → db_data → py_result str.

(** The calls made on an executor: a launch, and the work of the thread
    a launch started. *)
Inductive operation :=
  | Launch (name : str) (override_config : option task_config) (now : str)
  | Work (clk : clock) (run_id : Z) (name : str) (task_config : task_config).

Definition perform (st : TaskExecutor) (op : operation) : TaskExecutor :=
  match op with
  | Launch name override_config now => (execute_task_async name override_config now st).2
  | Work clk run_id name task_config =>
    (_run_task construct_source construct_analyzer construct_sink json_dumps llm
       render_report clk run_id name task_config st).2
  end.

End WithEnvironment.

(** A source that answers, an endpoint that rejects the key, and a sink
    whose disk is full. *)
Definition answering_source (name : str) (params : list (str * scalar))
    : py_result Source :=
  Ok {| collect := Ok unreachable_data |}.

Definition full_disk_sink (params : list (str * scalar)) : py_result Sink :=
  Ok {| save := λ _, Raise (Exn (OtherException (lit "OSError")) (lit "No space left on device")) |}.

Definition nightly_to_file : task_config :=
  {| tc_name := Some (lit "nightly");
     tc_source := tc_source nightly; tc_analyzer := tc_analyzer nightly;
     tc_sinks := Some [{| cfg_name := Some (lit "file"); cfg_params := None |}];
     tc_extra := [] |}.

(** An override for a task the configuration does not have. *)
Definition adhoc : task_config :=
  {| tc_name := None;
     tc_source := Some {| cfg_name := Some (lit "redis"); cfg_params := None |};
     tc_analyzer := None; tc_sinks := None; tc_extra := [] |}.

(** The empty dictionary. *)
Definition empty_override : task_config :=
  {| tc_name := None; tc_source := None; tc_analyzer := None; tc_sinks := None;
     tc_extra := [] |}.

End DbLife.

(** ** The life of a run (log variant) *)

Module LogLife.
Import DbAnalyzer Configuration LogExecutor.

(** The container a report is filed under: the argument of the launch
    if it is not empty, else the container recorded for the run. *)
Definition container_label (container : option str) (ri : run_info) : str :=
  match container with
  | Some c => if LogAnalyzer.is_empty c then container_name ri else c
  | None => container_name ri
  end.

(** The key a report is recorded under besides the run id. *)
Definition report_key (clk : clock) (label : str) : str :=
  timestamp clk ++ lit "_" ++ label.

(** A source that returns three lines as an iterable, a sink that fails
    and one that writes a file. *)
Definition three_lines_source (name : str) (params : list (str * scalar))
    : py_result Source :=
  Ok {| collect := Ok (LogAnalyzer.DIter [LogAnalyzer.forty; LogAnalyzer.forty;
                                          LogAnalyzer.forty]) |}.

Definition one_sink (name : str) (params : list (str * scalar)) : py_result Sink :=
  if str_eqb name (lit "file")
  then Ok {| type_name := lit "<class 'log_analyzer.plugins.sinks.file.FileSink'>";
             save := λ _, Ok (Some (lit "/app/reports/report_20260101_120000.md")) |}
  else Raise (Exn TypeError (lit "unexpected keyword argument")).

Definition container_logs_to_file : task_config :=
  {| tc_name := Some (lit "container_logs");
     tc_source := tc_source container_logs; tc_analyzer := tc_analyzer container_logs;
     tc_sinks := Some [{| cfg_name := Some (lit "minio"); cfg_params := None |};
                       {| cfg_name := Some (lit "file"); cfg_params := None |}];
     tc_extra := [] |}.

End LogLife.

(** ** What the sinks of the log variant leave in a report *)

Module SinkViews.
Import DbAnalyzer LogExecutor.

(** The sinks that saved [result] and returned a non-empty path, with
    that path, in order. *)
Definition saved (sinks : list Sink) (result : str) : list (Sink * str) :=
  omap (λ sink,
          match save sink result with
          | Ok (Some result_path) =>
            if LogAnalyzer.is_empty result_path then None else Some (sink, result_path)
          | _ => None
          end) sinks.

(** The test [_run_task] applies before it records a path as the
    object-storage path. *)
Definition looks_like_minio (saved_path : Sink * str) : bool :=
  contains (lit "minio") (lower (type_name saved_path.1)) || contains (lit "/") saved_path.2.

End SinkViews.

(** ** Views of the aggregating source *)

Module MultiSourceViews.
Import MultiSource.

(** A sub-source from which nothing is collected: its [collect] raises,
    or returns an empty string, chunks that are all empty, or a value
    that is neither a string nor iterable. *)
Definition contributes_nothing (src : Source) : bool :=
  match collect src with
  | Ok (RStr s) => negb (truthy s)
  | Ok (RIter chunks _) => forallb (λ chunk, negb (truthy chunk)) chunks
  | Ok ROther => true
  | Raise _ => true
  end.

(** A clock that never goes back, as text. *)
Definition never_goes_back (now : nat → str) : Prop :=
  ∀ i j, i ≤ j → str_ltb (now j) (now i) = false.

(** The n-th entry collected carries the n-th reading of the clock. *)
Definition stamped (now : nat → str) (all_logs : list entry) : Prop :=
  ∀ i e, all_logs !! i = Some e → timestamp_of e = now i.

(** A call chain entry without its ['from']. *)
Definition to_only : chain := <[lit "to" := lit "orders-db"]> ∅.

Definition three_sources_bad_chain : MultiSource :=
  {| source_instances := [web; gateway; orders_db]; call_chain := [web_to_db; to_only] |}.

(** Sub-sources that all fail or stay silent. *)
Definition silent : Source :=
  {| label := Some (lit "silent"); collect := Ok (RIter [[]; []] None) |}.

Definition all_down : MultiSource :=
  {| source_instances := [gateway; silent; gateway]; call_chain := [to_only] |}.

End MultiSourceViews.

(** ** Dotted look-up in the configuration: [Config.get] *)

Module ConfigGet.

#[local] Set Warnings "-register-all".

(** A value loaded from the YAML file. A mapping is kept as its entries
    with string keys, each key once; [get] is only ever asked for string
    keys, which no key of another type equals. *)
Inductive yaml :=
  | YNull
  | YBool (b : bool)
  | YInt (z : Z)
  | YStr (s : str)
  | YSeq (items : list yaml)
  | YMap (entries : list (str * yaml)).

Definition DOT : char := 46%N.

(** [d.get(k)] *)
Fixpoint dict_get (k : str) (entries : list (str * yaml)) : option yaml :=
  match entries with
  | [] => None
  | (k', v) :: rest => if str_eqb k' k then Some v else dict_get k rest
  end.

(** The loop over the keys: [None] stands for [return default]. *)
Fixpoint walk (keys : list str) (value : yaml) : option yaml :=
  match keys with
  | [] => Some value
  | k :: rest =>
    match value with
    | YMap entries =>
      match dict_get k entries with
      | None | Some YNull => None
      | Some v => walk rest v
      end
    | _ => None
    end
  end.

(** [Config.get(key, default)] on the loaded configuration. *)
Definition get (_config : yaml) (key : str) (default : yaml) : yaml :=
  match walk (split DOT key) _config with
  | Some value => value
  | None => default
  end.

(** A configuration with a server section. *)
Definition sample : yaml :=
  YMap [(lit "server", YMap [(lit "host", YStr (lit "0.0.0.0")); (lit "port", YInt 0);
                             (lit "tls", YNull)]);
        (lit "tasks", YSeq [])].

End ConfigGet.

(** ** Listing the reports: [TaskExecutor.list_reports] (log variant) *)

Module LogReports.
Import DbAnalyzer LogExecutor.

(** An element of the list returned. *)
Record listed := {
  l_id : str;
  l_run_id : Z;
  l_container_name : str;
  l_task_name : str;
  l_created_at : str;
  l_timestamp : str;
  l_minio_path : option str;
}.

Definition summary (report : report) : listed :=
  {| l_id := r_id report; l_run_id := r_run_id report;
     l_container_name := r_container_name report; l_task_name := r_task_name report;
     l_created_at := r_created_at report; l_timestamp := r_timestamp report;
     l_minio_path := r_minio_path report |}.

(** An optional argument that is given and not empty. *)
Definition given (arg : option str) : option str :=
  match arg with
  | Some s => if LogAnalyzer.is_empty s then None else Some s
  | None => None
  end.

(** [reports.sort(key=lambda x: x.get('created_at', ''), reverse=True)]:
    newest first, entries of equal time in their former order. *)
Fixpoint insert_newest_first (e : listed) (sorted : list listed) : list listed :=
  match sorted with
  | [] => [e]
  | x :: rest =>
    if str_ltb (l_created_at e) (l_created_at x) then x :: insert_newest_first e rest
    else e :: x :: rest
  end.

Definition sort_newest_first (reports : list listed) : list listed :=
  foldr insert_newest_first [] reports.

Section WithUnicode.

(** [str.isdigit] follows the Unicode tables; for code points beyond
    ASCII they are left to the environment. *)
Variable unicode_isdigit : char → bool.

Definition isdigit_char (c : char) : bool :=
  if (c <? 128)%N then (48 <=? c)%N && (c <=? 57)%N else unicode_isdigit c.

(** [key.isdigit()] *)
Definition isdigit (s : str) : bool :=
  negb (LogAnalyzer.is_empty s) && forallb isdigit_char s.

(** The body of the loop over [self.reports.items()]: whether the entry
    is passed over ([continue]). *)
Definition passed_over (container_name start_time end_time : option str)
    (key : str) (report : report) : bool :=
  if isdigit key then true
  else if match given container_name with
          | Some c => negb (str_eqb (r_container_name report) c)
          | None => false
          end then true
  else if match given start_time with
          | Some t => str_ltb (r_created_at report) t
          | None => false
          end then true
  else if match given end_time with
          | Some t => str_ltb t (r_created_at report)
          | None => false
          end then true
  else false.

Fixpoint gather (container_name start_time end_time : option str)
    (items : list (str * report)) (reports : list listed) : list listed :=
  match items with
  | [] => reports
  | (key, report) :: rest =>
    if passed_over container_name start_time end_time key report
    then gather container_name start_time end_time rest reports
    else gather container_name start_time end_time rest (reports ++ [summary report])
  end.

(** [list_reports]; [items] is [self.reports.items()], the entries of
    the registry in the order they were first recorded. *)
Definition list_reports (items : list (str * report))
    (container_name start_time end_time : option str) (limit : option Z) : list listed :=
  let reports := sort_newest_first (gather container_name start_time end_time items []) in
  match limit with
  | Some n => if (0 <? n)%Z then take (Z.to_nat n) reports else reports
  | None => reports
  end.

End WithUnicode.

(** Newest first. *)
Definition not_older (a b : listed) : Prop :=
  str_ltb (l_created_at a) (l_created_at b) = false.

(** Two runs of the same container, each recorded under its key and
    under its run id. *)
Definition first_report : report :=
  {| r_id := lit "20260101_120000_web"; r_run_id := 1; r_task_name := lit "container_logs";
     r_container_name := lit "web"; r_content := lit "report one";
     r_file_path := None; r_minio_path := None;
     r_created_at := lit "2026-01-01T12:00:01"; r_timestamp := lit "20260101_120000" |}.

Definition second_report : report :=
  {| r_id := lit "20260101_130000_web"; r_run_id := 2; r_task_name := lit "container_logs";
     r_container_name := lit "web"; r_content := lit "report two";
     r_file_path := None; r_minio_path := None;
     r_created_at := lit "2026-01-01T13:00:01"; r_timestamp := lit "20260101_130000" |}.

Definition two_runs : list (str * report) :=
  [(lit "20260101_120000_web", first_report); (lit "1", first_report);
   (lit "20260101_130000_web", second_report); (lit "2", second_report)].

Definition ascii_only (c : char) : bool := false.

End LogReports.

(** ** The file sink of the database variant: the path it writes to
    [db_ops_analyzer.plugins.sinks.file] *)

Module DbFileSink.

(** [s.replace(old, new)] for a non-empty [old]: occurrences are found
    from the left and do not overlap. [skip] counts the characters of an
    occurrence still to be passed over. *)
Fixpoint replace_go (old new : str) (skip : nat) (s : str) : str :=
  match s with
  | [] => []
  | c :: s' =>
    match skip with
    | S k => replace_go old new k s'
    | O =>
      if startswith old s then new ++ replace_go old new (length old - 1) s'
      else c :: replace_go old new 0 s'
    end
  end.

Definition replace (old new s : str) : str := replace_go old new 0 s.

Definition PLACEHOLDER : str := lit "{timestamp}".

Record FileSink := { output_path_template : str }.

(** The default value of [output_path] in [__init__]. *)
Definition DEFAULT_TEMPLATE : str := lit "reports/db_analysis_{{timestamp}}.md".

(** The first lines of [save]: the path the result is written to. [now]
    is [datetime.now().strftime('%Y%m%d_%H%M%S')]; [metadata_timestamp]
    is [metadata['timestamp']] when [metadata] has that key. *)
Definition output_path (self : FileSink) (now : str) (metadata_timestamp : option str) : str :=
  let output_path := output_path_template self in
  let output_path :=
    if contains PLACEHOLDER output_path then replace PLACEHOLDER now output_path
    else output_path in
  match metadata_timestamp with
  | Some timestamp => replace PLACEHOLDER timestamp output_path
  | None => output_path
  end.

(** The characters [strftime('%Y%m%d_%H%M%S')] produces. *)
Definition timestamp_char (c : char) : bool :=
  ((48 <=? c) && (c <=? 57) || (c =? 95))%N.

End DbFileSink.

(* ==================================================================== *)
(** * Theorems *)
(* ==================================================================== *)

(** ** Strings: [split] and [join] *)

Section StrFacts.

Lemma split_nonempty sep s : split sep s ≠ [].
Proof. destruct s as [|c s]; simpl; [done|]. destruct (c =? sep)%N; [done|]. by destruct (split sep s). Qed.

Lemma join_cons sep p q rest :
  join sep (p :: q :: rest) = p ++ sep ++ join sep (q :: rest).
Proof. reflexivity. Qed.

Lemma join_split sep s : join [sep] (split sep s) = s.
Proof.
  induction s as [|c s IH]; [done|]. simpl split.
  destruct (N.eqb_spec c sep) as [->|Hne].
  - pose proof (split_nonempty sep s) as Hs.
    destruct (split sep s) as [|p ps] eqn:E; [done|].
    by rewrite join_cons, IH.
  - pose proof (split_nonempty sep s) as Hs.
    destruct (split sep s) as [|p ps] eqn:E; [done|].
    destruct ps as [|q ps]; [simpl in *; by subst|].
    rewrite join_cons in *. by rewrite <- IH.
Qed.

Lemma split_no_sep sep s : Forall (λ p, count sep p = 0) (split sep s).
Proof.
  induction s as [|c s IH]; simpl; [by repeat constructor|].
  destruct (N.eqb_spec c sep) as [->|Hne].
  - by constructor.
  - destruct (split sep s) as [|p ps]; [|inversion IH; subst].
    + repeat constructor. simpl. by destruct (N.eqb_spec c sep).
    + constructor; [|done]. simpl. destruct (N.eqb_spec c sep); [done|]. done.
Qed.

Lemma count_app c a b : count c (a ++ b) = count c a + count c b.
Proof. induction a as [|x a IH]; simpl; [done|]. rewrite IH. lia. Qed.

Lemma utf8_len_app a b : utf8_len (a ++ b) = (utf8_len a + utf8_len b)%Z.
Proof. induction a as [|x a IH]; simpl; [done|]. rewrite IH. lia. Qed.

Lemma join_app sep (g rest : list str) :
  g ≠ [] → rest ≠ [] →
  join sep (g ++ rest) = join sep g ++ sep ++ join sep rest.
Proof.
  intros Hg Hrest. induction g as [|l g IH]; [done|].
  destruct g as [|l' g].
  - destruct rest; [done|]. done.
  - change ((l :: l' :: g) ++ rest) with (l :: l' :: g ++ rest).
    rewrite !join_cons. change (l' :: g ++ rest) with ((l' :: g) ++ rest).
    rewrite IH by done. by rewrite <- !app_assoc.
Qed.

(** Joining groups of lines and then the joined groups is joining all
    the lines, as long as no group is empty. *)
Lemma join_concat sep (groups : list (list str)) :
  Forall (λ g, g ≠ []) groups →
  join sep (map (join sep) groups) = join sep (concat groups).
Proof.
  induction groups as [|g gs IH]; intros Hne; [done|].
  inversion Hne as [|? ? Hg Hgs]; subst. specialize (IH Hgs).
  destruct gs as [|g' gs].
  - simpl. by rewrite app_nil_r.
  - change (map (join sep) (g :: g' :: gs))
      with (join sep g :: map (join sep) (g' :: gs)).
    change (concat (g :: g' :: gs)) with (g ++ concat (g' :: gs)).
    assert (Hc : concat (g' :: gs) ≠ []).
    { inversion Hgs; subst. simpl. by destruct g'. }
    rewrite join_app by done. rewrite <- IH.
    change (map (join sep) (g' :: gs)) with (join sep g' :: map (join sep) gs).
    by rewrite join_cons.
Qed.

End StrFacts.

(** ** The chunker *)

Module ChunkerFacts.
Import Chunker.

Lemma encode_char_ok c :
  encodable c = true →
  ∃ bs, encode_char c = Ok bs ∧ Z.of_nat (length bs) = utf8_size c.
Proof.
  unfold encodable, encode_char, utf8_size. intros [Hs Hr]%andb_prop.
  apply negb_true_iff in Hs. rewrite Hs, Hr.
  repeat (case_match; [eexists; split; [reflexivity|reflexivity]|]).
  eexists; split; reflexivity.
Qed.

Lemma utf8_encode_ok s :
  all_encodable s →
  ∃ bs, utf8_encode s = Ok bs ∧ Z.of_nat (length bs) = utf8_len s.
Proof.
  induction 1 as [|c s Hc _ (bs & Hbs & Hlen)]; [by exists []|].
  destruct (encode_char_ok c Hc) as (b & Hb & Hl).
  exists (b ++ bs). simpl. rewrite Hb. simpl. rewrite Hbs. simpl.
  split; [done|]. rewrite length_app. lia.
Qed.

Lemma line_size_ok line :
  all_encodable line → line_size line = Ok (utf8_len line).
Proof.
  intros (bs & Hbs & Hlen)%utf8_encode_ok. unfold line_size.
  rewrite Hbs. simpl. by rewrite Hlen.
Qed.

Lemma split_encodable sep s :
  all_encodable s → Forall all_encodable (split sep s).
Proof.
  induction 1 as [|c s Hc Hs IH]; simpl; [by repeat constructor|].
  destruct (c =? sep)%N; [by repeat constructor|].
  destruct (split sep s) as [|p ps]; [by repeat constructor|].
  inversion IH; subst. constructor; [by constructor|done].
Qed.

Lemma sum_sizes_app g h : sum_sizes (g ++ h) = (sum_sizes g + sum_sizes h)%Z.
Proof. induction g as [|l g IH]; simpl; [done|]. rewrite IH. lia. Qed.

Lemma utf8_len_nonneg s : (0 ≤ utf8_len s)%Z.
Proof.
  induction s as [|c s IH]; simpl; [done|].
  unfold utf8_size. repeat case_match; lia.
Qed.

(** Bytes and line feeds of a joined group. *)
Lemma utf8_len_join g :
  g ≠ [] → utf8_len (join [NL] g) = (sum_sizes g + Z.of_nat (length g) - 1)%Z.
Proof.
  induction g as [|l g IH]; [done|]. intros _. destruct g as [|l' g].
  - simpl. lia.
  - rewrite join_cons, !utf8_len_app, IH by done.
    change (utf8_len [NL]) with 1%Z. simpl sum_sizes. simpl length. lia.
Qed.

Lemma count_join g :
  g ≠ [] → Forall (λ l, count NL l = 0) g →
  count NL (join [NL] g) = length g - 1.
Proof.
  induction g as [|l g IH]; [done|]. intros _ Hg.
  inversion Hg as [|? ? Hl Hg']; subst. destruct g as [|l' g].
  - simpl. lia.
  - rewrite join_cons, !count_app, IH, Hl by done. simpl. lia.
Qed.

(** The loop invariant: the chunks closed so far are the joins of
    groups of lines, and every group (closed or current) either is a
    single line or stays within [chunk_size]. *)
Lemma chunk_loop_spec chunk_size lines :
  ∀ groups cur,
    Forall all_encodable lines →
    Forall (λ g, g ≠ []) groups →
    Forall (group_ok chunk_size) groups →
    cur = [] ∨ group_ok chunk_size cur →
    ∃ groups',
      chunk_loop chunk_size lines (map (join [NL]) groups) cur (sum_sizes cur)
        = Ok (map (join [NL]) groups')
      ∧ concat groups' = concat groups ++ cur ++ lines
      ∧ Forall (λ g, g ≠ []) groups'
      ∧ Forall (group_ok chunk_size) groups'.
Proof.
  induction lines as [|line rest IH]; intros groups cur Henc Hne Hok Hcur.
  - simpl. destruct cur as [|l cur].
    + exists groups. by rewrite !app_nil_r.
    + exists (groups ++ [l :: cur]). simpl nonempty. cbv iota.
      rewrite map_app, concat_app. simpl. rewrite !app_nil_r.
      split_and!; [done|done| |].
      * apply Forall_app; split; [done|]. by repeat constructor.
      * apply Forall_app; split; [done|]. constructor; [|done].
        by destruct Hcur.
  - inversion Henc as [|? ? Hline Hrest]; subst.
    simpl. rewrite (line_size_ok _ Hline). simpl.
    destruct ((sum_sizes cur + utf8_len line >? chunk_size)%Z && nonempty cur) eqn:Hif.
    + apply andb_prop in Hif as [Hgt Hcne].
      destruct cur as [|l cur]; [done|].
      destruct (IH (groups ++ [l :: cur]) [line]) as (groups' & Hrun & Hcat & Hne' & Hok').
      * done.
      * apply Forall_app; split; [done|]. by repeat constructor.
      * apply Forall_app; split; [done|]. constructor; [|done]. by destruct Hcur.
      * right. by left.
      * exists groups'. rewrite map_app in Hrun. simpl in Hrun.
        replace (utf8_len line + 0)%Z with (utf8_len line) in Hrun by lia.
        split; [exact Hrun|]. split; [|done].
        rewrite Hcat, concat_app. simpl. rewrite app_nil_r. by rewrite <- !app_assoc.
    + destruct (IH groups (cur ++ [line])) as (groups' & Hrun & Hcat & Hne' & Hok').
      * done.
      * done.
      * done.
      * right. destruct cur as [|l cur]; [by left|]. right.
        rewrite sum_sizes_app. simpl. simpl in Hif.
        rewrite andb_true_r, Z.gtb_ltb in Hif.
        apply Z.ltb_ge in Hif. lia.
      * exists groups'. rewrite sum_sizes_app in Hrun. simpl in Hrun.
        replace (utf8_len line + 0)%Z with (utf8_len line) in Hrun by lia.
        split; [exact Hrun|]. split; [|done].
        rewrite Hcat. by rewrite <- !app_assoc.
Qed.

(** C1 (as stated, refuted): with [chunk_size = 3] the text "ab", line
    feed, "c" stays in one chunk, because the loop adds up 2 + 1 bytes
    and does not count the line feed; the chunk has 4 bytes and two
    lines. *)
Lemma chunk_size_bound_counterexample :
  _chunk_logs 3 two_lines = Ok [two_lines]
  ∧ utf8_encode two_lines = Ok [97; 98; 10; 99]%N
  ∧ ¬ claimed_size_bound 3 two_lines.
Proof.
  split; [reflexivity|]. split; [reflexivity|].
  intros H. destruct (H [two_lines] two_lines) as [Hle|[Hc _]].
  - reflexivity.
  - by apply list_elem_of_singleton.
  - vm_compute in Hle. by apply Hle.
  - vm_compute in Hc. discriminate.
Qed.

(** C1 (amended): for every text that UTF-8 can encode and every chunk
    size, [_chunk_logs] returns chunks whose join with line feeds is the
    text, and every chunk either is a single line or has at most
    [chunk_size] bytes once its joining line feeds are left out. *)
Theorem chunk_logs_lossless_line_bounded (chunk_size : Z) (logs : str) :
  all_encodable logs →
  ∃ chunks,
    _chunk_logs chunk_size logs = Ok chunks
    ∧ join [NL] chunks = logs
    ∧ Forall (λ c, count NL c = 0
                   ∨ (utf8_len c - Z.of_nat (count NL c) ≤ chunk_size)%Z) chunks.
Proof.
  intros Henc. unfold _chunk_logs.
  destruct (chunk_loop_spec chunk_size (split NL logs) [] [])
    as (groups & Hrun & Hcat & Hne & Hok).
  { by apply split_encodable. }
  { constructor. }
  { constructor. }
  { by left. }
  simpl in Hrun, Hcat. exists (map (join [NL]) groups).
  split; [exact Hrun|]. split.
  - rewrite join_concat by done. rewrite Hcat. apply join_split.
  - pose proof (split_no_sep NL logs) as Hnl. rewrite <- Hcat in Hnl.
    clear Hrun Hcat. induction groups as [|g gs IH]; [constructor|].
    inversion Hne as [|? ? Hg Hgs]; inversion Hok as [|? ? Hgok Hgsok]; subst.
    simpl in Hnl. apply Forall_app in Hnl as [Hnlg Hnlgs].
    constructor; [|by apply IH].
    rewrite count_join, utf8_len_join by done.
    destruct Hgok as [Hone|Hsum]; [left; lia|right].
    destruct g; [done|]. simpl length. lia.
Qed.

Lemma chunk_logs_lossless_line_bounded_witness :
  all_encodable two_lines
  ∧ ∃ chunks,
      _chunk_logs 3 two_lines = Ok chunks
      ∧ join [NL] chunks = two_lines
      ∧ Forall (λ c, count NL c = 0
                     ∨ (utf8_len c - Z.of_nat (count NL c) ≤ 3)%Z) chunks.
Proof.
  assert (H : all_encodable two_lines) by (repeat constructor).
  split; [exact H|]. exact (chunk_logs_lossless_line_bounded 3 two_lines H).
Defined.

End ChunkerFacts.

(** ** The chunked log analyzer *)

Module LogAnalyzerFacts.
Import Chunker LogAnalyzer.

Lemma filter_loop_spec analyses valid :
  filter_loop analyses valid
  = valid ++ List.filter (λ a, negb (skipped a)) analyses.
Proof.
  revert valid. induction analyses as [|a rest IH]; intros valid; simpl.
  - by rewrite app_nil_r.
  - destruct (skipped a); simpl; rewrite IH; [done|]. by rewrite <- app_assoc.
Qed.

Lemma noise_filter_spec analyses :
  noise_filter analyses = List.filter (λ a, negb (skipped a)) analyses.
Proof. unfold noise_filter. by rewrite filter_loop_spec. Qed.

Lemma noise_filter_survivor analyses a :
  In a (noise_filter analyses) → skipped a = false.
Proof.
  rewrite noise_filter_spec. intros [_ H]%filter_In. by apply negb_true_iff.
Qed.

Lemma skipped_false a :
  skipped a = false →
  a ≠ [] ∧ strip a ≠ lit "<NONE>"
  ∧ contains (lit "未发现任何错误") a = false
  ∧ contains (lit "未发现错误") a = false
  ∧ contains (lit "无错误") a = false
  ∧ 50 ≤ length (strip a).
Proof.
  unfold skipped. intros H.
  destruct (is_empty a) eqn:He; [done|]. simpl in H.
  destruct (str_eqb (strip a) (lit "<NONE>")) eqn:Hn; [done|].
  destruct (contains (lit "未发现任何错误") a) eqn:H1; [done|].
  destruct (contains (lit "未发现错误") a) eqn:H2; [done|].
  destruct (contains (lit "无错误") a) eqn:H3; [done|]. simpl in H.
  destruct (length (strip a) <? 50) eqn:Hl; [done|].
  apply Nat.ltb_ge in Hl. split_and!; try done.
  - by destruct a.
  - intros Heq. rewrite Heq in Hn. vm_compute in Hn. discriminate.
Qed.

(** C7: the noise filter is idempotent; what it keeps is non-empty, is
    not the "<NONE>" sentinel after stripping, contains none of the
    no-errors phrases and has at least 50 characters after stripping. *)
Theorem noise_filter_idempotent (analyses : list str) :
  noise_filter (noise_filter analyses) = noise_filter analyses
  ∧ Forall (λ a, a ≠ [] ∧ strip a ≠ lit "<NONE>"
                 ∧ contains (lit "未发现任何错误") a = false
                 ∧ contains (lit "未发现错误") a = false
                 ∧ contains (lit "无错误") a = false
                 ∧ 50 ≤ length (strip a)) (noise_filter analyses).
Proof.
  split.
  - rewrite !noise_filter_spec.
    induction analyses as [|a rest IH]; [done|]. simpl.
    destruct (skipped a) eqn:Ha; simpl; [done|]. by rewrite Ha, IH.
  - apply List.Forall_forall. intros a Ha.
    by apply skipped_false, (noise_filter_survivor analyses).
Qed.

(** C10: on an input whose text is empty or only whitespace, [analyze]
    returns the fixed string at once: the trace of effects is unchanged
    (no request, no progress callback), whatever the mode, the endpoint
    and the schedule; no chunk is computed either, the result being
    returned before [_chunk_logs] is reached. *)
Theorem analyze_blank_input llm (self : LangGraphAnalyzer) (data : py_data)
    (sched : list nat) (w : world) :
  strip (log_text data) = [] →
  analyze llm self data sched w = Some (Ok (lit "未发现任何错误日志"), w).
Proof.
  intros H. unfold analyze, _analyze_async. by rewrite H.
Qed.

Lemma analyze_blank_input_witness :
  strip (log_text (DIter [lit "  "; lit " "])) = []
  ∧ analyze stub_llm (example_analyzer (lit "concurrent")) (DIter [lit "  "; lit " "]) [] []
    = Some (Ok (lit "未发现任何错误日志"), []).
Proof.
  split; [reflexivity|]. apply analyze_blank_input. reflexivity.
Defined.

End LogAnalyzerFacts.

(** ** Concurrent analysis: every interleaving *)

Module ConcurrentFacts.
Import Chunker LogAnalyzer.

Section Invariant.

Variable llm : request → py_result (option str).
Variable self : LangGraphAnalyzer.
Variable chunks : list str.
Variable w : world.

Lemma count_by_insert f (l : list tstate) i old new :
  l !! i = Some old →
  count_by f (<[i := new]> l) + f old = count_by f l + f new.
Proof.
  unfold count_by. revert i. induction l as [|t l IH]; intros i Hi; [done|].
  destruct i as [|i]; simpl in *.
  - injection Hi as ->. lia.
  - specialize (IH i Hi). lia.
Qed.

Lemma count_by_lookup_le f (l : list tstate) i t :
  l !! i = Some t → f t ≤ count_by f l.
Proof.
  unfold count_by. revert i. induction l as [|x l IH]; intros i Hi; [done|].
  destruct i as [|i]; simpl in *.
  - injection Hi as ->. lia.
  - specialize (IH i Hi). lia.
Qed.

Lemma count_by_pos f (l : list tstate) :
  0 < count_by f l → ∃ i t, l !! i = Some t ∧ 0 < f t.
Proof.
  unfold count_by. induction l as [|x l IH]; simpl; [lia|]. intros H.
  destruct (f x) eqn:Hx.
  - destruct IH as (i & t & Hi & Ht); [lia|]. by exists (S i), t.
  - exists 0, x. split; [done|lia].
Qed.

Lemma counted_split (l : list tstate) :
  count_by counted l
  = count_by notified l + count_by (λ t, match t with Counted _ => 1 | _ => 0 end) l.
Proof.
  unfold count_by. induction l as [|t l IH]; simpl; [done|].
  destruct t; simpl; lia.
Qed.

Lemma just_counted_le_in_lock (l : list tstate) :
  count_by (λ t, match t with Counted _ => 1 | _ => 0 end) l ≤ count_by in_lock l.
Proof.
  unfold count_by. induction l as [|t l IH]; simpl; [done|].
  destruct t; simpl; lia.
Qed.

Lemma reported_app w1 w2 : reported (w1 ++ w2) = reported w1 ++ reported w2.
Proof. unfold reported. apply omap_app. Qed.

Lemma reported_notify total processed w0 :
  reported (notify self total processed w0)
  = reported w0 ++ (if notifying self then [processed] else []).
Proof.
  unfold notify, notifying. destruct (run_id self) as [r|]; [|by rewrite app_nil_r].
  destruct (progress_callback self && negb (r =? 0)%Z); [|by rewrite app_nil_r].
  by rewrite reported_app.
Qed.

Lemma count_events_app p w1 w2 :
  count_events p (w1 ++ w2) = count_events p w1 + count_events p w2.
Proof. unfold count_events. by rewrite List.filter_app, length_app. Qed.

Lemma count_events_notify p total processed w0 :
  p (Progress 0 0 0) = false → (∀ r t q, p (Progress r t q) = p (Progress 0 0 0)) →
  count_events p (notify self total processed w0) = count_events p w0.
Proof.
  intros Hp Hall. unfold notify. destruct (run_id self) as [r|]; [|done].
  destruct (progress_callback self && negb (r =? 0)%Z); [|done].
  rewrite count_events_app. unfold count_events at 2. simpl.
  rewrite Hall, Hp. simpl. lia.
Qed.

(** What holds in every state a schedule can reach. *)
Record inv (s : cstate) : Prop := {
  inv_len : length (tasks s) = length chunks;
  inv_sem : permits s + count_by in_flight (tasks s) = Z.to_nat (concurrency self);
  inv_lock : count_by in_lock (tasks s) = if lock s then 1 else 0;
  inv_count : processed_count s = count_by counted (tasks s);
  inv_rep : reported (trace s)
            = reported w ++ (if notifying self
                             then seq 1 (count_by notified (tasks s)) else []);
  inv_res : ∀ i t r, tasks s !! i = Some t → result_of t = Some r →
            ∃ chunk, chunks !! i = Some chunk ∧ r = _analyze_chunk llm self i chunk;
  inv_summary : count_events is_summary_call (trace s) = count_events is_summary_call w;
  inv_calls : count_events is_chunk_call (trace s)
              = count_events is_chunk_call w + count_by started (tasks s);
}.

Lemma count_by_waiting f (l : list str) :
  f Waiting = 0 → count_by f (map (λ _, Waiting) l) = 0.
Proof. intros Hf. unfold count_by. induction l; simpl; [done|]. by rewrite Hf. Qed.

Lemma inv_init : inv (cinit self chunks w).
Proof.
  split; simpl; rewrite ?count_by_waiting by done.
  - apply length_map.
  - lia.
  - done.
  - done.
  - destruct (notifying self); by rewrite app_nil_r.
  - intros i t r Hi Hr. apply list_lookup_fmap_Some in Hi as (? & -> & ?). done.
  - done.
  - lia.
Qed.

Lemma inv_res_insert (s : cstate) i new :
  inv s →
  (∀ r, result_of new = Some r →
        ∃ chunk, chunks !! i = Some chunk ∧ r = _analyze_chunk llm self i chunk) →
  ∀ j t r, <[i := new]> (tasks s) !! j = Some t → result_of t = Some r →
           ∃ chunk, chunks !! j = Some chunk ∧ r = _analyze_chunk llm self j chunk.
Proof.
  intros Hinv Hnew j t r Hj Hr. destruct (decide (i = j)) as [->|Hne].
  - apply list_lookup_insert_Some in Hj as [(_ & <- & _)|(? & _)]; [|done]. by apply Hnew.
  - rewrite list_lookup_insert_ne in Hj by done. by apply (inv_res s Hinv j t).
Qed.

Lemma inv_step i s s' :
  inv s → cstep llm self chunks i s = Some s' → inv s'.
Proof.
  intros Hinv Hstep. unfold cstep in Hstep.
  destruct (tasks s !! i) as [t|] eqn:Hi; [|done].
  pose proof (count_by_insert in_flight (tasks s) i t) as Hfl.
  pose proof (count_by_insert in_lock (tasks s) i t) as Hlk.
  pose proof (count_by_insert counted (tasks s) i t) as Hct.
  pose proof (count_by_insert notified (tasks s) i t) as Hnt.
  pose proof (count_by_insert started (tasks s) i t) as Hst.
  pose proof (inv_res s Hinv i t) as Hres.
  pose proof (inv_res_insert s i) as Hins.
  pose proof Hinv as [Hlen Hsem Hlock Hcount Hrep _ Hsum Hcalls].
  pose proof (counted_split (tasks s)) as Hsplit.
  pose proof (just_counted_le_in_lock (tasks s)) as Hjc.
  pose proof (count_by_lookup_le (λ t, match t with Counted _ => 1 | _ => 0 end) (tasks s) i t Hi) as Hjc1.
  destruct t as [| |r|r|r|r|r|r].
  - (* Waiting *)
    destruct (chunks !! i) as [chunk|] eqn:Hc; [|done].
    destruct (permits s) as [|n] eqn:Hp; [done|]. injection Hstep as <-.
    specialize (Hfl Calling Hi). specialize (Hlk Calling Hi).
    specialize (Hct Calling Hi). specialize (Hnt Calling Hi).
    specialize (Hst Calling Hi). simpl in *.
    split; simpl.
    + by rewrite length_insert.
    + lia.
    + destruct (lock s); lia.
    + lia.
    + rewrite reported_app. simpl. rewrite app_nil_r.
      replace (count_by notified (<[i:=Calling]> (tasks s))) with (count_by notified (tasks s)) by lia.
      done.
    + apply Hins; done.
    + rewrite count_events_app. unfold count_events at 2. simpl. lia.
    + rewrite count_events_app. unfold count_events at 2. simpl. lia.
  - (* Calling *)
    destruct (chunks !! i) as [chunk|] eqn:Hc; [|done]. injection Hstep as <-.
    set (new := GotResult (_analyze_chunk llm self i chunk)).
    specialize (Hfl new Hi). specialize (Hlk new Hi).
    specialize (Hct new Hi). specialize (Hnt new Hi).
    specialize (Hst new Hi). simpl in *.
    split; simpl.
    + by rewrite length_insert.
    + lia.
    + destruct (lock s); lia.
    + lia.
    + replace (count_by notified (<[i:=new]> (tasks s))) with (count_by notified (tasks s)) by lia.
      done.
    + apply Hins; [done|]. intros r [= <-]. by exists chunk.
    + done.
    + lia.
  - (* GotResult *)
    destruct (lock s) eqn:Hl; [done|]. injection Hstep as <-.
    specialize (Hfl (InLock r) Hi). specialize (Hlk (InLock r) Hi).
    specialize (Hct (InLock r) Hi). specialize (Hnt (InLock r) Hi).
    specialize (Hst (InLock r) Hi). simpl in *.
    split; simpl.
    + by rewrite length_insert.
    + lia.
    + lia.
    + lia.
    + replace (count_by notified (<[i:=InLock r]> (tasks s))) with (count_by notified (tasks s)) by lia.
      done.
    + apply Hins; [done|]. intros r' [= <-]. by apply Hres.
    + done.
    + lia.
  - (* InLock *)
    injection Hstep as <-.
    specialize (Hfl (Counted r) Hi). specialize (Hlk (Counted r) Hi).
    specialize (Hct (Counted r) Hi). specialize (Hnt (Counted r) Hi).
    specialize (Hst (Counted r) Hi). simpl in *.
    split; simpl.
    + by rewrite length_insert.
    + lia.
    + destruct (lock s); lia.
    + lia.
    + replace (count_by notified (<[i:=Counted r]> (tasks s))) with (count_by notified (tasks s)) by lia.
      done.
    + apply Hins; [done|]. intros r' [= <-]. by apply Hres.
    + done.
    + lia.
  - (* Counted *)
    injection Hstep as <-.
    specialize (Hfl (Notified r) Hi). specialize (Hlk (Notified r) Hi).
    specialize (Hct (Notified r) Hi). specialize (Hnt (Notified r) Hi).
    specialize (Hst (Notified r) Hi). simpl in *.
    split; simpl.
    + by rewrite length_insert.
    + lia.
    + destruct (lock s); lia.
    + lia.
    + rewrite reported_notify, Hrep. destruct (notifying self); [|by rewrite app_nil_r].
      replace (count_by notified (<[i:=Notified r]> (tasks s)))
        with (S (count_by notified (tasks s))) by lia.
      rewrite seq_S, <- app_assoc. do 3 f_equal.
      destruct (lock s); lia.
    + apply Hins; [done|]. intros r' [= <-]. by apply Hres.
    + by rewrite count_events_notify.
    + rewrite count_events_notify by done. lia.
  - (* Notified *)
    injection Hstep as <-.
    specialize (Hfl (Unlocked r) Hi). specialize (Hlk (Unlocked r) Hi).
    specialize (Hct (Unlocked r) Hi). specialize (Hnt (Unlocked r) Hi).
    specialize (Hst (Unlocked r) Hi). simpl in *.
    split; simpl.
    + by rewrite length_insert.
    + lia.
    + destruct (lock s); lia.
    + lia.
    + replace (count_by notified (<[i:=Unlocked r]> (tasks s))) with (count_by notified (tasks s)) by lia.
      done.
    + apply Hins; [done|]. intros r' [= <-]. by apply Hres.
    + done.
    + lia.
  - (* Unlocked *)
    injection Hstep as <-.
    specialize (Hfl (Done r) Hi). specialize (Hlk (Done r) Hi).
    specialize (Hct (Done r) Hi). specialize (Hnt (Done r) Hi).
    specialize (Hst (Done r) Hi). simpl in *.
    split; simpl.
    + by rewrite length_insert.
    + lia.
    + destruct (lock s); lia.
    + lia.
    + replace (count_by notified (<[i:=Done r]> (tasks s))) with (count_by notified (tasks s)) by lia.
      done.
    + apply Hins; [done|]. intros r' [= <-]. by apply Hres.
    + done.
    + lia.
  - done.
Qed.

Lemma inv_run sched : ∀ s s',
  inv s → run_schedule llm self chunks sched s = Some s' → inv s'.
Proof.
  induction sched as [|i rest IH]; intros s s' Hinv Hrun; simpl in Hrun.
  - by injection Hrun as <-.
  - destruct (cstep llm self chunks i s) as [s1|] eqn:Hstep; [|done].
    eapply IH; [|done]. by eapply inv_step.
Qed.


Lemma gather_Some ts rs : gather ts = Some rs → ts = map Done rs.
Proof.
  revert rs. induction ts as [|t ts IH]; intros rs H; simpl in H.
  - by injection H as <-.
  - destruct t; try done. destruct (gather ts) as [rs'|]; [|done].
    injection H as <-. simpl. by rewrite (IH rs').
Qed.

Lemma gather_None ts : gather ts = None → 0 < count_by remaining ts.
Proof.
  unfold count_by. induction ts as [|t ts IH]; simpl; [done|].
  destruct t; simpl; try lia. destruct (gather ts); [done|]. intros _. by apply IH.
Qed.

Lemma count_by_done f rs : f (Done []) = 1 → (∀ r, f (Done r) = f (Done [])) →
  count_by f (map Done rs) = length rs.
Proof.
  intros H1 Hall. unfold count_by. induction rs as [|r rs IH]; simpl; [done|].
  by rewrite Hall, H1, IH.
Qed.

Lemma gather_results s rs :
  inv s → gather (tasks s) = Some rs → rs = imap (_analyze_chunk llm self) chunks.
Proof.
  intros Hinv Hg. apply gather_Some in Hg.
  pose proof (inv_len s Hinv) as Hlen. rewrite Hg, length_map in Hlen.
  apply list_eq. intros i. rewrite list_lookup_imap.
  destruct (rs !! i) as [r|] eqn:Hr.
  - destruct (inv_res s Hinv i (Done r) r) as (chunk & Hc & ->); [|done|].
    + by rewrite Hg, list_lookup_fmap, Hr.
    + by rewrite Hc.
  - apply lookup_ge_None in Hr. rewrite Hlen in Hr.
    apply lookup_ge_None in Hr. by rewrite Hr.
Qed.

Lemma step_remaining i s s' :
  cstep llm self chunks i s = Some s' →
  count_by remaining (tasks s') + 1 = count_by remaining (tasks s).
Proof.
  unfold cstep. intros Hstep.
  destruct (tasks s !! i) as [t|] eqn:Hi; [|done].
  pose proof (count_by_insert remaining (tasks s) i t) as Hr.
  destruct t as [| |r|r|r|r|r|r]; try done;
    repeat match type of Hstep with
    | match ?x with _ => _ end = _ => destruct x eqn:?; try done
    end;
    injection Hstep as <-; simpl;
    match goal with
    | |- context [<[i := ?new]> _] => specialize (Hr new Hi); simpl in Hr; lia
    end.
Qed.

Lemma progress s :
  inv s → (1 ≤ concurrency self)%Z → gather (tasks s) = None →
  ∃ i s', cstep llm self chunks i s = Some s'.
Proof.
  intros Hinv HC Hg.
  assert (Hchunk : ∀ i t, tasks s !! i = Some t → is_Some (chunks !! i)).
  { intros i t Hi. apply lookup_lt_is_Some. rewrite <- (inv_len s Hinv).
    by eapply lookup_lt_Some. }
  assert (Hholder : lock s = true → ∃ i s', cstep llm self chunks i s = Some s').
  { intros Hl. pose proof (inv_lock s Hinv) as Hlock. rewrite Hl in Hlock.
    destruct (count_by_pos in_lock (tasks s)) as (j & t & Hj & Ht); [lia|].
    exists j. unfold cstep. rewrite Hj.
    destruct t; simpl in Ht; try lia; eauto. }
  destruct (Nat.eq_dec (count_by in_flight (tasks s)) 0) as [Hz|Hnz].
  - apply gather_None in Hg.
    destruct (count_by_pos remaining (tasks s) Hg) as (i & t & Hi & Ht).
    pose proof (count_by_lookup_le in_flight (tasks s) i t Hi) as Hle.
    destruct (Hchunk i t Hi) as [chunk Hc].
    pose proof (inv_sem s Hinv) as Hsem.
    exists i. unfold cstep. rewrite Hi, Hc.
    destruct t; simpl in *; try lia.
    destruct (permits s); [lia|]. eauto.
  - destruct (count_by_pos in_flight (tasks s)) as (i & t & Hi & Ht); [lia|].
    destruct (Hchunk i t Hi) as [chunk Hc].
    destruct t; simpl in Ht; try lia.
    + exists i. unfold cstep. rewrite Hi, Hc. eauto.
    + destruct (lock s) eqn:Hl; [by apply Hholder|].
      exists i. unfold cstep. rewrite Hi, Hl. destruct (chunks !! i); eauto.
    + exists i. unfold cstep. rewrite Hi. destruct (chunks !! i); eauto.
    + exists i. unfold cstep. rewrite Hi. destruct (chunks !! i); eauto.
    + exists i. unfold cstep. rewrite Hi. destruct (chunks !! i); eauto.
    + exists i. unfold cstep. rewrite Hi. destruct (chunks !! i); eauto.
Qed.

(** No deadlock: with a positive bound, every reachable state can be
    run to the end. *)
Lemma can_finish s :
  inv s → (1 ≤ concurrency self)%Z →
  ∃ sched s', run_schedule llm self chunks sched s = Some s'
              ∧ is_Some (gather (tasks s')).
Proof.
  intros Hinv HC. remember (count_by remaining (tasks s)) as n eqn:Hn.
  revert s Hinv Hn. induction n as [n IH] using lt_wf_ind. intros s Hinv Hn.
  destruct (gather (tasks s)) as [rs|] eqn:Hg.
  - exists [], s. simpl. rewrite Hg. eauto.
  - destruct (progress s Hinv HC Hg) as (i & s1 & Hstep).
    pose proof (step_remaining i s s1 Hstep) as Hrem.
    destruct (IH (count_by remaining (tasks s1))) with (s := s1)
      as (sched & s' & Hrun & Hdone); [lia|by eapply inv_step|done|].
    exists (i :: sched), s'. simpl. by rewrite Hstep.
Qed.

End Invariant.



End ConcurrentFacts.

(** ** The whole analysis *)

Module AnalyzeFacts.
Import Chunker LogAnalyzer ConcurrentFacts.

Section WithLLM.

Variable llm : request → py_result (option str).
Variable self : LangGraphAnalyzer.

Lemma count_events_snoc p (w : world) e :
  count_events p (w ++ [e]) = count_events p w + (if p e then 1 else 0).
Proof. rewrite count_events_app. unfold count_events at 2. simpl. by destruct (p e). Qed.

Lemma sequential_loop_calls total chunks : ∀ i analyses w analyses' w',
  sequential_loop llm self total i chunks analyses w = (analyses', w') →
  count_events is_summary_call w' = count_events is_summary_call w
  ∧ count_events is_chunk_call w' = count_events is_chunk_call w + length chunks.
Proof.
  induction chunks as [|chunk rest IH]; intros i analyses w analyses' w' H; simpl in H.
  - injection H as _ <-. split; [done|]. simpl. by rewrite Nat.add_0_r.
  - apply IH in H as [Hs Hc].
    rewrite !(count_events_notify self), !count_events_snoc in * by done.
    simpl in *. lia.
Qed.

(** The per-chunk phase issues one request per chunk and no synthesis
    request, in either mode. *)
Lemma analyse_chunks_calls chunks sched w analyses w2 :
  analyse_chunks llm self chunks sched w = Some (Ok analyses, w2) →
  count_events is_summary_call w2 = count_events is_summary_call w
  ∧ count_events is_chunk_call w2 = count_events is_chunk_call w + length chunks.
Proof.
  unfold analyse_chunks. destruct (str_eqb (mode self) (lit "concurrent")).
  - unfold _analyze_concurrent. destruct (concurrency self <? 0)%Z; [done|].
    destruct (run_schedule llm self chunks sched (cinit self chunks w)) as [s|] eqn:Hrun; [|done].
    destruct (gather (tasks s)) as [rs|] eqn:Hg; [|done]. intros [= <- <-].
    assert (Hinv : inv llm self chunks w s).
    { eapply inv_run; [apply inv_init|exact Hrun]. }
    split; [by apply (inv_summary _ _ _ _ _ Hinv)|].
    rewrite (inv_calls _ _ _ _ _ Hinv), <- (inv_len _ _ _ _ _ Hinv).
    rewrite (gather_Some _ _ Hg), length_map. by rewrite count_by_done.
  - unfold _analyze_sequential.
    destruct (sequential_loop llm self (length chunks) 0 chunks [] w) as [an w'] eqn:Hseq.
    intros [= <- <-]. by eapply sequential_loop_calls.
Qed.

End WithLLM.

(** C4: when the per-chunk phase has returned and exactly one of its
    results survives the noise filter, [analyze] returns that result;
    over the whole invocation no synthesis request is issued, and the
    requests issued are the per-chunk ones, one for each chunk. *)
Theorem analyze_single_survivor llm (self : LangGraphAnalyzer) (data : py_data)
    (sched : list nat) (w w2 : world) (chunks analyses : list str) (a : str) :
  strip (log_text data) ≠ [] →
  _chunk_logs (chunk_size self) (log_text data) = Ok chunks →
  analyse_chunks llm self chunks sched (notify self (length chunks) 0 w)
    = Some (Ok analyses, w2) →
  noise_filter analyses = [a] →
  ∃ w', analyze llm self data sched w = Some (Ok a, w')
        ∧ count_events is_summary_call w' = count_events is_summary_call w
        ∧ count_events is_chunk_call w' = count_events is_chunk_call w + length chunks.
Proof.
  intros Hne Hchunks Hphase Hone.
  exists (notify self (length chunks) (length chunks) w2).
  split.
  - unfold analyze, _analyze_async.
    destruct (strip (log_text data)) eqn:Hs; [done|]. simpl is_empty. cbv iota.
    by rewrite Hchunks, Hphase, Hone.
  - apply analyse_chunks_calls in Hphase as [Hs Hc].
    rewrite !(count_events_notify self) in * by done. done.
Qed.

Lemma analyze_single_survivor_witness :
  ∃ w', analyze last_chunk_llm (small_chunks (lit "concurrent")) three_line_log overtaking []
        = Some (Ok FINDING, w')
        ∧ count_events is_summary_call w' = 0
        ∧ count_events is_chunk_call w' = 3.
Proof.
  eapply (analyze_single_survivor last_chunk_llm (small_chunks (lit "concurrent"))
            three_line_log overtaking [] _ [forty; forty; forty] _ FINDING).
  - vm_compute. discriminate.
  - vm_compute. reflexivity.
  - vm_compute. reflexivity.
  - vm_compute. reflexivity.
Defined.

End AnalyzeFacts.

(** ** Substrings *)

Section ContainsFacts.

Lemma startswith_app p s : startswith p (p ++ s) = true.
Proof. induction p as [|c p IH]; simpl; [done|]. by rewrite N.eqb_refl. Qed.

Lemma contains_here p s : startswith p s = true → contains p s = true.
Proof. intros H. destruct s; simpl; by rewrite H. Qed.

Lemma contains_app_r sub p s : contains sub s = true → contains sub (p ++ s) = true.
Proof.
  intros H. induction p as [|c p IH]; [done|].
  simpl. rewrite IH. apply orb_true_r.
Qed.









End ContainsFacts.

(** ** The structured-data analyzer *)

Module DbAnalyzerFacts.
Import DbAnalyzer.

#[local] Opaque lit str_of_Z.






(** Which handler takes which failure: time-outs, connection errors
    and API errors (authentication among them) have a handler of their
    own; a malformed response ends in the last, general one. *)
Lemma handler_table :
  category_heading AsyncioTimeoutError = lit "数据库分析超时"
  ∧ category_heading HttpxTimeoutException = lit "LLM API请求超时"
  ∧ category_heading HttpxConnectError = lit "无法连接到LLM API服务"
  ∧ category_heading OpenAIAPIError = lit "LLM API错误"
  ∧ category_heading OpenAIAuthenticationError = lit "LLM API错误"
  ∧ category_heading IndexError = lit "数据库分析失败"
  ∧ category_heading AttributeError = lit "数据库分析失败"
  ∧ response_text [] = Raise (Exn IndexError (lit "list index out of range"))
  ∧ ∀ rest, response_text (None :: rest)
            = Raise (Exn AttributeError (lit "'NoneType' object has no attribute 'strip'")).
Proof. repeat split. Qed.



End DbAnalyzerFacts.

(** ** Configuration and unknown tasks *)

Module ConfigurationFacts.
Import DbAnalyzer Configuration.

Lemma str_eqb_eq a b : str_eqb a b = true ↔ a = b.
Proof.
  revert b. induction a as [|x a IH]; intros [|y b]; simpl; try done.
  rewrite andb_true_iff, N.eqb_eq, IH. split; [by intros [-> ->]|by intros [= -> ->]].
Qed.

Lemma find_task_none tasks name :
  (∀ t, t ∈ tasks → tc_name t ≠ Some name) → find_task tasks name = None.
Proof.
  induction tasks as [|t rest IH]; intros H; [done|]. simpl.
  assert (Hrest : find_task rest name = None).
  { apply IH. intros t' Ht'. apply H. by right. }
  destruct (tc_name t) as [n|] eqn:Hn; [|done].
  destruct (str_eqb n name) eqn:He; [|done].
  apply str_eqb_eq in He as ->. exfalso. apply (H t); [by left|done].
Qed.

End ConfigurationFacts.

Module ExecutorFacts.
Import DbAnalyzer Configuration ConfigurationFacts.

(** C9: called with no override for a task name that no configured task
    bears, [execute_task_async] raises the error "任务不存在: name" (a
    [ValueError]) and returns the executor as it was: the counter is not
    advanced and no run is recorded. This holds in the database variant
    and, for any [get_task] that finds nothing, in the log variant. *)
Theorem unknown_task_fails (name now : str) :
  (∀ st : DbExecutor.TaskExecutor,
     (∀ t, t ∈ tasks (DbExecutor.config st) → tc_name t ≠ Some name) →
     DbExecutor.execute_task_async name None now st
     = (Raise (Exn ValueError (lit "任务不存在: " ++ name)), st))
  ∧ (∀ (get_task : str → option task_config) container (st : LogExecutor.TaskExecutor),
       get_task name = None →
       LogExecutor.execute_task_async get_task name None container now st
       = (Raise (Exn ValueError (lit "任务不存在: " ++ name)), st)).
Proof.
  split.
  - intros st Hno. unfold DbExecutor.execute_task_async, get_task, get_tasks.
    by rewrite (find_task_none _ _ Hno).
  - intros get_task container st Hno. unfold LogExecutor.execute_task_async.
    by rewrite Hno.
Qed.

Lemma unknown_task_fails_witness :
  (∀ t, t ∈ tasks (DbExecutor.config DbExecutor.launched) → tc_name t ≠ Some (lit "weekly"))
  ∧ DbExecutor.execute_task_async (lit "weekly") None (lit "2026-01-01T12:00:05")
      DbExecutor.launched
    = (Raise (Exn ValueError (lit "任务不存在: " ++ lit "weekly")), DbExecutor.launched)
  ∧ LogExecutor.execute_task_async LogExecutor.no_tasks (lit "weekly") None None
      (lit "2026-01-01T12:00:05") LogExecutor.launched
    = (Raise (Exn ValueError (lit "任务不存在: " ++ lit "weekly")), LogExecutor.launched).
Proof.
  assert (H : ∀ t, t ∈ tasks (DbExecutor.config DbExecutor.launched)
                   → tc_name t ≠ Some (lit "weekly")).
  { intros t Ht. apply list_elem_of_singleton in Ht as ->.
    intros H. vm_compute in H. discriminate H. }
  split; [exact H|]. split.
  - exact (proj1 (unknown_task_fails (lit "weekly") (lit "2026-01-01T12:00:05"))
             DbExecutor.launched H).
  - exact (proj2 (unknown_task_fails (lit "weekly") (lit "2026-01-01T12:00:05"))
             LogExecutor.no_tasks None LogExecutor.launched eq_refl).
Defined.


Section DbRun.

Variable construct_source : str → list (str * scalar) → py_result DbExecutor.Source.
Variable construct_analyzer : list (str * scalar) → py_result LangGraphAnalyzer.
Variable construct_sink : list (str * scalar) → py_result DbExecutor.Sink.
Variable json_dumps : db_data → str.
Variable llm : str → llm_outcome.
Variable render_report : str → db_data → py_result str.

Abbreviation db_try_block :=
  (DbExecutor.try_block construct_source construct_analyzer construct_sink
     json_dumps llm render_report).
Abbreviation db_run_task :=
  (DbExecutor._run_task construct_source construct_analyzer construct_sink
     json_dumps llm render_report).







End DbRun.


Section LogRun.

Variable percent : nat → nat → Z.
Variable construct_source : str → list (str * scalar) → py_result LogExecutor.Source.
Variable construct_analyzer : list (str * scalar) → py_result LogAnalyzer.LangGraphAnalyzer.
Variable construct_sink : str → list (str * scalar) → py_result LogExecutor.Sink.
Variable run_analyze : LogAnalyzer.LangGraphAnalyzer → LogAnalyzer.py_data
                       → py_result str * LogAnalyzer.world.

Abbreviation log_try_block :=
  (LogExecutor.try_block percent construct_source construct_analyzer construct_sink
     run_analyze).
Abbreviation log_run_task :=
  (LogExecutor._run_task percent construct_source construct_analyzer construct_sink
     run_analyze).







End LogRun.




End ExecutorFacts.

(** ** Run ids under concurrent callers *)

Module RunIdsFacts.
Import RunIds.

Lemma pc_count_insert f (l : list pc) i old new :
  l !! i = Some old →
  count_by f (<[i := new]> l) + f old = count_by f l + f new.
Proof.
  unfold count_by. revert i. induction l as [|t l IH]; intros i Hi; [done|].
  destruct i as [|i]; simpl in *.
  - injection Hi as ->. lia.
  - specialize (IH i Hi). lia.
Qed.

Lemma pc_count_pos f (l : list pc) :
  0 < count_by f l → ∃ i t, l !! i = Some t ∧ 0 < f t.
Proof.
  unfold count_by. induction l as [|x l IH]; simpl; [lia|]. intros H.
  destruct (f x) eqn:Hx.
  - destruct IH as (i & t & Hi & Ht); [lia|]. by exists (S i), t.
  - exists 0, x. split; [done|lia].
Qed.

(** Two different positions count separately. *)
Lemma pc_count_two f (l : list pc) i j a b :
  l !! i = Some a → l !! j = Some b → i ≠ j → f a + f b ≤ count_by f l.
Proof.
  unfold count_by. revert i j. induction l as [|x l IH]; intros i j Hi Hj Hne; [done|].
  destruct i as [|i], j as [|j]; simpl in *; try done.
  - injection Hi as ->.
    assert (f b ≤ sum_list (map f l)); [|lia].
    clear -Hj. revert j Hj. induction l as [|y l IH]; intros j Hj; [done|].
    destruct j; simpl in *; [injection Hj as ->; lia|]. specialize (IH j Hj). lia.
  - injection Hj as ->.
    assert (f a ≤ sum_list (map f l)); [|lia].
    clear -Hi. revert i Hi. induction l as [|y l IH]; intros i Hi; [done|].
    destruct i; simpl in *; [injection Hi as ->; lia|]. specialize (IH i Hi). lia.
  - assert (i ≠ j) by congruence. specialize (IH i j Hi Hj). lia.
Qed.

Lemma ids_insert_same (l : list pc) i old new :
  l !! i = Some old → id_of old = id_of new → ids (<[i := new]> l) = ids l.
Proof.
  unfold ids. revert i. induction l as [|t l IH]; intros i Hi Hid; [done|].
  destruct i as [|i]; simpl in *.
  - injection Hi as ->. by rewrite Hid.
  - specialize (IH i Hi Hid). change (list_omap pc Z) with (@omap list _ pc Z). by rewrite IH.
Qed.

Lemma ids_insert_new (l : list pc) i old new r :
  l !! i = Some old → id_of old = None → id_of new = Some r →
  ids (<[i := new]> l) ≡ₚ r :: ids l.
Proof.
  unfold ids. revert i. induction l as [|t l IH]; intros i Hi Hold Hnew; [done|].
  destruct i as [|i]; simpl in *.
  - injection Hi as ->. by rewrite Hold, Hnew.
  - specialize (IH i Hi Hold Hnew).
    change (list_omap pc Z) with (@omap list _ pc Z).
    destruct (id_of t); [|done]. rewrite IH. apply Permutation_swap.
Qed.

Section Invariant.

Variable c0 : Z.
Variable K : nat.

Record ids_inv (s : state) : Prop := {
  ids_len : length (threads s) = K;
  ids_lock : count_by in_lock (threads s) = if _lock s then 1 else 0;
  ids_counter : _run_id_counter s = (c0 + Z.of_nat (length (issued s)))%Z;
  ids_issued : issued s = seqZ (c0 + 1) (Z.of_nat (length (issued s)));
  ids_computed : ∀ i r, threads s !! i = Some (Computed r) →
                 r = (_run_id_counter s + 1)%Z;
  ids_held : ids (threads s) ≡ₚ issued s;
}.

Lemma pc_count_replicate f n : f Entering = 0 → count_by f (replicate n Entering) = 0.
Proof. intros Hf. unfold count_by. induction n; simpl; [done|]. by rewrite Hf. Qed.

Lemma ids_inv_init : ids_inv (init c0 K).
Proof.
  split; simpl.
  - apply length_replicate.
  - by apply pc_count_replicate.
  - lia.
  - done.
  - intros i r Hi. by apply lookup_replicate_1 in Hi as [? _].
  - unfold ids. induction K; simpl; done.
Qed.

Lemma ids_inv_step i s s' : ids_inv s → step i s = Some s' → ids_inv s'.
Proof.
  intros [Hlen Hlock Hcounter Hissued Hcomp Hids] Hstep. unfold step in Hstep.
  destruct (threads s !! i) as [t|] eqn:Hi; [|done].
  pose proof (pc_count_insert in_lock (threads s) i t) as Hlk.
  assert (Hother : ∀ new j r, <[i := new]> (threads s) !! j = Some (Computed r) →
                               new ≠ Computed r → threads s !! j = Some (Computed r) ∧ i ≠ j).
  { intros new j r Hj Hnew. destruct (decide (i = j)) as [->|Hne].
    - apply list_lookup_insert_Some in Hj as [(_ & Heq & _)|(? & _)]; congruence.
    - by rewrite list_lookup_insert_ne in Hj. }
  destruct t as [| |r|r|r|r].
  - (* Entering *)
    destruct (_lock s) eqn:Hl; [done|]. injection Hstep as <-.
    specialize (Hlk Holding Hi). simpl in Hlk.
    split; simpl; try done.
    + by rewrite length_insert.
    + lia.
    + intros j r Hj. apply Hother in Hj as [Hj _]; [|done]. by apply (Hcomp j).
    + by rewrite (ids_insert_same _ _ Entering).
  - (* Holding *)
    injection Hstep as <-.
    specialize (Hlk (Computed (_run_id_counter s + 1)) Hi). simpl in Hlk.
    split; simpl; try done.
    + by rewrite length_insert.
    + destruct (_lock s); lia.
    + intros j r Hj. destruct (decide (i = j)) as [->|Hne].
      * apply list_lookup_insert_Some in Hj as [(_ & [= <-] & _)|(? & _)]; done.
      * rewrite list_lookup_insert_ne in Hj by done. by apply (Hcomp j).
    + by rewrite (ids_insert_same _ _ Holding).
  - (* Computed *)
    injection Hstep as <-.
    specialize (Hlk (Stored r) Hi). simpl in Hlk.
    pose proof (Hcomp i r Hi) as Hr.
    split; simpl.
    + by rewrite length_insert.
    + destruct (_lock s); lia.
    + rewrite length_app. simpl. lia.
    + rewrite length_app. simpl. rewrite Nat.add_1_r, seqZ_S, <- Hissued.
      f_equal. f_equal. lia.
    + intros j r' Hj. apply Hother in Hj as [Hj Hne]; [|done]. exfalso.
      pose proof (pc_count_two in_lock (threads s) i j _ _ Hi Hj Hne) as H2.
      simpl in H2. destruct (_lock s); lia.
    + rewrite (ids_insert_new _ _ (Computed r) _ r) by done.
      rewrite Hids. apply Permutation_cons_append.
  - (* Stored *)
    injection Hstep as <-.
    specialize (Hlk (Released r) Hi). simpl in Hlk.
    split; simpl; try done.
    + by rewrite length_insert.
    + destruct (_lock s); lia.
    + intros j r' Hj. apply Hother in Hj as [Hj _]; [|done]. by apply (Hcomp j).
    + by rewrite (ids_insert_same _ _ (Stored r)).
  - (* Released *)
    injection Hstep as <-.
    specialize (Hlk (Returned r) Hi). simpl in Hlk.
    split; simpl; try done.
    + by rewrite length_insert.
    + destruct (_lock s); lia.
    + intros j r' Hj. apply Hother in Hj as [Hj _]; [|done]. by apply (Hcomp j).
    + by rewrite (ids_insert_same _ _ (Released r)).
  - done.
Qed.

Lemma ids_inv_run sched : ∀ s s', ids_inv s → run_schedule sched s = Some s' → ids_inv s'.
Proof.
  induction sched as [|i rest IH]; intros s s' Hinv Hrun; simpl in Hrun.
  - by injection Hrun as <-.
  - destruct (step i s) as [s1|] eqn:Hstep; [|done].
    eapply IH; [|done]. by eapply ids_inv_step.
Qed.

Lemma returned_Some ts rs : returned ts = Some rs → ts = map Returned rs.
Proof.
  revert rs. induction ts as [|t ts IH]; intros rs H; simpl in H.
  - by injection H as <-.
  - destruct t; try done. destruct (returned ts) as [rs'|]; [|done].
    injection H as <-. simpl. by rewrite (IH rs').
Qed.

Lemma returned_None ts : returned ts = None → 0 < count_by remaining ts.
Proof.
  unfold count_by. induction ts as [|t ts IH]; simpl; [done|].
  destruct t; simpl; try lia. destruct (returned ts); [done|]. intros _. by apply IH.
Qed.

Lemma ids_returned rs : ids (map Returned rs) = rs.
Proof. unfold ids. induction rs as [|r rs IH]; [done|]. cbn. by f_equal. Qed.

Lemma ids_step_remaining i s s' :
  step i s = Some s' → count_by remaining (threads s') + 1 = count_by remaining (threads s).
Proof.
  unfold step. intros Hstep.
  destruct (threads s !! i) as [t|] eqn:Hi; [|done].
  pose proof (pc_count_insert remaining (threads s) i t) as Hr.
  destruct t as [| |r|r|r|r]; try done.
  - destruct (_lock s); [done|]. injection Hstep as <-. simpl.
    specialize (Hr Holding Hi). simpl in Hr. lia.
  - injection Hstep as <-. simpl.
    specialize (Hr (Computed (_run_id_counter s + 1)) Hi). simpl in Hr. lia.
  - injection Hstep as <-. simpl. specialize (Hr (Stored r) Hi). simpl in Hr. lia.
  - injection Hstep as <-. simpl. specialize (Hr (Released r) Hi). simpl in Hr. lia.
  - injection Hstep as <-. simpl. specialize (Hr (Returned r) Hi). simpl in Hr. lia.
Qed.

(** A caller that holds the lock can always move, and a free lock can
    always be taken: no caller waits for ever. *)
Lemma ids_progress s :
  ids_inv s → returned (threads s) = None → ∃ i s', step i s = Some s'.
Proof.
  intros Hinv Hret. pose proof (ids_lock s Hinv) as Hlock.
  destruct (_lock s) eqn:Hl.
  - destruct (pc_count_pos in_lock (threads s)) as (i & t & Hi & Ht); [lia|].
    exists i. unfold step. rewrite Hi. destruct t; simpl in Ht; try lia; eauto.
  - apply returned_None in Hret.
    destruct (pc_count_pos remaining (threads s) Hret) as (i & t & Hi & Ht).
    pose proof (pc_count_insert in_lock (threads s) i t t Hi) as Hsame.
    assert (Hle : in_lock t ≤ count_by in_lock (threads s)).
    { rewrite list_insert_id in Hsame by done. clear Hsame.
      unfold count_by. clear -Hi. revert i Hi.
      induction (threads s) as [|x l IH]; intros i Hi; [done|].
      destruct i; simpl in *; [injection Hi as ->; lia|]. specialize (IH i Hi). lia. }
    exists i. unfold step. rewrite Hi, ?Hl.
    destruct t; simpl in *; try lia; rewrite ?Hl; eauto.
Qed.

Lemma ids_can_finish s :
  ids_inv s → ∃ sched s', run_schedule sched s = Some s' ∧ is_Some (returned (threads s')).
Proof.
  intros Hinv. remember (count_by remaining (threads s)) as n eqn:Hn.
  revert s Hinv Hn. induction n as [n IH] using lt_wf_ind. intros s Hinv Hn.
  destruct (returned (threads s)) as [rs|] eqn:Hg.
  - exists [], s. simpl. rewrite Hg. eauto.
  - destruct (ids_progress s Hinv Hg) as (i & s1 & Hstep).
    pose proof (ids_step_remaining i s s1 Hstep) as Hrem.
    destruct (IH (count_by remaining (threads s1))) with (s := s1)
      as (sched & s' & Hrun & Hdone); [lia|by eapply ids_inv_step|done|].
    exists (i :: sched), s'. simpl. by rewrite Hstep.
Qed.

End Invariant.

(** C6: K callers run [_create_run] concurrently on an executor whose
    counter is c0. Along every schedule the values assigned to the
    counter are c0+1, c0+2, ... in this order, the ids the callers hold
    are these values, each once, and at most one caller is inside the
    lock. Once all K callers have returned, the returned ids are
    pairwise distinct and are exactly c0+1, ..., c0+K; and from every
    reachable state all callers can return. *)
Theorem run_ids_dense (c0 : Z) (K : nat) (sched : list nat) (s : state) :
  run_schedule sched (init c0 K) = Some s →
  issued s = seqZ (c0 + 1) (Z.of_nat (length (issued s)))
  ∧ _run_id_counter s = (c0 + Z.of_nat (length (issued s)))%Z
  ∧ ids (threads s) ≡ₚ issued s
  ∧ NoDup (ids (threads s))
  ∧ count_by in_lock (threads s) ≤ 1
  ∧ (∀ rs, returned (threads s) = Some rs →
       length rs = K ∧ NoDup rs ∧ rs ≡ₚ seqZ (c0 + 1) (Z.of_nat K)
       ∧ issued s = seqZ (c0 + 1) (Z.of_nat K)
       ∧ _run_id_counter s = (c0 + Z.of_nat K)%Z)
  ∧ ∃ sched' s', run_schedule sched' s = Some s' ∧ is_Some (returned (threads s')).
Proof.
  intros Hrun.
  assert (Hinv : ids_inv c0 K s) by (eapply ids_inv_run; [apply ids_inv_init|exact Hrun]).
  pose proof Hinv as [Hlen Hlock Hcounter Hissued Hcomp Hids].
  assert (Hnodup : NoDup (ids (threads s))).
  { rewrite Hids, Hissued. apply NoDup_seqZ. }
  split; [done|]. split; [done|]. split; [done|]. split; [done|].
  split; [rewrite Hlock; destruct (_lock s); lia|].
  split; [|by eapply ids_can_finish].
  intros rs Hret. apply returned_Some in Hret.
  assert (Hrs : ids (threads s) = rs) by (rewrite Hret; apply ids_returned).
  assert (HK : length rs = K) by (rewrite <- Hlen, Hret; by rewrite length_map).
  assert (Hn : length (issued s) = K).
  { rewrite <- HK, <- Hrs. symmetry. by apply Permutation_length. }
  rewrite Hn in Hissued, Hcounter.
  split; [done|]. split; [by rewrite <- Hrs|]. split; [by rewrite <- Hrs, Hids, <- Hissued|]. done.
Qed.

Lemma run_ids_dense_witness :
  run_schedule crossing (init 0 3) = Some crossing_end
  ∧ returned (threads crossing_end) = Some [3; 2; 1]%Z
  ∧ [3; 2; 1]%Z ≡ₚ seqZ (0 + 1) (Z.of_nat 3)
  ∧ issued crossing_end = seqZ (0 + 1) (Z.of_nat 3).
Proof.
  assert (Hrun : run_schedule crossing (init 0 3) = Some crossing_end)
    by (vm_compute; reflexivity).
  assert (Hret : returned (threads crossing_end) = Some [3; 2; 1]%Z)
    by (vm_compute; reflexivity).
  split; [exact Hrun|]. split; [exact Hret|].
  destruct (run_ids_dense 0 3 crossing crossing_end Hrun) as (_ & _ & _ & _ & _ & Hend & _).
  destruct (Hend [3; 2; 1]%Z Hret) as (_ & _ & Hperm & Hiss & _).
  split; [exact Hperm|exact Hiss].
Defined.

End RunIdsFacts.

(** ** The aggregating source under partial failure *)

Module MultiSourceFacts.
Import MultiSource.

#[local] Opaque lit.

Section WithClock.

Variable now : nat → str.

Lemma append_entry_elem lbl content all_logs e :
  e ∈ append_entry now lbl content all_logs ↔
  e ∈ all_logs ∨ e = (now (length all_logs), lbl, content).
Proof. unfold append_entry. rewrite elem_of_app, list_elem_of_singleton. tauto. Qed.

(** Entries are only ever added. *)
Lemma take_chunks_keeps lbl chunks : ∀ all_logs e,
  e ∈ all_logs → e ∈ take_chunks now lbl chunks all_logs.
Proof.
  induction chunks as [|c rest IH]; intros all_logs e He; simpl; [done|].
  apply IH. destruct (truthy c); [|done]. apply append_entry_elem. by left.
Qed.

Lemma take_chunks_sound lbl chunks : ∀ all_logs e,
  e ∈ take_chunks now lbl chunks all_logs →
  e ∈ all_logs ∨ ∃ k chunk, e = (now k, lbl, chunk) ∧ chunk ∈ chunks.
Proof.
  induction chunks as [|c rest IH]; intros all_logs e He; simpl in He; [by left|].
  apply IH in He as [He|(k & chunk & -> & Hin)].
  - destruct (truthy c); [|by left].
    apply append_entry_elem in He as [He| ->]; [by left|].
    right. exists (length all_logs), c. split; [done|]. by left.
  - right. exists k, chunk. split; [done|]. by right.
Qed.

Lemma take_chunks_complete lbl chunks : ∀ all_logs chunk,
  chunk ∈ chunks → truthy chunk = true →
  ∃ k, (now k, lbl, chunk) ∈ take_chunks now lbl chunks all_logs.
Proof.
  induction chunks as [|c rest IH]; intros all_logs chunk Hin Ht; [by apply elem_of_nil in Hin|].
  apply elem_of_cons in Hin as [->|Hin]; simpl.
  - rewrite Ht. exists (length all_logs). apply take_chunks_keeps, append_entry_elem. by right.
  - by apply IH.
Qed.

Lemma collect_from_keeps src all_logs e :
  e ∈ all_logs → e ∈ collect_from now src all_logs.
Proof.
  intros He. unfold collect_from. destruct (collect src) as [[s|chunks failure|]|?]; try done.
  - destruct (truthy s); [|done]. apply append_entry_elem. by left.
  - by apply take_chunks_keeps.
Qed.

Lemma collect_from_sound src all_logs e :
  e ∈ collect_from now src all_logs →
  e ∈ all_logs ∨ ∃ k r chunk,
    collect src = Ok r ∧ chunk ∈ chunks_of r ∧ e = (now k, label_of src, chunk).
Proof.
  unfold collect_from. destruct (collect src) as [[s|chunks failure|]|?] eqn:Hc; intros He;
    try by left.
  - destruct (truthy s); [|by left].
    apply append_entry_elem in He as [He| ->]; [by left|]. right.
    exists (length all_logs), (RStr s), s. split; [done|]. split; [by left|done].
  - apply take_chunks_sound in He as [He|(k & chunk & -> & Hin)]; [by left|]. right.
    by exists k, (RIter chunks failure), chunk.
Qed.

Lemma collect_from_complete src all_logs r chunk :
  collect src = Ok r → chunk ∈ chunks_of r → truthy chunk = true →
  ∃ k, (now k, label_of src, chunk) ∈ collect_from now src all_logs.
Proof.
  intros Hc Hin Ht. unfold collect_from. rewrite Hc. destruct r as [s|chunks failure|]; simpl in Hin.
  - apply list_elem_of_singleton in Hin as ->. rewrite Ht.
    exists (length all_logs). apply append_entry_elem. by right.
  - by apply take_chunks_complete.
  - by apply elem_of_nil in Hin.
Qed.

Lemma collect_all_keeps sources : ∀ all_logs e,
  e ∈ all_logs → e ∈ collect_all now sources all_logs.
Proof.
  induction sources as [|src rest IH]; intros all_logs e He; simpl; [done|].
  by apply IH, collect_from_keeps.
Qed.

Lemma collect_all_sound sources : ∀ all_logs e,
  e ∈ collect_all now sources all_logs →
  e ∈ all_logs ∨ ∃ src k r chunk,
    src ∈ sources ∧ collect src = Ok r ∧ chunk ∈ chunks_of r
    ∧ e = (now k, label_of src, chunk).
Proof.
  induction sources as [|src rest IH]; intros all_logs e He; simpl in He; [by left|].
  apply IH in He as [He|(src' & k & r & chunk & Hin & Hc & Hchunk & ->)].
  - apply collect_from_sound in He as [He|(k & r & chunk & Hc & Hchunk & ->)]; [by left|].
    right. exists src, k, r, chunk. split; [by left|done].
  - right. exists src', k, r, chunk. split; [by right|done].
Qed.

Lemma collect_all_complete sources : ∀ all_logs src r chunk,
  src ∈ sources → collect src = Ok r → chunk ∈ chunks_of r → truthy chunk = true →
  ∃ k, (now k, label_of src, chunk) ∈ collect_all now sources all_logs.
Proof.
  induction sources as [|s rest IH]; intros all_logs src r chunk Hin Hc Hchunk Ht;
    [by apply elem_of_nil in Hin|].
  apply elem_of_cons in Hin as [->|Hin]; simpl.
  - destruct (collect_from_complete s all_logs r chunk Hc Hchunk Ht) as [k Hk].
    exists k. by apply collect_all_keeps.
  - by eapply IH.
Qed.

End WithClock.

(** Sorting rearranges the entries and loses none. *)
Lemma insert_sorted_perm e sorted : insert_sorted e sorted ≡ₚ e :: sorted.
Proof.
  induction sorted as [|x rest IH]; simpl; [done|].
  destruct (str_ltb _ _); [|done]. rewrite IH. apply Permutation_swap.
Qed.

Lemma sort_perm all_logs : sort all_logs ≡ₚ all_logs.
Proof.
  unfold sort. induction all_logs as [|e rest IH]; simpl; [done|].
  by rewrite insert_sorted_perm, IH.
Qed.

Lemma format_entry_elem timestamp lbl content x :
  x ∈ format_entry (timestamp, lbl, content) ↔
  ∃ line, x = format_line timestamp lbl line ∧ line ∈ split NL content ∧ nonblank line = true.
Proof.
  unfold format_entry. rewrite list_elem_of_In, in_map_iff. split.
  - intros (line & <- & Hin). apply list_elem_of_In, list_elem_of_filter in Hin as [? ?].
    by exists line.
  - intros (line & -> & Hin & Hnb). exists line. split; [done|].
    by apply list_elem_of_In, list_elem_of_filter.
Qed.

Lemma flat_map_elem {A B} (f : A → list B) (l : list A) (y : B) :
  y ∈ flat_map f l ↔ ∃ x, x ∈ l ∧ y ∈ f x.
Proof.
  rewrite list_elem_of_In, in_flat_map. split; intros (x & Hx & Hy); exists x;
    by rewrite ?list_elem_of_In in *.
Qed.

(** A chunk with a non-blank line is not the empty string. *)
Lemma nonblank_line_truthy chunk line :
  line ∈ split NL chunk → nonblank line = true → truthy chunk = true.
Proof.
  destruct chunk; [|done]. simpl. intros Hin%list_elem_of_singleton. by subst.
Qed.

Lemma lines_of_elem src line :
  line ∈ lines_of src ↔
  ∃ r chunk, collect src = Ok r ∧ chunk ∈ chunks_of r ∧ line ∈ split NL chunk
             ∧ nonblank line = true.
Proof.
  unfold lines_of. destruct (collect src) as [r|e]; split.
  - intros [Hnb (chunk & ? & ?)%flat_map_elem]%list_elem_of_filter. by exists r, chunk.
  - intros (r' & chunk & [= <-] & ? & ? & ?). apply list_elem_of_filter. split; [done|].
    apply flat_map_elem. by exists chunk.
  - by intros ?%elem_of_nil.
  - by intros (? & ? & ? & _).
Qed.

(** A call chain whose entries name both ends always renders. *)
Lemma chain_lines_ok chains :
  forallb names_both_ends chains = true → ∃ lines, chain_lines chains = Ok lines.
Proof.
  induction chains as [|c rest IH]; [by exists []|].
  intros [Hc Hrest]%andb_prop. destruct (IH Hrest) as [lines Hlines].
  unfold names_both_ends in Hc.
  apply andb_prop in Hc as [[src Hsrc]%bool_decide_eq_true [dst Hdst]%bool_decide_eq_true].
  cbn [chain_lines]. unfold chain_line, chain, str, char in *.
  rewrite Hsrc, Hdst, Hlines. eauto.
Qed.

(** The lines yielded after the annotation. *)
Lemma merged_lines_sound now sources x :
  x ∈ flat_map format_entry (sort (collect_all now sources [])) →
  ∃ src k line r,
    src ∈ sources ∧ collect src = Ok r ∧ line ∈ lines_of src
    ∧ x = format_line (now k) (label_of src) line.
Proof.
  intros ([[timestamp lbl] content] & He & Hx)%flat_map_elem.
  rewrite sort_perm in He.
  apply collect_all_sound in He as [He|(src & k & r & chunk & Hin & Hc & Hchunk & [= -> -> ->])];
    [by apply elem_of_nil in He|].
  apply format_entry_elem in Hx as (line & -> & Hline & Hnb).
  exists src, k, line, r. split; [done|]. split; [done|]. split; [|done].
  apply lines_of_elem. by exists r, chunk.
Qed.

Lemma merged_lines_complete now sources src line :
  src ∈ sources → line ∈ lines_of src →
  ∃ k, format_line (now k) (label_of src) line
       ∈ flat_map format_entry (sort (collect_all now sources [])).
Proof.
  intros Hin (r & chunk & Hc & Hchunk & Hline & Hnb)%lines_of_elem.
  destruct (collect_all_complete now sources [] src r chunk) as [k Hk]; try done.
  { by eapply nonblank_line_truthy. }
  exists k. apply flat_map_elem. exists (now k, label_of src, chunk).
  split; [by rewrite sort_perm|]. apply format_entry_elem. by exists line.
Qed.

(** C8 (amended): whatever the sub-sources do, and however
    many there are, [MultiSource.collect] ends without an exception as
    long as the configured call chain entries name both ends. What it
    yields is an optional leading annotation block, present exactly when
    a call chain is configured and something was collected, followed
    only by lines of the form "[timestamp] [label] line\n", where line is
    a non-blank line of a sub-source whose [collect()] returned, label is
    that sub-source's label and timestamp a reading of the clock. Every
    non-blank line of such a sub-source is among them, so a sub-source
    whose [collect()] raised is the only one left out. *)
Theorem collect_partial_failure (now : nat → str) (self : MultiSource.MultiSource) :
  forallb names_both_ends (call_chain self) = true →
  ∃ annotation lines,
    collect_merged now self = (annotation ++ lines, None)
    ∧ (call_chain self = [] ∨ collect_all now (source_instances self) [] = [] →
         annotation = [])
    ∧ (call_chain self ≠ [] → collect_all now (source_instances self) [] ≠ [] →
         ∃ info, call_chain_info (call_chain self) = Ok info ∧ annotation = [info])
    ∧ (∀ x, x ∈ lines → ∃ src k line r,
         src ∈ source_instances self ∧ collect src = Ok r
         ∧ line ∈ lines_of src ∧ x = format_line (now k) (label_of src) line)
    ∧ (∀ src line, src ∈ source_instances self → line ∈ lines_of src →
         ∃ k, format_line (now k) (label_of src) line ∈ lines).
Proof.
  intros Hchain.
  pose proof (merged_lines_sound now (source_instances self)) as Hsound.
  pose proof (merged_lines_complete now (source_instances self)) as Hcomplete.
  unfold collect_merged.
  destruct (collect_all now (source_instances self) []) as [|e all_logs] eqn:Hall.
  - exists [], []. split; [done|]. split; [done|]. split; [done|]. split.
    + intros x Hx. by apply elem_of_nil in Hx.
    + intros src line Hin Hline. exact (Hcomplete src line Hin Hline).
  - destruct (call_chain self) as [|c rest] eqn:Hcc.
    + exists [], (flat_map format_entry (sort (e :: all_logs))).
      split; [done|]. split; [done|]. split; [done|]. split; [exact Hsound|exact Hcomplete].
    + destruct (chain_lines_ok (c :: rest) Hchain) as [ls Hls].
      unfold call_chain_info. rewrite Hls. cbn [mbind py_result_bind].
      exists [join [NL] ls ++ [NL; NL]], (flat_map format_entry (sort (e :: all_logs))).
      split; [done|]. split; [by intros [?|?]|].
      split; [intros _ _; by eexists|]. split; [exact Hsound|exact Hcomplete].
Qed.

Lemma collect_partial_failure_witness :
  ∃ annotation lines,
    collect_merged noon three_sources_with_chain = (annotation ++ lines, None)
    ∧ (call_chain three_sources_with_chain = []
       ∨ collect_all noon (source_instances three_sources_with_chain) [] = [] →
         annotation = [])
    ∧ (call_chain three_sources_with_chain ≠ [] →
       collect_all noon (source_instances three_sources_with_chain) [] ≠ [] →
         ∃ info, call_chain_info (call_chain three_sources_with_chain) = Ok info
                 ∧ annotation = [info])
    ∧ (∀ x, x ∈ lines → ∃ src k line r,
         src ∈ source_instances three_sources_with_chain ∧ collect src = Ok r
         ∧ line ∈ lines_of src ∧ x = format_line (noon k) (label_of src) line)
    ∧ (∀ src line, src ∈ source_instances three_sources_with_chain → line ∈ lines_of src →
         ∃ k, format_line (noon k) (label_of src) line ∈ lines).
Proof.
  apply (collect_partial_failure noon three_sources_with_chain).
  vm_compute. reflexivity.
Defined.

(** C8 (as stated, refuted) when a call chain is configured: with three
    sub-sources of which the second raises, the stream starts with the
    annotation block, which is no line of a sub-source and carries no
    timestamp and label. *)
Lemma merged_stream_annotation_counterexample :
  collect_merged noon three_sources_with_chain =
    ([ lit "# 调用关系: web -> orders-db (HTTP)" ++ [NL; NL];
       lit "[2024-05-01 12:00:00] [web] GET /orders 500" ++ [NL];
       lit "[2024-05-01 12:00:00] [web] retrying" ++ [NL];
       lit "[2024-05-01 12:00:00] [orders-db] deadlock detected" ++ [NL];
       lit "[2024-05-01 12:00:00] [orders-db] connection reset" ++ [NL] ], None)
  ∧ ¬ (∀ x, x ∈ (collect_merged noon three_sources_with_chain).1 →
         ∃ timestamp lbl line, x = format_line timestamp lbl line).
Proof.
  assert (Hrun : collect_merged noon three_sources_with_chain =
    ([ lit "# 调用关系: web -> orders-db (HTTP)" ++ [NL; NL];
       lit "[2024-05-01 12:00:00] [web] GET /orders 500" ++ [NL];
       lit "[2024-05-01 12:00:00] [web] retrying" ++ [NL];
       lit "[2024-05-01 12:00:00] [orders-db] deadlock detected" ++ [NL];
       lit "[2024-05-01 12:00:00] [orders-db] connection reset" ++ [NL] ], None))
    by (vm_compute; reflexivity).
  split; [exact Hrun|]. rewrite Hrun. intros Hall.
  destruct (Hall (lit "# 调用关系: web -> orders-db (HTTP)" ++ [NL; NL]))
    as (timestamp & lbl & line & Heq); [by left|].
  unfold format_line in Heq. vm_compute in Heq. discriminate Heq.
Qed.

End MultiSourceFacts.

(** ** The chunker: packing, number of chunks, unencodable text *)

Module PackingFacts.
Import Chunker Packing ChunkerFacts.

Lemma packed_snoc chunk_size gs g line :
  packed chunk_size (gs ++ [g]) →
  (chunk_size < sum_sizes g + utf8_len line)%Z →
  packed chunk_size ((gs ++ [g]) ++ [[line]]).
Proof.
  induction gs as [|x gs IH]; intros Hp Hlt.
  - simpl. done.
  - simpl in *. destruct Hp as [Hx Hp]. split; [|by apply IH].
    destruct gs; simpl in *; done.
Qed.

Lemma packed_extend_last chunk_size gs cur line :
  cur ≠ [] → packed chunk_size (gs ++ [cur]) →
  packed chunk_size (gs ++ [cur ++ [line]]).
Proof.
  intros Hcur. induction gs as [|x gs IH]; intros Hp.
  - simpl. done.
  - simpl in *. destruct Hp as [Hx Hp]. split; [|by apply IH].
    destruct gs as [|y gs]; simpl in *; [|done].
    destruct cur; [done|]. done.
Qed.

Lemma packed_lookup chunk_size groups i g h :
  packed chunk_size groups → groups !! i = Some g → groups !! S i = Some h →
  (chunk_size < sum_sizes g + utf8_len (default [] (head h)))%Z.
Proof.
  revert i. induction groups as [|x groups IH]; intros i Hp Hg Hh; [done|].
  destruct Hp as [Hx Hp]. destruct i as [|i]; simpl in *.
  - injection Hg as ->. destruct groups; [done|]. by injection Hh as ->.
  - by eapply IH.
Qed.

(** The loop invariant with the packing of the groups. *)
Lemma chunk_loop_groups chunk_size lines :
  ∀ groups cur,
    Forall all_encodable lines →
    (cur = [] → groups = []) →
    Forall (λ g, g ≠ []) groups →
    Forall (group_ok chunk_size) groups →
    cur = [] ∨ group_ok chunk_size cur →
    (cur ≠ [] → packed chunk_size (groups ++ [cur])) →
    ∃ groups',
      chunk_loop chunk_size lines (map (join [NL]) groups) cur (sum_sizes cur)
        = Ok (map (join [NL]) groups')
      ∧ concat groups' = concat groups ++ cur ++ lines
      ∧ Forall (λ g, g ≠ []) groups'
      ∧ Forall (group_ok chunk_size) groups'
      ∧ packed chunk_size groups'.
Proof.
  induction lines as [|line rest IH]; intros groups cur Henc Hfirst Hne Hok Hcur Hp.
  - simpl. destruct cur as [|l cur].
    + exists groups. rewrite !app_nil_r. rewrite (Hfirst eq_refl). by repeat split.
    + exists (groups ++ [l :: cur]). simpl nonempty. cbv iota.
      rewrite map_app, concat_app. simpl. rewrite !app_nil_r.
      split_and!; [done|done| | |by apply Hp].
      * apply Forall_app; split; [done|]. by repeat constructor.
      * apply Forall_app; split; [done|]. constructor; [|done]. by destruct Hcur.
  - inversion Henc as [|? ? Hline Hrest]; subst.
    simpl. rewrite (line_size_ok _ Hline). simpl.
    destruct ((sum_sizes cur + utf8_len line >? chunk_size)%Z && nonempty cur) eqn:Hif.
    + apply andb_prop in Hif as [Hgt Hcne].
      destruct cur as [|l cur]; [done|].
      apply Z.gtb_lt in Hgt.
      destruct (IH (groups ++ [l :: cur]) [line]) as (groups' & Hrun & Hcat & Hne' & Hok' & Hp').
      * done.
      * done.
      * apply Forall_app; split; [done|]. by repeat constructor.
      * apply Forall_app; split; [done|]. constructor; [|done]. by destruct Hcur.
      * right. by left.
      * intros _. apply packed_snoc; [by apply Hp|]. lia.
      * exists groups'. rewrite map_app in Hrun. simpl in Hrun.
        replace (utf8_len line + 0)%Z with (utf8_len line) in Hrun by lia.
        split; [exact Hrun|]. split; [|done].
        rewrite Hcat, concat_app. simpl. rewrite app_nil_r. by rewrite <- !app_assoc.
    + destruct (IH groups (cur ++ [line])) as (groups' & Hrun & Hcat & Hne' & Hok' & Hp').
      * done.
      * by destruct cur.
      * done.
      * done.
      * right. destruct cur as [|l cur]; [by left|]. right.
        rewrite sum_sizes_app. simpl. simpl in Hif.
        rewrite andb_true_r, Z.gtb_ltb in Hif.
        apply Z.ltb_ge in Hif. lia.
      * intros _. destruct cur as [|l cur].
        -- rewrite (Hfirst eq_refl). simpl. done.
        -- apply packed_extend_last; [done|]. by apply Hp.
      * exists groups'. rewrite sum_sizes_app in Hrun. simpl in Hrun.
        replace (utf8_len line + 0)%Z with (utf8_len line) in Hrun by lia.
        split; [exact Hrun|]. split; [|done].
        rewrite Hcat. by rewrite <- !app_assoc.
Qed.

Lemma chunk_logs_groups chunk_size logs :
  all_encodable logs →
  ∃ groups,
    _chunk_logs chunk_size logs = Ok (map (join [NL]) groups)
    ∧ concat groups = split NL logs
    ∧ Forall (λ g, g ≠ []) groups
    ∧ Forall (group_ok chunk_size) groups
    ∧ packed chunk_size groups.
Proof.
  intros Henc. unfold _chunk_logs.
  destruct (chunk_loop_groups chunk_size (split NL logs) [] [])
    as (groups & Hrun & Hcat & Hne & Hok & Hp); try done.
  - by apply split_encodable.
  - by left.
  - by exists groups.
Qed.

Lemma concat_length_le {A} (groups : list (list A)) :
  Forall (λ g, g ≠ []) groups → length groups ≤ length (concat groups).
Proof.
  induction 1 as [|g groups Hg _ IH]; simpl; [done|].
  rewrite length_app. destruct g; [done|]. simpl. lia.
Qed.

Lemma split_length sep s : length (split sep s) = S (count sep s).
Proof.
  induction s as [|c s IH]; [done|]. simpl.
  destruct (c =? sep)%N; simpl; [by rewrite IH|].
  destruct (split sep s) eqn:Hs; [by destruct (split_nonempty sep s)|].
  simpl in *. lia.
Qed.

Lemma sum_sizes_nonneg g : (0 ≤ sum_sizes g)%Z.
Proof.
  induction g as [|l g IH]; simpl; [done|]. pose proof (utf8_len_nonneg l). lia.
Qed.

Lemma line_bytes_eq logs :
  line_bytes logs = (utf8_len logs - Z.of_nat (count NL logs))%Z.
Proof.
  unfold line_bytes.
  pose proof (utf8_len_join (split NL logs) (split_nonempty NL logs)) as Hlen.
  rewrite join_split, split_length in Hlen. lia.
Qed.

(** X1: for every text that UTF-8 can encode, the chunks are the joins
    of consecutive non-empty groups of whole lines; there is at least
    one chunk and at most one per line; and the packing is greedy: a
    chunk is closed only when the first line of the next chunk would
    have taken the byte count of its lines over [chunk_size]. *)
Theorem chunk_logs_greedy (chunk_size : Z) (logs : str) :
  all_encodable logs →
  ∃ groups,
    _chunk_logs chunk_size logs = Ok (map (join [NL]) groups)
    ∧ concat groups = split NL logs
    ∧ Forall (λ g, g ≠ []) groups
    ∧ 1 ≤ length groups ≤ S (count NL logs)
    ∧ ∀ i g h, groups !! i = Some g → groups !! S i = Some h →
        (chunk_size < sum_sizes g + utf8_len (default [] (head h)))%Z.
Proof.
  intros Henc.
  destruct (chunk_logs_groups chunk_size logs Henc) as (groups & Hrun & Hcat & Hne & _ & Hp).
  exists groups. split; [done|]. split; [done|]. split; [done|]. split.
  - pose proof (concat_length_le groups Hne) as Hle.
    rewrite Hcat, split_length in Hle. split; [|done].
    destruct groups; [|simpl; lia]. simpl in Hcat. symmetry in Hcat.
    by destruct (split_nonempty NL logs).
  - intros i g h. by apply packed_lookup.
Qed.

Lemma chunk_logs_greedy_witness :
  all_encodable two_lines
  ∧ ∃ groups,
      _chunk_logs 2 two_lines = Ok (map (join [NL]) groups)
      ∧ concat groups = split NL two_lines
      ∧ Forall (λ g, g ≠ []) groups
      ∧ 1 ≤ length groups ≤ S (count NL two_lines)
      ∧ ∀ i g h, groups !! i = Some g → groups !! S i = Some h →
          (2 < sum_sizes g + utf8_len (default [] (head h)))%Z.
Proof.
  assert (H : all_encodable two_lines) by (repeat constructor).
  split; [exact H|]. exact (chunk_logs_greedy 2 two_lines H).
Defined.

(** X2: a text that UTF-8 can encode comes back as one chunk, the text
    itself, exactly when it has a single line or the bytes of its lines,
    line feeds left out, are at most [chunk_size]. *)
Theorem chunk_logs_single_chunk (chunk_size : Z) (logs : str) :
  all_encodable logs →
  _chunk_logs chunk_size logs = Ok [logs]
  ↔ count NL logs = 0 ∨ (utf8_len logs - Z.of_nat (count NL logs) ≤ chunk_size)%Z.
Proof.
  intros Henc. rewrite <- line_bytes_eq. unfold line_bytes.
  destruct (chunk_logs_groups chunk_size logs Henc) as (groups & Hrun & Hcat & Hne & Hok & Hp).
  rewrite Hrun. split.
  - intros [= Heq]. destruct groups as [|g [|h groups]]; try done.
    simpl in Hcat. rewrite app_nil_r in Hcat. subst g.
    inversion Hok as [|? ? Hg _]; subst. destruct Hg as [Hone|Hsum]; [left|by right].
    rewrite split_length in Hone. lia.
  - intros Hfit. f_equal.
    assert (Hsingle : groups = [split NL logs]).
    { destruct groups as [|g [|h groups]].
      - simpl in Hcat. symmetry in Hcat. by destruct (split_nonempty NL logs).
      - simpl in Hcat. rewrite app_nil_r in Hcat. by subst.
      - exfalso. simpl in Hp. destruct Hp as [Hlt _].
        inversion Hne as [|? ? Hg Hne']; subst. inversion Hne' as [|? ? Hh _]; subst.
        destruct Hfit as [Hone|Hsum].
        + pose proof (split_length NL logs) as Hlen. rewrite Hone, <- Hcat in Hlen.
          simpl in Hlen. rewrite !length_app in Hlen.
          destruct g; [done|]. destruct h; [done|]. simpl in Hlen. lia.
        + rewrite <- Hcat in Hsum. simpl in Hsum. rewrite !sum_sizes_app in Hsum.
          destruct h as [|l h]; [done|]. simpl in *.
          pose proof (sum_sizes_nonneg h). pose proof (sum_sizes_nonneg (concat groups)).
          lia. }
    rewrite Hsingle. simpl. by rewrite join_split.
Qed.

Lemma chunk_logs_single_chunk_witness :
  all_encodable two_lines
  ∧ (_chunk_logs 3 two_lines = Ok [two_lines]
     ↔ count NL two_lines = 0
       ∨ (utf8_len two_lines - Z.of_nat (count NL two_lines) ≤ 3)%Z).
Proof.
  assert (H : all_encodable two_lines) by (repeat constructor).
  split; [exact H|]. exact (chunk_logs_single_chunk 3 two_lines H).
Defined.

Lemma encode_char_raises c :
  encodable c = false →
  ∃ e, encode_char c = Raise e ∧ exn_type e = UnicodeEncodeError.
Proof.
  unfold encodable, encode_char, is_surrogate. intros H.
  destruct (c <? 128)%N eqn:H1; [apply N.ltb_lt in H1|apply N.ltb_ge in H1].
  { exfalso. apply andb_false_iff in H as [H|H].
    - apply negb_false_iff, andb_prop in H as [H _]. apply N.leb_le in H. lia.
    - apply N.ltb_ge in H. lia. }
  destruct (c <? 2048)%N eqn:H2; [apply N.ltb_lt in H2|apply N.ltb_ge in H2].
  { exfalso. apply andb_false_iff in H as [H|H].
    - apply negb_false_iff, andb_prop in H as [H _]. apply N.leb_le in H. lia.
    - apply N.ltb_ge in H. lia. }
  destruct ((55296 <=? c)%N && (c <=? 57343)%N) eqn:Hs; [by eexists|].
  simpl in H. apply N.ltb_ge in H.
  destruct (c <? 65536)%N eqn:H3; [apply N.ltb_lt in H3; lia|].
  destruct (c <? 1114112)%N eqn:H4; [apply N.ltb_lt in H4; lia|]. by eexists.
Qed.

Lemma utf8_encode_raises s :
  forallb encodable s = false →
  ∃ e, utf8_encode s = Raise e ∧ exn_type e = UnicodeEncodeError.
Proof.
  induction s as [|c s IH]; [done|]. simpl. intros H.
  destruct (encodable c) eqn:Hc.
  - destruct (encode_char_ok c Hc) as (bs & -> & _). simpl in *.
    destruct (IH H) as (e & -> & He). by exists e.
  - destruct (encode_char_raises c Hc) as (e & -> & He). by exists e.
Qed.

Lemma forallb_encodable s : forallb encodable s = true ↔ all_encodable s.
Proof.
  unfold all_encodable. rewrite forallb_forall, List.Forall_forall. done.
Qed.

Lemma all_encodable_join lines :
  Forall all_encodable lines → all_encodable (join [NL] lines).
Proof.
  induction 1 as [|l lines Hl Hls IH]; [constructor|].
  destruct lines as [|l' lines]; [done|]. rewrite join_cons.
  apply Forall_app; split; [done|]. apply Forall_app; split; [by repeat constructor|done].
Qed.

(** A line that cannot be encoded stops the loop, whatever it has
    gathered. *)
Lemma chunk_loop_raises chunk_size lines :
  ¬ Forall all_encodable lines →
  ∀ chunks cur size,
    ∃ e, chunk_loop chunk_size lines chunks cur size = Raise e
         ∧ exn_type e = UnicodeEncodeError.
Proof.
  induction lines as [|line rest IH]; intros Hbad chunks cur size.
  - destruct Hbad. constructor.
  - simpl. unfold line_size. destruct (forallb encodable line) eqn:Hl.
    + apply forallb_encodable in Hl.
      destruct (utf8_encode_ok line Hl) as (bs & -> & _). simpl.
      assert (Hrest : ¬ Forall all_encodable rest).
      { intros H. apply Hbad. by constructor. }
      destruct (_ && _); by apply IH.
    + destruct (utf8_encode_raises line Hl) as (e & -> & He). by exists e.
Qed.

Lemma chunk_logs_unencodable_raises chunk_size logs :
  forallb encodable logs = false →
  ∃ e, _chunk_logs chunk_size logs = Raise e ∧ exn_type e = UnicodeEncodeError.
Proof.
  intros Hbad. unfold _chunk_logs. apply chunk_loop_raises.
  intros Hlines. apply all_encodable_join in Hlines. rewrite join_split in Hlines.
  apply forallb_encodable in Hlines. congruence.
Qed.

(** X3: a text with a code point that UTF-8 cannot encode (a lone
    surrogate) makes [_chunk_logs] raise [UnicodeEncodeError], whatever
    the chunk size; the chunker has no handler for it. *)
Theorem chunk_logs_unencodable (chunk_size : Z) (logs : str) :
  forallb encodable logs = false →
  ∃ e, _chunk_logs chunk_size logs = Raise e ∧ exn_type e = UnicodeEncodeError.
Proof. apply chunk_logs_unencodable_raises. Qed.

Lemma chunk_logs_unencodable_witness :
  ∃ e, _chunk_logs 5000 with_surrogate = Raise e ∧ exn_type e = UnicodeEncodeError.
Proof.
  apply (chunk_logs_unencodable 5000 with_surrogate). vm_compute. reflexivity.
Defined.

End PackingFacts.

(** ** The analysis as a whole: both modes *)

Module AnalysisFacts.
Import Chunker Packing LogAnalyzer AnalysisViews ConcurrentFacts AnalyzeFacts PackingFacts.

Section WithLLM.

Variable llm : request → py_result (option str).

Lemma notify_app self total processed w1 w2 :
  notify self total processed (w1 ++ w2) = w1 ++ notify self total processed w2.
Proof.
  unfold notify. destruct (run_id self) as [r|]; [|done].
  destruct (progress_callback self && negb (r =? 0)%Z); [|done]. by rewrite app_assoc.
Qed.

Lemma sequential_loop_spec self total chunks : ∀ i analyses w,
  sequential_loop llm self total i chunks analyses w
  = (analyses ++ imap (λ k, _analyze_chunk llm self (i + k)) chunks,
     w ++ concat (imap (λ k chunk,
                          notify self total (i + k + 1)
                            [LLMCall (chunk_request self (i + k) chunk)]) chunks)).
Proof.
  induction chunks as [|chunk rest IH]; intros i analyses w.
  - simpl. by rewrite !app_nil_r.
  - cbn [sequential_loop]. rewrite IH. cbn [imap concat]. f_equal.
    + rewrite <- app_assoc. cbn [app]. rewrite Nat.add_0_r. do 2 f_equal.
      apply imap_ext. intros k x _. cbn. f_equal. lia.
    + rewrite notify_app, <- app_assoc, !Nat.add_0_r. do 2 f_equal.
      f_equal. apply imap_ext. intros k x _. cbn.
      replace (i + S k) with (S (i + k)) by lia. done.
Qed.

Lemma sequential_spec self chunks w :
  _analyze_sequential llm self chunks w
  = (imap (_analyze_chunk llm self) chunks, w ++ sequential_trace self chunks).
Proof. unfold _analyze_sequential. by rewrite sequential_loop_spec. Qed.

Lemma reported_trace_from self total chunks : ∀ i,
  reported (concat (imap (λ k chunk,
                            notify self total (i + k + 1)
                              [LLMCall (chunk_request self (i + k) chunk)]) chunks))
  = if notifying self then seq (i + 1) (length chunks) else [].
Proof.
  induction chunks as [|chunk rest IH]; intros i.
  - cbn. by destruct (notifying self).
  - cbn [imap concat]. rewrite reported_app, reported_notify.
    rewrite (imap_ext _ (λ k chunk0, notify self total (S i + k + 1)
                            [LLMCall (chunk_request self (S i + k) chunk0)])).
    + rewrite IH. cbn. destruct (notifying self); [|done]. cbn.
      by rewrite Nat.add_0_r.
    + intros k x _. cbn. replace (i + S k) with (S (i + k)) by lia. done.
Qed.

Lemma reported_sequential_trace self chunks :
  reported (sequential_trace self chunks)
  = if notifying self then seq 1 (length chunks) else [].
Proof. apply (reported_trace_from self (length chunks) chunks 0). Qed.

(** What the per-chunk phase returns, in either mode. *)
Lemma analyse_chunks_outcome self chunks sched w outcome w2 :
  (concurrent self = true → (0 ≤ concurrency self)%Z) →
  analyse_chunks llm self chunks sched w = Some (outcome, w2) →
  outcome = Ok (imap (_analyze_chunk llm self) chunks)
  ∧ reported w2 = reported w ++ (if notifying self then seq 1 (length chunks) else []).
Proof.
  unfold analyse_chunks, concurrent. intros Hc.
  destruct (str_eqb (mode self) (lit "concurrent")).
  - unfold _analyze_concurrent. specialize (Hc eq_refl).
    destruct (concurrency self <? 0)%Z eqn:Hneg; [apply Z.ltb_lt in Hneg; lia|].
    destruct (run_schedule llm self chunks sched (cinit self chunks w)) as [s|] eqn:Hrun; [|done].
    destruct (gather (tasks s)) as [rs|] eqn:Hg; [|done]. intros [= <- <-].
    assert (Hinv : inv llm self chunks w s).
    { eapply inv_run; [apply inv_init|exact Hrun]. }
    split; [f_equal; by eapply gather_results|].
    rewrite (inv_rep _ _ _ _ _ Hinv), <- (inv_len _ _ _ _ _ Hinv).
    rewrite (gather_Some _ _ Hg), length_map. by rewrite count_by_done.
  - rewrite sequential_spec. intros [= <- <-]. split; [done|].
    by rewrite reported_app, reported_sequential_trace.
Qed.

Lemma analyse_chunks_sequential self chunks sched w :
  concurrent self = false →
  analyse_chunks llm self chunks sched w
  = Some (Ok (imap (_analyze_chunk llm self) chunks), w ++ sequential_trace self chunks).
Proof.
  unfold analyse_chunks, concurrent. intros ->. by rewrite sequential_spec.
Qed.

Lemma analyse_chunks_returns self chunks w :
  (concurrent self = true → (1 ≤ concurrency self)%Z) →
  ∃ sched w2,
    analyse_chunks llm self chunks sched w
    = Some (Ok (imap (_analyze_chunk llm self) chunks), w2).
Proof.
  intros Hc. destruct (concurrent self) eqn:Hmode.
  - specialize (Hc eq_refl).
    destruct (can_finish llm self chunks w (cinit self chunks w)) as (sched & s & Hrun & [rs Hg]);
      [apply inv_init|done|].
    exists sched, (trace s). unfold analyse_chunks. unfold concurrent in Hmode. rewrite Hmode.
    unfold _analyze_concurrent.
    destruct (concurrency self <? 0)%Z eqn:Hneg; [apply Z.ltb_lt in Hneg; lia|].
    rewrite Hrun, Hg. do 3 f_equal. eapply gather_results; [|exact Hg].
    eapply inv_run; [apply inv_init|exact Hrun].
  - exists [], (w ++ sequential_trace self chunks). by apply analyse_chunks_sequential.
Qed.

Lemma summarize_text self analyses w :
  (_summarize llm self analyses w).1 = (_summarize llm self analyses []).1.
Proof.
  unfold _summarize. destruct analyses as [|a [|b rest]]; try done;
    by destruct (llm _) as [[?|]|?].
Qed.

Lemma summarize_reported self analyses w :
  reported (_summarize llm self analyses w).2 = reported w.
Proof.
  unfold _summarize. destruct analyses as [|a [|b rest]]; try done;
    destruct (llm _) as [[?|]|?]; cbn [snd]; rewrite reported_app; cbn;
    by rewrite app_nil_r.
Qed.

Lemma summarize_calls self analyses w :
  count_events is_summary_call (_summarize llm self analyses w).2
  = count_events is_summary_call w + match analyses with [_] => 0 | _ => 1 end.
Proof.
  unfold _summarize. destruct analyses as [|a [|b rest]]; cbn [snd]; try lia;
    destruct (llm _) as [[?|]|?]; cbn [snd]; by rewrite count_events_snoc.
Qed.

(** [analyze] on a text that is not blank and can be chunked. *)
Lemma analyze_outcome self data sched w outcome w' chunks :
  strip (log_text data) ≠ [] →
  _chunk_logs (chunk_size self) (log_text data) = Ok chunks →
  (concurrent self = true → (0 ≤ concurrency self)%Z) →
  analyze llm self data sched w = Some (outcome, w') →
  outcome = Ok (report_text llm self (imap (_analyze_chunk llm self) chunks))
  ∧ reported w'
    = reported w ++ (if notifying self
                     then 0 :: seq 1 (length chunks) ++ [length chunks] else [])
  ∧ count_events is_summary_call w'
    = count_events is_summary_call w
      + match noise_filter (imap (_analyze_chunk llm self) chunks) with
        | [] | [_] => 0
        | _ => 1
        end.
Proof.
  intros Hne Hchunks Hc. unfold analyze, _analyze_async.
  destruct (strip (log_text data)) eqn:Hs; [done|]. cbn [is_empty]. rewrite Hchunks.
  destruct (analyse_chunks llm self chunks sched (notify self (length chunks) 0 w))
    as [[o w2]|] eqn:Hphase; [|done].
  pose proof (analyse_chunks_outcome _ _ _ _ _ _ Hc Hphase) as [-> Hrep].
  apply analyse_chunks_calls in Hphase as [Hsum _].
  rewrite reported_notify in Hrep.
  rewrite (count_events_notify self) in Hsum by done.
  unfold report_text.
  set (valid := noise_filter (imap (_analyze_chunk llm self) chunks)) in *.
  assert (Hrep3 : reported (notify self (length chunks) (length chunks) w2)
                  = reported w ++ (if notifying self
                                   then 0 :: seq 1 (length chunks) ++ [length chunks] else [])).
  { rewrite reported_notify, Hrep. destruct (notifying self).
    - rewrite <- !app_assoc. done.
    - by rewrite !app_nil_r. }
  destruct valid as [|a rest] eqn:Hvalid; cbn [is_empty].
  - intros [= <- <-]. split; [done|]. split; [done|].
    rewrite (count_events_notify self) by done. lia.
  - destruct (_summarize llm self (a :: rest) (notify self (length chunks) (length chunks) w2))
      as [summary w4] eqn:Hsummary.
    intros [= <- <-].
    pose proof (summarize_text self (a :: rest)
                  (notify self (length chunks) (length chunks) w2)) as Htext.
    pose proof (summarize_reported self (a :: rest)
                  (notify self (length chunks) (length chunks) w2)) as Hrep4.
    pose proof (summarize_calls self (a :: rest)
                  (notify self (length chunks) (length chunks) w2)) as Hcalls.
    rewrite Hsummary in Htext, Hrep4, Hcalls. cbn [fst snd] in *.
    split; [by rewrite Htext|]. split; [by rewrite Hrep4|].
    rewrite Hcalls, (count_events_notify self) by done. rewrite Hsum.
    by destruct rest.
Qed.

Lemma analyze_returns self data w chunks :
  strip (log_text data) ≠ [] →
  _chunk_logs (chunk_size self) (log_text data) = Ok chunks →
  (concurrent self = true → (1 ≤ concurrency self)%Z) →
  ∃ sched w',
    analyze llm self data sched w
    = Some (Ok (report_text llm self (imap (_analyze_chunk llm self) chunks)), w').
Proof.
  intros Hne Hchunks Hc.
  destruct (analyse_chunks_returns self chunks (notify self (length chunks) 0 w) Hc)
    as (sched & w2 & Hphase).
  assert (Hsome : ∃ r, analyze llm self data sched w = Some r).
  { unfold analyze, _analyze_async.
    destruct (strip (log_text data)) eqn:Hs; [done|]. cbn [is_empty].
    rewrite Hchunks, Hphase. destruct (is_empty _); [by eexists|].
    destruct (_summarize _ _ _ _). by eexists. }
  destruct Hsome as [[outcome w'] Hrun]. exists sched, w'.
  destruct (analyze_outcome self data sched w outcome w' chunks) as (-> & _); try done.
  intros Hm. specialize (Hc Hm). lia.
Qed.

Lemma analyze_returns_sequential self data sched w chunks :
  strip (log_text data) ≠ [] →
  _chunk_logs (chunk_size self) (log_text data) = Ok chunks →
  concurrent self = false →
  ∃ w',
    analyze llm self data sched w
    = Some (Ok (report_text llm self (imap (_analyze_chunk llm self) chunks)), w').
Proof.
  intros Hne Hchunks Hm.
  assert (Hsome : ∃ r, analyze llm self data sched w = Some r).
  { unfold analyze, _analyze_async.
    destruct (strip (log_text data)) eqn:Hs; [done|]. cbn [is_empty].
    rewrite Hchunks, analyse_chunks_sequential by done. destruct (is_empty _); [by eexists|].
    destruct (_summarize _ _ _ _). by eexists. }
  destruct Hsome as [[outcome w'] Hrun]. exists w'.
  destruct (analyze_outcome self data sched w outcome w' chunks) as (-> & _); try done.
  by rewrite Hm.
Qed.

End WithLLM.

Lemma strip_length_le s : length (strip s) ≤ length s.
Proof.
  assert (Hl : ∀ t, length (lstrip t) ≤ length t).
  { induction t as [|c t IH]; [done|]. simpl. destruct (isspace c); simpl; lia. }
  unfold strip, rstrip. rewrite length_rev.
  etrans; [apply Hl|]. rewrite length_rev. apply Hl.
Qed.

Lemma skipped_short a : length (strip a) < 50 → skipped a = true.
Proof.
  intros H. unfold skipped. destruct (_ || _); [done|]. destruct (_ || _); [done|].
  apply Nat.ltb_lt in H. by rewrite H.
Qed.

Lemma noise_filter_all_skipped analyses :
  Forall (λ a, skipped a = true) analyses → noise_filter analyses = [].
Proof.
  rewrite LogAnalyzerFacts.noise_filter_spec.
  induction 1 as [|a rest Ha _ IH]; [done|]. simpl. by rewrite Ha.
Qed.

Lemma contains_join sep (parts : list str) a :
  a ∈ parts → contains a (join sep parts) = true.
Proof.
  induction parts as [|p parts IH]; intros Hin; [by apply elem_of_nil in Hin|].
  destruct parts as [|q parts].
  - apply list_elem_of_singleton in Hin as ->. simpl.
    rewrite <- (app_nil_r p) at 2. apply contains_here, startswith_app.
  - rewrite join_cons. apply elem_of_cons in Hin as [->|Hin].
    + apply contains_here, startswith_app.
    + rewrite app_assoc. by apply contains_app_r, IH.
Qed.

(** X4: sequential mode analyses the chunks one after the other: the
    result is the list of per-chunk analyses in chunk order, and the
    effects are, chunk by chunk, the request for the chunk followed by
    the progress report "i + 1 of N" (if reports are made), so that the
    reported counts are 1, 2, ..., N and there is one request per
    chunk. *)
Theorem sequential_in_order llm (self : LangGraphAnalyzer) (chunks : list str) (w : world) :
  _analyze_sequential llm self chunks w
  = (imap (_analyze_chunk llm self) chunks, w ++ sequential_trace self chunks)
  ∧ reported (sequential_trace self chunks)
    = (if notifying self then seq 1 (length chunks) else [])
  ∧ count_events is_chunk_call (sequential_trace self chunks) = length chunks.
Proof.
  split; [apply sequential_spec|]. split; [apply reported_sequential_trace|].
  pose proof (sequential_spec llm self chunks []) as Hspec. unfold _analyze_sequential in Hspec.
  destruct (sequential_loop_calls llm self (length chunks) chunks 0 [] []
              (imap (_analyze_chunk llm self) chunks) (sequential_trace self chunks) Hspec)
    as [_ Hcalls].
  exact Hcalls.
Qed.

(** X5: the report does not depend on the mode. Whatever a completed
    concurrent run returns, under any schedule, a run in any other mode
    (all of which are sequential) returns as well, with the same
    progress reports. *)
Theorem analyze_mode_independent llm (self : LangGraphAnalyzer) (m : str)
    (data : py_data) (sched : list nat) (w w1 : world) (outcome : py_result str) :
  str_eqb m (lit "concurrent") = false →
  (0 ≤ concurrency self)%Z →
  analyze llm (with_mode (lit "concurrent") self) data sched w = Some (outcome, w1) →
  ∃ w2, analyze llm (with_mode m self) data [] w = Some (outcome, w2)
        ∧ reported w2 = reported w1
        ∧ count_events is_summary_call w2 = count_events is_summary_call w1.
Proof.
  intros Hm Hc Hrun.
  destruct (strip (log_text data)) as [|c rest] eqn:Hs.
  { unfold analyze, _analyze_async in *. rewrite Hs in *. cbn [is_empty] in *.
    injection Hrun as <- <-. by exists w. }
  assert (Hne : strip (log_text data) ≠ []) by (by rewrite Hs).
  destruct (_chunk_logs (chunk_size self) (log_text data)) as [chunks|e] eqn:Hchunks.
  - destruct (analyze_outcome llm (with_mode (lit "concurrent") self) data sched w
                outcome w1 chunks Hne Hchunks) as (-> & Hrep1 & Hsum1); [done|exact Hrun|].
    destruct (analyze_returns_sequential llm (with_mode m self) data [] w chunks Hne Hchunks)
      as [w2 Hrun2]; [exact Hm|].
    exists w2. split; [exact Hrun2|].
    destruct (analyze_outcome llm (with_mode m self) data [] w
                (Ok (report_text llm (with_mode m self)
                       (imap (_analyze_chunk llm (with_mode m self)) chunks)))
                w2 chunks Hne Hchunks)
      as (_ & Hrep2 & Hsum2); [by unfold concurrent; cbn [with_mode mode]; rewrite Hm|exact Hrun2|].
    split; [by rewrite Hrep1, Hrep2|]. by rewrite Hsum1, Hsum2.
  - unfold analyze, _analyze_async in *. rewrite Hs in *. cbn [is_empty] in *.
    cbn [with_mode chunk_size] in *. rewrite Hchunks in *.
    injection Hrun as <- <-. by exists w.
Qed.

Lemma analyze_mode_independent_witness :
  ∃ w2, analyze last_chunk_llm (with_mode (lit "sequential") (small_chunks (lit "concurrent")))
          three_line_log [] [] = Some (Ok FINDING, w2)
        ∧ reported w2 = [0; 1; 2; 3; 3]
        ∧ count_events is_summary_call w2 = 0.
Proof.
  destruct (analyze_mode_independent last_chunk_llm (small_chunks (lit "concurrent"))
              (lit "sequential") three_line_log overtaking []
              (default [] (snd <$> analyze last_chunk_llm
                                     (with_mode (lit "concurrent") (small_chunks (lit "concurrent")))
                                     three_line_log overtaking []))
              (Ok FINDING))
    as (w2 & Hrun & Hrep & Hsum).
  - vm_compute. reflexivity.
  - vm_compute. discriminate.
  - vm_compute. reflexivity.
  - exists w2. split; [exact Hrun|]. split.
    + rewrite Hrep. vm_compute. reflexivity.
    + rewrite Hsum. vm_compute. reflexivity.
Defined.

(** X6: on a text that is not blank, every completed run of [analyze],
    in either mode and under any schedule, has reported through the
    callback exactly 0, then 1, 2, ..., N, then N once more, N being the
    number of chunks; nothing is reported when no callback was given or
    the run id is unset or 0. With a bound of at least one, or in
    sequential mode, a completed run exists. *)
Theorem analyze_progress_reports llm (self : LangGraphAnalyzer) (data : py_data)
    (w : world) (chunks : list str) :
  strip (log_text data) ≠ [] →
  _chunk_logs (chunk_size self) (log_text data) = Ok chunks →
  (concurrent self = true → (1 ≤ concurrency self)%Z) →
  (∃ sched outcome w', analyze llm self data sched w = Some (outcome, w'))
  ∧ ∀ sched outcome w',
      analyze llm self data sched w = Some (outcome, w') →
      reported w'
      = reported w ++ (if notifying self
                       then 0 :: seq 1 (length chunks) ++ [length chunks] else []).
Proof.
  intros Hne Hchunks Hc. split.
  - destruct (analyze_returns llm self data w chunks Hne Hchunks Hc) as (sched & w' & Hrun).
    eexists sched, _, w'. exact Hrun.
  - intros sched outcome w' Hrun.
    destruct (analyze_outcome llm self data sched w outcome w' chunks Hne Hchunks)
      as (_ & Hrep & _); [|done|done].
    intros Hm. specialize (Hc Hm). lia.
Qed.

Lemma analyze_progress_reports_witness :
  ∃ sched outcome w',
    analyze last_chunk_llm (small_chunks (lit "concurrent")) three_line_log sched []
    = Some (outcome, w')
    ∧ reported w' = [0; 1; 2; 3; 3].
Proof.
  destruct (analyze_progress_reports last_chunk_llm (small_chunks (lit "concurrent"))
              three_line_log [] [forty; forty; forty])
    as [(sched & outcome & w' & Hrun) Hall].
  - vm_compute. discriminate.
  - vm_compute. reflexivity.
  - intros _. vm_compute. discriminate.
  - exists sched, outcome, w'. split; [exact Hrun|]. exact (Hall sched outcome w' Hrun).
Defined.

(** X7: when every per-chunk request fails with a message of fewer than
    44 characters (as "Connection error." or "Request timed out." are),
    each analysis is the text "分析失败: ..." of fewer than 50 characters,
    which the noise filter drops: [analyze] then returns the "no errors
    found" report, without a synthesis request, in every completed run. *)
Theorem analyze_outage_reports_no_errors llm (self : LangGraphAnalyzer) (data : py_data)
    (w : world) (chunks : list str) :
  strip (log_text data) ≠ [] →
  _chunk_logs (chunk_size self) (log_text data) = Ok chunks →
  (concurrent self = true → (1 ≤ concurrency self)%Z) →
  (∀ i chunk, chunks !! i = Some chunk →
     ∃ e, llm (chunk_request self i chunk) = Raise e ∧ length (exn_msg e) < 44) →
  (∃ sched w', analyze llm self data sched w = Some (Ok NO_ERRORS_REPORT, w'))
  ∧ ∀ sched outcome w',
      analyze llm self data sched w = Some (outcome, w') →
      outcome = Ok NO_ERRORS_REPORT
      ∧ count_events is_summary_call w' = count_events is_summary_call w.
Proof.
  intros Hne Hchunks Hc Hfail.
  assert (Hnone : noise_filter (imap (_analyze_chunk llm self) chunks) = []).
  { apply noise_filter_all_skipped, Forall_forall. intros a Ha.
    apply elem_of_lookup_imap in Ha as (i & chunk & -> & Hi).
    destruct (Hfail i chunk Hi) as (e & He & Hlen).
    apply skipped_short. unfold _analyze_chunk. rewrite He.
    eapply Nat.le_lt_trans; [apply strip_length_le|].
    rewrite length_app. change (length FAILED) with 6. lia. }
  assert (Htext : report_text llm self (imap (_analyze_chunk llm self) chunks)
                  = NO_ERRORS_REPORT).
  { unfold report_text. by rewrite Hnone. }
  split.
  - destruct (analyze_returns llm self data w chunks Hne Hchunks Hc) as (sched & w' & Hrun).
    exists sched, w'. by rewrite <- Htext.
  - intros sched outcome w' Hrun.
    destruct (analyze_outcome llm self data sched w outcome w' chunks Hne Hchunks)
      as (-> & _ & Hsum); [|done|].
    { intros Hm. specialize (Hc Hm). lia. }
    rewrite Htext, Hsum, Hnone. split; [done|lia].
Qed.

Lemma analyze_outage_reports_no_errors_witness :
  ∃ sched w',
    analyze unreachable_llm (small_chunks (lit "sequential")) three_line_log sched []
    = Some (Ok NO_ERRORS_REPORT, w').
Proof.
  destruct (analyze_outage_reports_no_errors unreachable_llm (small_chunks (lit "sequential"))
              three_line_log [] [forty; forty; forty]) as [Hex _].
  - vm_compute. discriminate.
  - vm_compute. reflexivity.
  - vm_compute. discriminate.
  - intros i chunk _. eexists. split; [reflexivity|]. vm_compute. lia.
  - exact Hex.
Defined.

(** X8: when two or more analyses survive the noise filter and the
    synthesis request fails or comes back without content, [analyze]
    does not fail: every completed run returns the surviving analyses
    joined by the separator line, so that each of them stands in the
    report word for word, after exactly one synthesis request. *)
Theorem analyze_summary_fallback llm (self : LangGraphAnalyzer) (data : py_data)
    (w : world) (chunks valid : list str) :
  strip (log_text data) ≠ [] →
  _chunk_logs (chunk_size self) (log_text data) = Ok chunks →
  (concurrent self = true → (1 ≤ concurrency self)%Z) →
  noise_filter (imap (_analyze_chunk llm self) chunks) = valid →
  2 ≤ length valid →
  (∃ e, llm (summary_request self valid) = Raise e) ∨ llm (summary_request self valid) = Ok None →
  (∃ sched w', analyze llm self data sched w = Some (Ok (join SEPARATOR valid), w'))
  ∧ (∀ sched outcome w',
       analyze llm self data sched w = Some (outcome, w') →
       outcome = Ok (join SEPARATOR valid)
       ∧ count_events is_summary_call w' = count_events is_summary_call w + 1)
  ∧ ∀ a, a ∈ valid → contains a (join SEPARATOR valid) = true.
Proof.
  intros Hne Hchunks Hc Hvalid Hlen Hfail.
  assert (Htext : report_text llm self (imap (_analyze_chunk llm self) chunks)
                  = join SEPARATOR valid).
  { unfold report_text. rewrite Hvalid.
    destruct valid as [|a [|b rest]]; [simpl in Hlen; lia|simpl in Hlen; lia|].
    cbn [is_empty]. unfold _summarize. unfold summary_request in Hfail.
    destruct Hfail as [[e ->]| ->]; done. }
  split; [|split].
  - destruct (analyze_returns llm self data w chunks Hne Hchunks Hc) as (sched & w' & Hrun).
    exists sched, w'. by rewrite <- Htext.
  - intros sched outcome w' Hrun.
    destruct (analyze_outcome llm self data sched w outcome w' chunks Hne Hchunks)
      as (-> & _ & Hsum); [|done|].
    { intros Hm. specialize (Hc Hm). lia. }
    rewrite Htext, Hsum, Hvalid. split; [done|].
    destruct valid as [|a [|b rest]]; simpl in Hlen; lia.
  - intros a. apply contains_join.
Qed.

Lemma analyze_summary_fallback_witness :
  ∃ sched w',
    analyze no_summary_llm (small_chunks (lit "sequential")) three_line_log sched []
    = Some (Ok (join SEPARATOR [FINDING; FINDING; FINDING]), w').
Proof.
  destruct (analyze_summary_fallback no_summary_llm (small_chunks (lit "sequential"))
              three_line_log [] [forty; forty; forty] [FINDING; FINDING; FINDING])
    as [Hex _].
  - vm_compute. discriminate.
  - vm_compute. reflexivity.
  - vm_compute. discriminate.
  - vm_compute. reflexivity.
  - simpl. lia.
  - left. eexists. reflexivity.
  - exact Hex.
Defined.

Lemma chunk_logs_nonempty chunk_size logs chunks :
  _chunk_logs chunk_size logs = Ok chunks → chunks ≠ [].
Proof.
  intros Hrun.
  destruct (decide (forallb encodable logs = true)) as [Henc|Henc].
  - apply forallb_encodable in Henc.
    destruct (chunk_logs_groups chunk_size logs Henc) as (groups & Hg & Hcat & _).
    rewrite Hg in Hrun. injection Hrun as <-. destruct groups; [|done].
    simpl in Hcat. symmetry in Hcat. by destruct (split_nonempty NL logs).
  - apply not_true_is_false in Henc.
    destruct (chunk_logs_unencodable_raises chunk_size logs Henc) as (e & He & _). congruence.
Qed.

Lemma cstep_no_permit llm self chunks w i :
  concurrency self = 0%Z → cstep llm self chunks i (cinit self chunks w) = None.
Proof.
  intros H0. unfold cstep, cinit. cbn [tasks permits]. rewrite H0. cbn [Z.to_nat].
  rewrite list_lookup_fmap. destruct (chunks !! i) as [chunk|]; done.
Qed.

(** X9: in concurrent mode with [concurrency] 0 the semaphore never
    lets a task in: on a text that is not blank no schedule completes,
    [analyze] does not return. *)
Theorem analyze_zero_concurrency_hangs llm (self : LangGraphAnalyzer) (data : py_data)
    (sched : list nat) (w : world) :
  concurrent self = true →
  concurrency self = 0%Z →
  strip (log_text data) ≠ [] →
  forallb encodable (log_text data) = true →
  analyze llm self data sched w = None.
Proof.
  intros Hm H0 Hne Henc. unfold analyze, _analyze_async.
  destruct (strip (log_text data)) eqn:Hs; [done|]. cbn [is_empty].
  apply forallb_encodable in Henc.
  destruct (chunk_logs_groups (chunk_size self) (log_text data) Henc)
    as (groups & Hrun & _).
  pose proof (chunk_logs_nonempty _ _ _ Hrun) as Hnil. rewrite Hrun.
  unfold analyse_chunks. unfold concurrent in Hm. rewrite Hm.
  unfold _analyze_concurrent. rewrite H0. cbn [Z.ltb Z.compare].
  destruct sched as [|i rest].
  - cbn [run_schedule cinit tasks].
    destruct (map (join [NL]) groups) as [|chunk0 cs]; [done|]. done.
  - cbn [run_schedule]. by rewrite cstep_no_permit.
Qed.

Lemma analyze_zero_concurrency_hangs_witness :
  analyze stub_llm (with_concurrency 0 (small_chunks (lit "concurrent")))
    three_line_log overtaking [] = None.
Proof.
  apply analyze_zero_concurrency_hangs.
  - vm_compute. reflexivity.
  - reflexivity.
  - vm_compute. discriminate.
  - vm_compute. reflexivity.
Defined.

(** X10: in concurrent mode with a negative [concurrency] the
    semaphore cannot be created: on a text that is not blank [analyze]
    raises [ValueError] after the first progress report "0 of N",
    without having sent a request. *)
Theorem analyze_negative_concurrency_raises llm (self : LangGraphAnalyzer) (data : py_data)
    (sched : list nat) (w : world) (chunks : list str) :
  concurrent self = true →
  (concurrency self < 0)%Z →
  strip (log_text data) ≠ [] →
  _chunk_logs (chunk_size self) (log_text data) = Ok chunks →
  analyze llm self data sched w
  = Some (Raise (Exn ValueError (lit "Semaphore initial value must be >= 0")),
          notify self (length chunks) 0 w).
Proof.
  intros Hm Hneg Hne Hchunks. unfold analyze, _analyze_async.
  destruct (strip (log_text data)) eqn:Hs; [done|]. cbn [is_empty].
  rewrite Hchunks. unfold analyse_chunks. unfold concurrent in Hm. rewrite Hm.
  unfold _analyze_concurrent. apply Z.ltb_lt in Hneg. by rewrite Hneg.
Qed.

Lemma analyze_negative_concurrency_raises_witness :
  analyze stub_llm (with_concurrency (-1) (small_chunks (lit "concurrent")))
    three_line_log [] []
  = Some (Raise (Exn ValueError (lit "Semaphore initial value must be >= 0")),
          [Progress 7 3 0]).
Proof.
  apply (analyze_negative_concurrency_raises stub_llm
           (with_concurrency (-1) (small_chunks (lit "concurrent")))
           three_line_log [] [] [forty; forty; forty]).
  - vm_compute. reflexivity.
  - reflexivity.
  - vm_compute. discriminate.
  - vm_compute. reflexivity.
Defined.

(** X11: a text that is not blank and holds a code point UTF-8 cannot
    encode makes [analyze] raise [UnicodeEncodeError] in either mode,
    before any progress report and any request. *)
Theorem analyze_unencodable_raises llm (self : LangGraphAnalyzer) (data : py_data)
    (sched : list nat) (w : world) :
  strip (log_text data) ≠ [] →
  forallb encodable (log_text data) = false →
  ∃ e, analyze llm self data sched w = Some (Raise e, w)
       ∧ exn_type e = UnicodeEncodeError.
Proof.
  intros Hne Hbad. unfold analyze, _analyze_async.
  destruct (strip (log_text data)) eqn:Hs; [done|]. cbn [is_empty].
  destruct (chunk_logs_unencodable_raises (chunk_size self) (log_text data) Hbad)
    as (e & -> & He).
  by exists e.
Qed.

Lemma analyze_unencodable_raises_witness :
  ∃ e, analyze stub_llm (example_analyzer (lit "concurrent")) (DStr with_surrogate) [] []
       = Some (Raise e, [])
       ∧ exn_type e = UnicodeEncodeError.
Proof.
  apply (analyze_unencodable_raises stub_llm (example_analyzer (lit "concurrent"))
           (DStr with_surrogate) [] []).
  - vm_compute. discriminate.
  - vm_compute. reflexivity.
Defined.

End AnalysisFacts.

(** ** The life of an executor (database variant) *)

Module DbLifeFacts.
Import DbAnalyzer Configuration ConfigurationFacts DbExecutor DbLife.

#[local] Opaque lit str_of_Z.

Ltac db_run_steps :=
  cbv beta iota delta [mbind mret M_bind M_ret lift update_run put_report].

Ltac db_frame :=
  unfold touches_only, set_runs, set_reports;
  cbn [config runs reports _run_id_counter];
  split; [done|]; split; [done|]; split;
  [ intros k Hk; rewrite ?lookup_alter_ne by congruence; done
  | intros k Hk; rewrite ?lookup_insert_ne by congruence; done ].

Ltac db_lookup Hri :=
  unfold set_runs, set_reports; cbn [runs reports];
  rewrite ?lookup_alter_eq, ?Hri; cbn [fmap option_fmap option_map]; reflexivity.

Section DbRun.

Variable construct_source : str → list (str * scalar) → py_result Source.
Variable construct_analyzer : list (str * scalar) → py_result LangGraphAnalyzer.
Variable construct_sink : list (str * scalar) → py_result Sink.
Variable json_dumps : db_data → str.
Variable llm : str → llm_outcome.
Variable render_report : str → db_data → py_result str.

Abbreviation db_try :=
  (try_block construct_source construct_analyzer construct_sink json_dumps llm render_report).
Abbreviation db_run :=
  (_run_task construct_source construct_analyzer construct_sink json_dumps llm render_report).

Lemma save_all_keeps sinks result st : save_all sinks result st = (Ok tt, st).
Proof. induction sinks as [|s sinks IH]; simpl; [done|]. by destruct (save s result). Qed.

Lemma analyze_returns_text an now data :
  ∃ content, analyze json_dumps llm render_report an now data = Ok content.
Proof.
  unfold analyze, _analyze_async. destruct (attempt _ _ _ _ _); by eexists.
Qed.

(** What the [try] block leaves behind, however it ends. *)
Lemma try_block_effect clk run_id name cfg st ri0 r st' :
  runs st !! run_id = Some ri0 →
  db_try clk run_id name cfg st = (r, st') →
  touches_only run_id (report_key clk name) st st'
  ∧ ∃ ri1,
      runs st' !! run_id = Some ri1 ∧ same_run ri0 ri1
      ∧ match r with
        | Ok _ =>
          finished_at ri1 = Some (finished_at_time clk)
          ∧ (completed ri1 ∧ error ri1 = error ri0 ∨ failed ri1)
          ∧ report_id ri1 = Some (report_key clk name)
          ∧ is_Some (reports st' !! report_key clk name)
        | Raise _ => reports st' = reports st
        end.
Proof.
  intros Hri. unfold try_block, on_connection_error. db_run_steps.
  destruct (subscript (lit "source") (tc_source cfg)) as [scfg|e1]; db_run_steps;
    [|intros [= <- <-]; split; [db_frame|eexists; split; [db_lookup Hri|by repeat split]]].
  destruct (create_source construct_source scfg) as [src|e1]; db_run_steps;
    [|intros [= <- <-]; split; [db_frame|eexists; split; [db_lookup Hri|by repeat split]]].
  destruct (subscript (lit "analyzer") (tc_analyzer cfg)) as [acfg|e1]; db_run_steps;
    [|intros [= <- <-]; split; [db_frame|eexists; split; [db_lookup Hri|by repeat split]]].
  destruct (create_analyzer construct_analyzer acfg) as [an|e1]; db_run_steps;
    [|intros [= <- <-]; split; [db_frame|eexists; split; [db_lookup Hri|by repeat split]]].
  destruct (collect src) as [data|e1]; db_run_steps.
  - destruct (analyze json_dumps llm render_report an _ data) as [res|e2]; db_run_steps;
      [|intros [= <- <-]; split; [db_frame|eexists; split; [db_lookup Hri|by repeat split]]].
    rewrite save_all_keeps. db_run_steps.
    intros [= <- <-]. split; [db_frame|]. eexists. split; [db_lookup Hri|].
    split; [by repeat split|]. split; [done|]. split; [left; by repeat split|].
    split; [done|]. unfold set_runs, set_reports. cbn [reports].
    by rewrite lookup_insert_eq.
  - destruct (isinstance (exn_type e1) ConnectionError); db_run_steps;
      [|intros [= <- <-]; split; [db_frame|eexists; split; [db_lookup Hri|by repeat split]]].
    destruct (create_analyzer construct_analyzer _) as [an'|e2]; db_run_steps;
      [|intros [= <- <-]; split; [db_frame|eexists; split; [db_lookup Hri|by repeat split]]].
    rewrite save_all_keeps.
    intros [= <- <-]. split; [db_frame|]. eexists. split; [db_lookup Hri|].
    split; [by repeat split|]. split; [done|]. split; [right; by repeat split|].
    split; [done|]. unfold set_runs, set_reports. cbn [reports].
    by rewrite lookup_insert_eq.
Qed.

(** What [_run_task] leaves behind for a run that is registered. *)
Lemma run_task_effect clk run_id name cfg st ri0 :
  runs st !! run_id = Some ri0 →
  ∃ st' ri,
    db_run clk run_id name cfg st = (Ok tt, st')
    ∧ touches_only run_id (report_key clk name) st st'
    ∧ runs st' !! run_id = Some ri
    ∧ same_run ri0 ri
    ∧ finished_at ri = Some (finished_at_time clk)
    ∧ (completed ri
       ∧ report_id ri = Some (report_key clk name)
       ∧ is_Some (reports st' !! report_key clk name)
       ∨ failed ri).
Proof.
  intros Hri. unfold _run_task. rewrite Hri.
  destruct (db_try clk run_id name cfg st) as [r st1] eqn:Htry.
  destruct (try_block_effect clk run_id name cfg st ri0 r st1 Hri Htry)
    as (Hframe & ri1 & Hri1 & Hsame & Hend).
  destruct r as [[]|e].
  - exists st1, ri1. destruct Hend as (Hfin & Hstatus & Hrep & Hsome).
    split; [done|]. split; [done|]. split; [done|]. split; [done|]. split; [done|].
    destruct Hstatus as [[Hc _]|Hf]; [by left|by right].
  - eexists _, (mark_failed (finished_at_time clk) (exn_msg e) ri1).
    split; [reflexivity|]. split; [|split; [|split; [|split]]].
    + destruct Hframe as (Hcfg & Hcount & Hruns & Hreps).
      unfold touches_only, set_runs. cbn [config runs reports _run_id_counter].
      split; [done|]. split; [done|]. split; [|done].
      intros k Hk. rewrite lookup_alter_ne by congruence. by apply Hruns.
    + unfold set_runs. cbn [runs]. by rewrite lookup_alter_eq, Hri1.
    + exact Hsame.
    + reflexivity.
    + right. by repeat split.
Qed.

End DbRun.

(** X12: [_run_task] on a registered run never raises and always ends
    the run: the run is then either completed, with a report recorded
    under its [report_id], or failed with an error message; its finish
    time is set; its id, task name and start time are as [_create_run]
    wrote them; and nothing else of the executor has changed except the
    report under the key "timestamp_taskname": the other runs, the
    counter and the configuration are as before. *)
Theorem db_run_ends_terminal
    (construct_source : str → list (str * scalar) → py_result Source)
    (construct_analyzer : list (str * scalar) → py_result LangGraphAnalyzer)
    (construct_sink : list (str * scalar) → py_result Sink)
    (json_dumps : db_data → str) (llm : str → llm_outcome)
    (render_report : str → db_data → py_result str)
    (clk : clock) (run_id : Z) (name : str) (cfg : task_config)
    (st : TaskExecutor) (ri0 : run_info) :
  get_run st run_id = Some ri0 →
  ∃ st' ri,
    _run_task construct_source construct_analyzer construct_sink json_dumps llm
      render_report clk run_id name cfg st = (Ok tt, st')
    ∧ touches_only run_id (report_key clk name) st st'
    ∧ get_run st' run_id = Some ri
    ∧ same_run ri0 ri
    ∧ finished_at ri = Some (finished_at_time clk)
    ∧ (completed ri
       ∧ report_id ri = Some (report_key clk name)
       ∧ is_Some (get_report st' (report_key clk name))
       ∨ failed ri).
Proof. apply run_task_effect. Qed.

Lemma db_run_ends_terminal_witness :
  ∃ st' ri,
    _run_task misconfigured_source any_analyzer no_sink (λ _, lit "{}") rejecting_llm
      (λ text _, Ok text) noon 1 (lit "nightly") nightly launched = (Ok tt, st')
    ∧ touches_only 1 (report_key noon (lit "nightly")) launched st'
    ∧ get_run st' 1 = Some ri
    ∧ same_run (new_run 1 (lit "nightly") (lit "2026-01-01T12:00:00")) ri
    ∧ finished_at ri = Some (finished_at_time noon)
    ∧ (completed ri
       ∧ report_id ri = Some (report_key noon (lit "nightly"))
       ∧ is_Some (get_report st' (report_key noon (lit "nightly")))
       ∨ failed ri).
Proof.
  apply (db_run_ends_terminal misconfigured_source any_analyzer no_sink (λ _, lit "{}")
           rejecting_llm (λ text _, Ok text) noon 1 (lit "nightly") nightly launched).
  vm_compute. reflexivity.
Defined.

(** X13: once the plugins are built and [collect] has returned, the run
    ends completed, whatever the endpoint answers and whatever the sinks
    do: the text [analyze] returns, which may be an error report, is
    recorded as the content of the report under "timestamp_taskname",
    the run points at it, and its progress is 100. *)
Theorem db_run_completes
    (construct_source : str → list (str * scalar) → py_result Source)
    (construct_analyzer : list (str * scalar) → py_result LangGraphAnalyzer)
    (construct_sink : list (str * scalar) → py_result Sink)
    (json_dumps : db_data → str) (llm : str → llm_outcome)
    (render_report : str → db_data → py_result str)
    (clk : clock) (run_id : Z) (name : str) (cfg : task_config)
    (st : TaskExecutor) (ri0 : run_info)
    (scfg acfg : plugin_config) (src : Source) (an : LangGraphAnalyzer) (data : db_data) :
  get_run st run_id = Some ri0 →
  tc_source cfg = Some scfg →
  create_source construct_source scfg = Ok src →
  tc_analyzer cfg = Some acfg →
  create_analyzer construct_analyzer acfg = Ok an →
  collect src = Ok data →
  ∃ st' ri rep content,
    _run_task construct_source construct_analyzer construct_sink json_dumps llm
      render_report clk run_id name cfg st = (Ok tt, st')
    ∧ analyze json_dumps llm render_report an (report_time clk) data = Ok content
    ∧ get_run st' run_id = Some ri
    ∧ completed ri
    ∧ finished_at ri = Some (finished_at_time clk)
    ∧ error ri = error ri0
    ∧ report_id ri = Some (report_key clk name)
    ∧ get_report st' (report_key clk name) = Some rep
    ∧ r_content rep = content
    ∧ r_run_id rep = run_id
    ∧ r_task_name rep = name
    ∧ r_database rep = get (database data) (SStr (lit "all")).
Proof.
  intros Hri Hs Hsrc Ha Han Hc. unfold get_run in Hri.
  destruct (analyze_returns_text json_dumps llm render_report an (report_time clk) data)
    as [content Hcontent].
  unfold _run_task. rewrite Hri. unfold try_block. db_run_steps.
  rewrite Hs. cbv beta iota delta [subscript]. rewrite Hsrc, Ha. cbv beta iota.
  rewrite Han, Hc. cbv beta iota. rewrite Hcontent. cbv beta iota.
  rewrite save_all_keeps. cbv beta iota.
  eexists _, _, _, content. split; [reflexivity|]. split; [done|].
  unfold get_run, get_report, set_runs, set_reports. cbn [runs reports].
  rewrite !lookup_alter_eq, Hri, lookup_insert_eq. cbn [fmap option_fmap option_map].
  split; [reflexivity|]. split; [by repeat split|].
  repeat (split; [reflexivity|]). reflexivity.
Qed.

Lemma db_run_completes_witness :
  ∃ st' ri rep content,
    _run_task answering_source any_analyzer full_disk_sink (λ _, lit "{}") rejecting_llm
      (λ text _, Ok text) noon 1 (lit "nightly") nightly_to_file launched = (Ok tt, st')
    ∧ analyze (λ _, lit "{}") rejecting_llm (λ text _, Ok text) example_db_analyzer
        (report_time noon) unreachable_data = Ok content
    ∧ get_run st' 1 = Some ri
    ∧ completed ri
    ∧ finished_at ri = Some (finished_at_time noon)
    ∧ error ri = error (new_run 1 (lit "nightly") (lit "2026-01-01T12:00:00"))
    ∧ report_id ri = Some (report_key noon (lit "nightly"))
    ∧ get_report st' (report_key noon (lit "nightly")) = Some rep
    ∧ r_content rep = content
    ∧ r_run_id rep = 1%Z
    ∧ r_task_name rep = lit "nightly"
    ∧ r_database rep = get (database unreachable_data) (SStr (lit "all")).
Proof.
  eapply (db_run_completes answering_source any_analyzer full_disk_sink (λ _, lit "{}")
            rejecting_llm (λ text _, Ok text) noon 1 (lit "nightly") nightly_to_file launched).
  - vm_compute. reflexivity.
  - reflexivity.
  - vm_compute. reflexivity.
  - reflexivity.
  - vm_compute. reflexivity.
  - reflexivity.
Defined.

Section Invariant.

Variable construct_source : str → list (str * scalar) → py_result Source.
Variable construct_analyzer : list (str * scalar) → py_result LangGraphAnalyzer.
Variable construct_sink : list (str * scalar) → py_result Sink.
Variable json_dumps : db_data → str.
Variable llm : str → llm_outcome.
Variable render_report : str → db_data → py_result str.

Abbreviation db_perform :=
  (perform construct_source construct_analyzer construct_sink json_dumps llm render_report).

Lemma fresh_well_formed cfg : well_formed (fresh cfg).
Proof.
  unfold well_formed, fresh. cbn [runs _run_id_counter]. split; [done|]. split.
  - intros k. rewrite lookup_empty. split; [by intros [? ?]|lia].
  - intros k ri. by rewrite lookup_empty.
Qed.

Lemma create_run_well_formed name now st :
  well_formed st → well_formed (_create_run name now st).2.
Proof.
  intros (H0 & Hdom & Hid). unfold well_formed, _create_run. cbn [snd runs _run_id_counter].
  split; [lia|]. split.
  - intros k. destruct (decide (k = _run_id_counter st + 1)%Z) as [->|Hne].
    + rewrite lookup_insert_eq. split; [lia|by eexists].
    + rewrite lookup_insert_ne by done. rewrite Hdom. lia.
  - intros k ri. destruct (decide (k = _run_id_counter st + 1)%Z) as [->|Hne].
    + rewrite lookup_insert_eq. by intros [= <-].
    + rewrite lookup_insert_ne by done. apply Hid.
Qed.

Lemma launch_effect name override now st :
  (∃ e, execute_task_async name override now st = (Raise e, st))
  ∨ ∃ tc, execute_task_async name override now st
          = (Ok ((_run_id_counter st + 1)%Z, tc), (_create_run name now st).2).
Proof.
  unfold execute_task_async.
  destruct (resolve override (get_task (config st) name)) as [tc|]; [|left; by eexists].
  destruct (truthy tc); [|left; by eexists]. right. by exists tc.
Qed.

Lemma perform_well_formed st op : well_formed st → well_formed (db_perform st op).
Proof.
  intros Hwf. destruct op as [name override now|clk run_id name tc]; cbn [perform].
  - destruct (launch_effect name override now st) as [[e ->]|[tc ->]]; [done|].
    by apply create_run_well_formed.
  - destruct (runs st !! run_id) as [ri0|] eqn:Hri.
    + destruct (run_task_effect construct_source construct_analyzer construct_sink
                  json_dumps llm render_report clk run_id name tc st ri0 Hri)
        as (st' & ri & -> & (Hcfg & Hcount & Hruns & _) & Hri' & (Hid' & _) & _).
      cbn [snd]. destruct Hwf as (H0 & Hdom & Hid). unfold well_formed.
      rewrite Hcount. split; [done|]. split.
      * intros k. destruct (decide (k = run_id)) as [->|Hne].
        -- rewrite Hri', <- Hdom, Hri. split; by eexists.
        -- rewrite Hruns by done. apply Hdom.
      * intros k ri1. destruct (decide (k = run_id)) as [->|Hne].
        -- rewrite Hri'. intros [= <-]. rewrite Hid'. by apply Hid.
        -- rewrite Hruns by done. apply Hid.
    + unfold _run_task. by rewrite Hri.
Qed.

End Invariant.

(** X14: run ids and records stay in step over the life of an
    executor. After any sequence of launches and thread runs on a new
    executor, the ids in use are exactly 1, ..., counter, none has been
    dropped, and each record carries its own id; a further launch that
    succeeds returns counter + 1, an id not in use, records the run as
    "running" and "queued", and changes neither another run nor a
    report. *)
Theorem executor_ids_in_step
    (construct_source : str → list (str * scalar) → py_result Source)
    (construct_analyzer : list (str * scalar) → py_result LangGraphAnalyzer)
    (construct_sink : list (str * scalar) → py_result Sink)
    (json_dumps : db_data → str) (llm : str → llm_outcome)
    (render_report : str → db_data → py_result str)
    (cfg : Config) (ops : list operation) :
  let st := foldl (perform construct_source construct_analyzer construct_sink
                     json_dumps llm render_report) (fresh cfg) ops in
  well_formed st
  ∧ ∀ name override now run_id tc st',
      execute_task_async name override now st = (Ok (run_id, tc), st') →
      run_id = (_run_id_counter st + 1)%Z
      ∧ get_run st run_id = None
      ∧ get_run st' run_id = Some (new_run run_id name now)
      ∧ (∀ k, k ≠ run_id → get_run st' k = get_run st k)
      ∧ reports st' = reports st
      ∧ well_formed st'.
Proof.
  intros st.
  assert (Hwf : well_formed st).
  { unfold st. clear st. induction ops as [|op ops IH] using rev_ind.
    - apply fresh_well_formed.
    - rewrite foldl_app. cbn [foldl]. by apply perform_well_formed. }
  split; [exact Hwf|]. intros name override now run_id tc st' Hrun.
  destruct (launch_effect name override now st) as [[e He]|[tc' He]];
    rewrite He in Hrun; [done|]. injection Hrun as <- <- <-.
  pose proof (create_run_well_formed name now st Hwf) as Hwf'.
  split; [done|]. unfold get_run. split; [|split; [|split; [|split]]].
  - destruct Hwf as (_ & Hdom & _).
    destruct (runs st !! (_run_id_counter st + 1)%Z) eqn:Hk; [|done].
    assert (is_Some (runs st !! (_run_id_counter st + 1)%Z)) as Hs by (by eexists).
    apply Hdom in Hs. lia.
  - unfold _create_run. cbn [snd runs]. by rewrite lookup_insert_eq.
  - intros k Hk. unfold _create_run. cbn [snd runs]. by rewrite lookup_insert_ne.
  - done.
  - exact Hwf'.
Qed.

(** X15: an override that is not the empty dictionary is taken as the
    task configuration without the configuration being consulted, so a
    launch with it succeeds for every task name, configured or not, in
    both variants; the empty dictionary counts as no override. *)
Theorem override_bypasses_configuration (name now : str) (cfg : task_config) :
  truthy cfg = true →
  (∀ st : DbExecutor.TaskExecutor,
     DbExecutor.execute_task_async name (Some cfg) now st
     = (Ok ((DbExecutor._run_id_counter st + 1)%Z, cfg),
        (DbExecutor._create_run name now st).2)
     ∧ DbExecutor.execute_task_async name (Some empty_override) now st
       = DbExecutor.execute_task_async name None now st)
  ∧ (∀ (get_task : str → option task_config) container (st : LogExecutor.TaskExecutor),
       LogExecutor.execute_task_async get_task name (Some cfg) container now st
       = (Ok ((LogExecutor._run_id_counter st + 1)%Z, cfg),
          (LogExecutor._create_run name container now st).2)
       ∧ LogExecutor.execute_task_async get_task name (Some empty_override) container now st
         = LogExecutor.execute_task_async get_task name None container now st).
Proof.
  intros Ht. split.
  - intros st. split; [|done].
    unfold DbExecutor.execute_task_async, resolve. by rewrite Ht, Ht.
  - intros get_task container st. split; [|done].
    unfold LogExecutor.execute_task_async, resolve. by rewrite Ht, Ht.
Qed.

Lemma override_bypasses_configuration_witness :
  DbExecutor.execute_task_async (lit "weekly") (Some adhoc) (lit "2026-01-01T12:00:05")
    launched
  = (Ok (2%Z, adhoc), (DbExecutor._create_run (lit "weekly") (lit "2026-01-01T12:00:05")
                         launched).2).
Proof.
  exact (proj1 (proj1 (override_bypasses_configuration (lit "weekly")
                         (lit "2026-01-01T12:00:05") adhoc eq_refl) launched)).
Defined.

End DbLifeFacts.

(** ** The life of a run (log variant) *)

Module LogLifeFacts.
Import DbAnalyzer Configuration LogExecutor LogLife SinkViews.

#[local] Opaque lit str_of_Z.

Ltac log_run_steps :=
  cbv beta iota delta [mbind mret M_bind M_ret lift update_run put_report].

Lemma with_progress_same ri : with_progress (progress ri) ri = ri.
Proof. by destruct ri. Qed.

Section LogRun.

Variable percent : nat → nat → Z.
Variable construct_source : str → list (str * scalar) → py_result Source.
Variable construct_analyzer : list (str * scalar) → py_result LogAnalyzer.LangGraphAnalyzer.
Variable construct_sink : str → list (str * scalar) → py_result Sink.
Variable run_analyze : LogAnalyzer.LangGraphAnalyzer → LogAnalyzer.py_data
                       → py_result str * LogAnalyzer.world.

(** The callbacks write the progress of runs and nothing else. *)
Lemma deliver_effect w : ∀ st,
  ∃ st', deliver percent w st = (Ok tt, st')
         ∧ reports st' = reports st
         ∧ _run_id_counter st' = _run_id_counter st
         ∧ (∀ k ri, runs st !! k = Some ri → ∃ p, runs st' !! k = Some (with_progress p ri))
         ∧ (∀ k, runs st !! k = None → runs st' !! k = None).
Proof.
  induction w as [|ev w IH]; intros st.
  - exists st. split; [done|]. split; [done|]. split; [done|]. split; [|done].
    intros k ri Hk. exists (progress ri). by rewrite with_progress_same.
  - destruct ev as [req|r total processed]; cbn [deliver]; [apply IH|].
    log_run_steps. unfold _update_progress.
    destruct (runs st !! r) as [ri0|] eqn:Hr; [|apply IH].
    log_run_steps.
    match goal with |- context [deliver percent w ?s] =>
      destruct (IH s) as (st' & Hrun & Hrep & Hcnt & Hsome & Hnone) end.
    exists st'. split; [exact Hrun|]. split; [by rewrite Hrep|]. split; [by rewrite Hcnt|].
    unfold set_runs in Hsome, Hnone. cbn [runs] in Hsome, Hnone. split.
    + intros k ri Hk. destruct (decide (k = r)) as [->|Hne].
      * destruct (Hsome r (with_progress
                             {| total_chunks := total; processed_chunks := processed;
                                percentage := if 0 <? total then percent processed total
                                              else 0%Z |} ri)) as [p Hp].
        { rewrite lookup_alter_eq, Hk. done. }
        exists p. exact Hp.
      * apply Hsome. by rewrite lookup_alter_ne.
    + intros k Hk. apply Hnone. destruct (decide (k = r)) as [->|Hne].
      * by rewrite lookup_alter_eq, Hk.
      * by rewrite lookup_alter_ne.
Qed.

Lemma insert_twice_lookup (m : gmap str report) k1 k2 r :
  <[k2 := r]> (<[k1 := r]> m) !! k1 = Some r.
Proof.
  destruct (decide (k2 = k1)) as [->|Hne]; [by rewrite lookup_insert_eq|].
  rewrite lookup_insert_ne by done. by rewrite lookup_insert_eq.
Qed.

Abbreviation log_run :=
  (_run_task percent construct_source construct_analyzer construct_sink run_analyze).

(** A run whose analysis returns. *)
Lemma run_completes clk run_id name cfg container st ri0 scfg acfg src an data result effects :
  runs st !! run_id = Some ri0 →
  tc_source cfg = Some scfg →
  create_source construct_source scfg = Ok src →
  tc_analyzer cfg = Some acfg →
  create_analyzer construct_analyzer acfg = Ok an →
  collect src = Ok data →
  run_analyze (LogAnalyzer.set_run_id an run_id) (joined data) = (Ok result, effects) →
  ∃ st' ri rep,
    log_run clk run_id name cfg container st = (Ok tt, st')
    ∧ runs st' !! run_id = Some ri
    ∧ status ri = lit "completed" ∧ stage ri = lit "finished"
    ∧ percentage (progress ri) = 100%Z
    ∧ finished_at ri = Some (finished_at_time clk)
    ∧ report_id ri = Some (report_key clk (container_label container ri0))
    ∧ reports st' !! report_key clk (container_label container ri0) = Some rep
    ∧ reports st' !! str_of_Z run_id = Some rep
    ∧ rep = {| r_id := report_key clk (container_label container ri0);
               r_run_id := run_id; r_task_name := name;
               r_container_name := container_label container ri0;
               r_content := result;
               r_file_path :=
                 (save_all (create_sinks construct_sink (get (tc_sinks cfg) []))
                    result None None).1;
               r_minio_path :=
                 (save_all (create_sinks construct_sink (get (tc_sinks cfg) []))
                    result None None).2;
               r_created_at := created_at clk; r_timestamp := timestamp clk |}.
Proof.
  intros Hri Hs Hsrc Ha Han Hc Hanalyze.
  unfold _run_task. rewrite Hri. unfold try_block. log_run_steps.
  rewrite Hs. cbv beta iota delta [subscript]. rewrite Hsrc, Ha. cbv beta iota.
  rewrite Han, Hc. cbv beta iota. rewrite Hanalyze. cbv beta iota.
  match goal with |- context [deliver percent effects ?s] =>
    destruct (deliver_effect effects s) as (st2 & Hd & Hrep & Hcnt & Hsome & _);
    destruct (Hsome run_id
                (with_stage (lit "analyzing")
                   (with_progress {| total_chunks := 0; processed_chunks := 0;
                                     percentage := 0 |}
                      (with_stage (lit "collecting") ri0)))) as [p Hp]
  end.
  { unfold set_runs. cbn [runs]. by rewrite !lookup_alter_eq, Hri. }
  rewrite Hd. cbv beta iota.
  assert (Hlk : runs (set_runs st2 (alter (with_stage (lit "saving")) run_id (runs st2)))
                !! run_id
                = Some (with_stage (lit "saving")
                          (with_progress p
                             (with_stage (lit "analyzing")
                                (with_progress {| total_chunks := 0; processed_chunks := 0;
                                                  percentage := 0 |}
                                   (with_stage (lit "collecting") ri0)))))).
  { unfold set_runs. cbn [runs]. by rewrite lookup_alter_eq, Hp. }
  rewrite !Hlk. cbn [from_option].
  destruct (save_all _ result None None) as [sink_result minio_path] eqn:Hsave.
  cbv beta iota.
  eexists _, _, _. split; [reflexivity|].
  unfold set_runs, set_reports. cbn [runs reports].
  rewrite !lookup_alter_eq, Hp. cbn [fmap option_fmap option_map].
  split; [reflexivity|]. split; [reflexivity|]. split; [reflexivity|].
  split; [reflexivity|]. split; [reflexivity|].
  split; [reflexivity|].
  split; [exact (insert_twice_lookup _ _ _ _)|].
  split; [exact (lookup_insert_eq _ _ _)|]. reflexivity.
Qed.

Lemma save_all_from sinks result : ∀ sink_result minio_path,
  (∀ p, sink_result = Some p → p ≠ []) →
  save_all sinks result sink_result minio_path
  = (match sink_result with
     | Some p => Some p
     | None => snd <$> head (saved sinks result)
     end,
     match last (List.filter looks_like_minio (saved sinks result)) with
     | Some found => Some found.2
     | None => minio_path
     end).
Proof.
  induction sinks as [|sink rest IH]; intros sink_result minio_path Hsr.
  - cbn. by destruct sink_result.
  - cbn [save_all]. unfold saved. cbn [omap list_omap]. fold (saved rest result).
    destruct (save sink result) as [[path|]|e]; [|by apply IH|by apply IH].
    destruct path as [|c path]; cbn [LogAnalyzer.is_empty]; [by apply IH|].
    rewrite IH.
    + cbn [List.filter]. unfold looks_like_minio at 2. cbn [fst snd].
      destruct (contains (lit "minio") (lower (type_name sink)) || contains (lit "/") (c :: path)).
      * rewrite last_cons. f_equal.
        -- destruct sink_result as [p|]; [|done].
           destruct p; [by destruct (Hsr [] eq_refl)|done].
        -- by destruct (last (List.filter looks_like_minio (saved rest result))).
      * f_equal. destruct sink_result as [p|]; [|done].
        destruct p; [by destruct (Hsr [] eq_refl)|done].
    + intros p. destruct sink_result as [q|]; [|by intros [= <-]].
      destruct q; [by destruct (Hsr [] eq_refl)|]. cbn. by intros [= <-].
Qed.

End LogRun.

(** X16: (log variant) when the plugins are built, [collect] returns
    and the analysis returns a text, the run ends completed at 100 per
    cent, whatever the sinks do, and its report is recorded twice: under
    "timestamp_container" and under the run id written as a string;
    both keys give the same report, whose content is the text of the
    analysis and whose container is the one named at the launch or, if
    none was, the one recorded for the run. *)
Theorem log_run_completes
    (percent : nat → nat → Z)
    (construct_source : str → list (str * scalar) → py_result Source)
    (construct_analyzer : list (str * scalar) → py_result LogAnalyzer.LangGraphAnalyzer)
    (construct_sink : str → list (str * scalar) → py_result Sink)
    (run_analyze : LogAnalyzer.LangGraphAnalyzer → LogAnalyzer.py_data
                   → py_result str * LogAnalyzer.world)
    (clk : clock) (run_id : Z) (name : str) (cfg : task_config) (container : option str)
    (st : TaskExecutor) (ri0 : run_info) (scfg acfg : plugin_config) (src : Source)
    (an : LogAnalyzer.LangGraphAnalyzer) (data : LogAnalyzer.py_data)
    (result : str) (effects : LogAnalyzer.world) :
  get_run st run_id = Some ri0 →
  tc_source cfg = Some scfg →
  create_source construct_source scfg = Ok src →
  tc_analyzer cfg = Some acfg →
  create_analyzer construct_analyzer acfg = Ok an →
  collect src = Ok data →
  run_analyze (LogAnalyzer.set_run_id an run_id) (joined data) = (Ok result, effects) →
  ∃ st' ri rep,
    _run_task percent construct_source construct_analyzer construct_sink run_analyze
      clk run_id name cfg container st = (Ok tt, st')
    ∧ get_run st' run_id = Some ri
    ∧ status ri = lit "completed" ∧ stage ri = lit "finished"
    ∧ percentage (progress ri) = 100%Z
    ∧ finished_at ri = Some (finished_at_time clk)
    ∧ report_id ri = Some (report_key clk (container_label container ri0))
    ∧ get_report st' (report_key clk (container_label container ri0)) = Some rep
    ∧ get_report st' (str_of_Z run_id) = Some rep
    ∧ r_id rep = report_key clk (container_label container ri0)
    ∧ r_run_id rep = run_id
    ∧ r_container_name rep = container_label container ri0
    ∧ r_content rep = result.
Proof.
  intros Hri Hs Hsrc Ha Han Hc Hanalyze.
  destruct (run_completes percent construct_source construct_analyzer construct_sink
              run_analyze clk run_id name cfg container st ri0 scfg acfg src an data
              result effects Hri Hs Hsrc Ha Han Hc Hanalyze)
    as (st' & ri & rep & Hrun & Hget & H1 & H2 & H3 & H4 & H5 & H6 & H7 & ->).
  exists st', ri. eexists. split; [exact Hrun|].
  split; [exact Hget|]. split; [exact H1|]. split; [exact H2|]. split; [exact H3|].
  split; [exact H4|]. split; [exact H5|]. split; [exact H6|]. split; [exact H7|].
  by repeat split.
Qed.

Lemma log_run_completes_witness :
  ∃ st' ri rep,
    _run_task whole_percent three_lines_source any_analyzer one_sink stub_analyze
      noon 1 (lit "container_logs") container_logs_to_file None launched = (Ok tt, st')
    ∧ get_run st' 1 = Some ri
    ∧ status ri = lit "completed" ∧ stage ri = lit "finished"
    ∧ percentage (progress ri) = 100%Z
    ∧ finished_at ri = Some (finished_at_time noon)
    ∧ report_id ri = Some (lit "20260101_120000_all")
    ∧ get_report st' (lit "20260101_120000_all") = Some rep
    ∧ get_report st' (lit "1") = Some rep
    ∧ r_id rep = lit "20260101_120000_all"
    ∧ r_run_id rep = 1%Z
    ∧ r_container_name rep = lit "all"
    ∧ r_content rep = LogAnalyzer.FINDING.
Proof.
  eapply (log_run_completes whole_percent three_lines_source any_analyzer one_sink
            stub_analyze noon 1 (lit "container_logs") container_logs_to_file None launched
            (new_run 1 (lit "container_logs") None (lit "2026-01-01T12:00:00"))).
  - vm_compute. reflexivity.
  - reflexivity.
  - vm_compute. reflexivity.
  - reflexivity.
  - vm_compute. reflexivity.
  - reflexivity.
  - vm_compute. reflexivity.
Defined.

(** X17: the progress callbacks of an analysis, delivered in order,
    never raise and write nothing but progress: the reports and the
    counter are unchanged, no run is added or removed, a report for an
    unknown run id is ignored, and a known run keeps every field other
    than its progress (status, stage, error, report id, times). *)
Theorem progress_callbacks_write_progress_only (percent : nat → nat → Z)
    (w : LogAnalyzer.world) (st : TaskExecutor) :
  ∃ st', deliver percent w st = (Ok tt, st')
         ∧ reports st' = reports st
         ∧ _run_id_counter st' = _run_id_counter st
         ∧ (∀ k ri, get_run st k = Some ri → ∃ p, get_run st' k = Some (with_progress p ri))
         ∧ (∀ k, get_run st k = None → get_run st' k = None).
Proof. apply deliver_effect. Qed.

(** X18: of the paths the sinks return, [_run_task] keeps the first
    non-empty one as the file path of the report, and as its
    object-storage path the last one that contains a slash or comes from
    a sink whose class name contains "minio"; sinks that raise, return
    [None] or return an empty path leave no trace. *)
Theorem sink_paths_first_and_last (sinks : list Sink) (result : str) :
  save_all sinks result None None
  = (snd <$> head (saved sinks result),
     snd <$> last (List.filter looks_like_minio (saved sinks result))).
Proof.
  rewrite save_all_from by done.
  by destruct (last (List.filter looks_like_minio (saved sinks result))).
Qed.

End LogLifeFacts.

(** ** The aggregating source: order of the stream, silence, bad call chains *)

Module MultiSourceOrder.
Import MultiSource MultiSourceViews MultiSourceFacts.

#[local] Opaque lit.

Section WithClock.

Variable now : nat → str.

Lemma append_entry_stamped lbl content all_logs :
  stamped now all_logs → stamped now (append_entry now lbl content all_logs).
Proof.
  intros H i e. unfold append_entry. intros Hi.
  apply lookup_app_Some in Hi as [Hi|[Hlen Hi]]; [by apply H|].
  apply list_lookup_singleton_Some in Hi as [Hz <-]. cbn.
  f_equal. lia.
Qed.

Lemma take_chunks_stamped lbl chunks : ∀ all_logs,
  stamped now all_logs → stamped now (take_chunks now lbl chunks all_logs).
Proof.
  induction chunks as [|c rest IH]; intros all_logs H; [done|]. cbn [take_chunks].
  apply IH. destruct (truthy c); [by apply append_entry_stamped|done].
Qed.

Lemma collect_from_stamped src all_logs :
  stamped now all_logs → stamped now (collect_from now src all_logs).
Proof.
  intros H. unfold collect_from. destruct (collect src) as [[s|chunks failure|]|?]; try done.
  - destruct (truthy s); [by apply append_entry_stamped|done].
  - by apply take_chunks_stamped.
Qed.

Lemma collect_all_stamped sources : ∀ all_logs,
  stamped now all_logs → stamped now (collect_all now sources all_logs).
Proof.
  induction sources as [|src rest IH]; intros all_logs H; [done|].
  cbn [collect_all]. by apply IH, collect_from_stamped.
Qed.

(** Sorting entries that are already in order changes nothing. *)
Lemma sort_in_order (all_logs : list entry) :
  (∀ i j x y, i < j → all_logs !! i = Some x → all_logs !! j = Some y →
              str_ltb (timestamp_of y) (timestamp_of x) = false) →
  sort all_logs = all_logs.
Proof.
  induction all_logs as [|e rest IH]; intros H; [done|].
  unfold sort. cbn [foldr]. fold (sort rest). rewrite IH.
  - destruct rest as [|x rest]; [done|]. cbn [insert_sorted].
    rewrite (H 0 1 e x); [done|lia|done|done].
  - intros i j x y Hij Hx Hy. apply (H (S i) (S j)); [lia|done|done].
Qed.

Lemma take_chunks_nothing lbl chunks all_logs :
  forallb (λ chunk, negb (truthy chunk)) chunks = true →
  take_chunks now lbl chunks all_logs = all_logs.
Proof.
  induction chunks as [|c rest IH]; [done|]. cbn [forallb take_chunks].
  intros [Hc Hrest]%andb_prop. apply negb_true_iff in Hc. rewrite Hc. by apply IH.
Qed.

Lemma collect_all_nothing sources all_logs :
  forallb contributes_nothing sources = true →
  collect_all now sources all_logs = all_logs.
Proof.
  induction sources as [|src rest IH]; [done|]. cbn [forallb collect_all].
  intros [Hs Hrest]%andb_prop. rewrite <- (IH Hrest) at 2. f_equal.
  unfold contributes_nothing in Hs. unfold collect_from.
  destruct (collect src) as [[s|chunks failure|]|?]; try done.
  - apply negb_true_iff in Hs. by rewrite Hs.
  - by apply take_chunks_nothing.
Qed.

Lemma chain_lines_raise chains :
  forallb names_both_ends chains = false →
  ∃ e, chain_lines chains = Raise e ∧ exn_type e = KeyError.
Proof.
  induction chains as [|c rest IH]; [done|]. cbn [forallb chain_lines].
  intros H. unfold chain_line, names_both_ends in *.
  unfold chain, str, char in *.
  match goal with |- context [Configuration.subscript _ ?x ≫= _] =>
    destruct x as [src|]; [|by eexists] end.
  cbn [Configuration.subscript mbind py_result_bind].
  match goal with |- context [Configuration.subscript _ ?x] =>
    destruct x as [dst|]; [|by eexists] end.
  cbn [Configuration.subscript mbind py_result_bind].
  rewrite !bool_decide_eq_true_2 in H by (by eexists). cbn [andb] in H.
  destruct (IH H) as (e & -> & He). by exists e.
Qed.

End WithClock.

Lemma forallb_false_elem {A} (f : A → bool) (l : list A) :
  forallb f l = false → ∃ x, In x l ∧ f x = false.
Proof.
  induction l as [|x l IH]; [done|]. cbn. intros [Hx|Hl]%andb_false_iff.
  - exists x. by split; [left|].
  - destruct (IH Hl) as (y & Hy & Hf). exists y. by split; [right|].
Qed.

(** X19: with a clock that never goes back, sorting by collection time
    changes nothing: after the optional call chain annotation the stream
    holds the sub-sources' lines in the order the sub-sources are
    configured, chunk by chunk and line by line; lines of different
    sub-sources are not interleaved by the times written in them. *)
Theorem merged_stream_in_source_order (now : nat → str) (self : MultiSource.MultiSource) :
  never_goes_back now →
  forallb names_both_ends (call_chain self) = true →
  ∃ annotation,
    collect_merged now self
    = (annotation ++ flat_map format_entry (collect_all now (source_instances self) []),
       None)
    ∧ length annotation ≤ 1.
Proof.
  intros Hclock Hchain.
  assert (Hsort : sort (collect_all now (source_instances self) [])
                  = collect_all now (source_instances self) []).
  { apply sort_in_order. intros i j x y Hij Hx Hy.
    assert (Hst : stamped now (collect_all now (source_instances self) [])).
    { apply collect_all_stamped. by intros k e Hk. }
    rewrite (Hst i x Hx), (Hst j y Hy). apply Hclock. lia. }
  unfold collect_merged.
  destruct (collect_all now (source_instances self) []) as [|e all_logs] eqn:Hall.
  - exists []. split; [done|cbn; lia].
  - rewrite Hsort. destruct (call_chain self) as [|c rest] eqn:Hcc.
    + exists []. split; [done|cbn; lia].
    + destruct (chain_lines_ok (c :: rest) Hchain) as [ls Hls].
      unfold call_chain_info. rewrite Hls. cbn [mbind py_result_bind].
      exists [join [NL] ls ++ [NL; NL]]. split; [done|cbn; lia].
Qed.

Lemma merged_stream_in_source_order_witness :
  ∃ annotation,
    collect_merged noon three_sources_with_chain
    = (annotation
       ++ flat_map format_entry
            (collect_all noon (source_instances three_sources_with_chain) []),
       None)
    ∧ length annotation ≤ 1.
Proof.
  apply (merged_stream_in_source_order noon three_sources_with_chain).
  - intros i j Hij. vm_compute. reflexivity.
  - vm_compute. reflexivity.
Defined.

(** X20: when every sub-source fails or stays silent (its [collect]
    raises, or returns an empty string, only empty chunks, or a value
    that is neither a string nor iterable), the stream is empty and no
    exception is raised, even with a call chain configured, be it well
    formed or not: the call chain is not looked at. *)
Theorem merged_stream_empty_when_all_silent (now : nat → str)
    (self : MultiSource.MultiSource) :
  forallb contributes_nothing (source_instances self) = true →
  collect_merged now self = ([], None).
Proof.
  intros H. unfold collect_merged. by rewrite collect_all_nothing.
Qed.

Lemma merged_stream_empty_when_all_silent_witness :
  collect_merged noon all_down = ([], None).
Proof.
  apply (merged_stream_empty_when_all_silent noon all_down). vm_compute. reflexivity.
Defined.

(** X21: a call chain entry without 'from' or 'to' is fatal as soon as
    something has been collected: [collect] then raises [KeyError]
    before it yields anything, although every sub-source failure is
    absorbed. *)
Theorem merged_stream_bad_call_chain (now : nat → str) (self : MultiSource.MultiSource) :
  forallb names_both_ends (call_chain self) = false →
  forallb contributes_nothing (source_instances self) = false →
  ∃ e, collect_merged now self = ([], Some e) ∧ exn_type e = KeyError.
Proof.
  intros Hchain Hsome. unfold collect_merged.
  destruct (collect_all now (source_instances self) []) as [|e0 all_logs] eqn:Hall.
  - exfalso. assert (Hnone : forallb contributes_nothing (source_instances self) = true);
      [|congruence].
    apply forallb_forall. intros src Hin%list_elem_of_In.
    destruct (contributes_nothing src) eqn:Hsrc; [done|exfalso].
    unfold contributes_nothing in Hsrc.
    destruct (collect src) as [[s|chunks failure|]|?] eqn:Hc; try done.
    + apply negb_false_iff in Hsrc.
      destruct (collect_all_complete now (source_instances self) [] src (RStr s) s)
        as [k Hk]; [done|done|by left|done|].
      rewrite Hall in Hk. by apply elem_of_nil in Hk.
    + apply forallb_false_elem in Hsrc as (chunk & Hchunk & Ht).
      apply negb_false_iff in Ht.
      destruct (collect_all_complete now (source_instances self) [] src
                  (RIter chunks failure) chunk) as [k Hk];
        [done|done|by apply list_elem_of_In|done|].
      rewrite Hall in Hk. by apply elem_of_nil in Hk.
  - destruct (call_chain self) as [|c rest] eqn:Hcc; [done|].
    destruct (chain_lines_raise (c :: rest) Hchain) as (e & He & Hk).
    unfold call_chain_info. rewrite He. cbn [mbind py_result_bind]. by exists e.
Qed.

Lemma merged_stream_bad_call_chain_witness :
  ∃ e, collect_merged noon three_sources_bad_chain = ([], Some e)
       ∧ exn_type e = KeyError.
Proof.
  apply (merged_stream_bad_call_chain noon three_sources_bad_chain).
  - vm_compute. reflexivity.
  - vm_compute. reflexivity.
Defined.

End MultiSourceOrder.

(** ** Configuration look-ups *)

Module ConfigGetFacts.
Import DbAnalyzer Configuration ConfigurationFacts ConfigGet.

Lemma split_segment sep k rest :
  count sep k = 0 → split sep (k ++ [sep] ++ rest) = k :: split sep rest.
Proof.
  induction k as [|c k IH]; intros Hk.
  - cbn. by rewrite N.eqb_refl.
  - cbn in Hk. cbn [app split]. destruct (c =? sep)%N eqn:Hc; [done|].
    cbn in IH. rewrite IH by done. done.
Qed.

Lemma split_single sep k : count sep k = 0 → split sep k = [k].
Proof.
  induction k as [|c k IH]; intros Hk; [done|].
  cbn in Hk. cbn [split]. destruct (c =? sep)%N eqn:Hc; [done|].
  by rewrite IH.
Qed.

Lemma walk_not_null keys : ∀ value v,
  keys ≠ [] → walk keys value = Some v → v ≠ YNull.
Proof.
  induction keys as [|k rest IH]; intros value v Hne; [done|].
  cbn [walk]. destruct value; try done.
  destruct (dict_get k entries) as [found|] eqn:Hk; [|done].
  destruct rest as [|k' rest'].
  - destruct found; try done; by intros [= <-].
  - destruct found; try done; by apply IH.
Qed.

(** X22: [Config.get] follows a dotted key through nested mappings. A
    key without a dot gives the value stored under it; for a key
    "k.rest" the look-up continues with "rest" inside the mapping stored
    under k. The default is returned when a key is missing, when a
    stored value is null, or when the path runs into something that is
    not a mapping; so values such as 0, false or the empty string are
    returned as stored, and [get] never returns null unless the default
    is null. *)
Theorem config_get_follows_path (_config : yaml) (k rest : str) (default : yaml) :
  count DOT k = 0 →
  get _config k default
  = match _config with
    | YMap entries =>
      match dict_get k entries with
      | None | Some YNull => default
      | Some v => v
      end
    | _ => default
    end
  ∧ get _config (k ++ [DOT] ++ rest) default
    = match _config with
      | YMap entries =>
        match dict_get k entries with
        | None | Some YNull => default
        | Some v => get v rest default
        end
      | _ => default
      end
  ∧ (default ≠ YNull → ∀ key, get _config key default ≠ YNull).
Proof.
  intros Hk. split; [|split].
  - unfold get. rewrite split_single by done. cbn [walk].
    destruct _config; try done. destruct (dict_get k entries) as [[]|]; done.
  - unfold get. rewrite split_segment by done. cbn [walk].
    destruct _config; try done. destruct (dict_get k entries) as [[]|]; done.
  - intros Hd key. unfold get.
    destruct (walk (split DOT key) _config) as [v|] eqn:Hw; [|done].
    eapply walk_not_null; [|exact Hw]. apply split_nonempty.
Qed.

Lemma config_get_follows_path_witness :
  get sample (lit "server.port") (YInt 8000) = YInt 0
  ∧ get sample (lit "server.tls") (YBool false) = YBool false
  ∧ get sample (lit "server.host.name") (YStr (lit "localhost")) = YStr (lit "localhost").
Proof.
  destruct (config_get_follows_path sample (lit "server") (lit "port") (YInt 8000))
    as (_ & Hport & _); [vm_compute; reflexivity|].
  split; [|split].
  - etrans; [exact Hport|]. vm_compute. reflexivity.
  - vm_compute. reflexivity.
  - vm_compute. reflexivity.
Defined.

(** X23: [Config.get_task] returns the first task of the list whose
    'name' is the name asked for: later tasks of the same name are
    shadowed, tasks without a name are passed over, and [None] is
    returned exactly when no task bears the name. *)
Theorem get_task_first_match (self : Config) (name : str) :
  match get_task self name with
  | Some task =>
    ∃ before after,
      tasks self = before ++ task :: after
      ∧ tc_name task = Some name
      ∧ ∀ t, t ∈ before → tc_name t ≠ Some name
  | None => ∀ t, t ∈ tasks self → tc_name t ≠ Some name
  end.
Proof.
  unfold get_task, get_tasks. induction (tasks self) as [|t rest IH]; cbn [find_task].
  - intros t Ht. by apply elem_of_nil in Ht.
  - destruct (tc_name t) as [n|] eqn:Hn.
    + destruct (str_eqb n name) eqn:He.
      * apply str_eqb_eq in He as ->. exists [], rest. split; [done|]. split; [done|].
        intros t' Ht'. by apply elem_of_nil in Ht'.
      * assert (Hne : tc_name t ≠ Some name).
        { rewrite Hn. intros [= ->]. assert (str_eqb name name = true) by by apply str_eqb_eq.
          congruence. }
        destruct (find_task rest name) as [task|].
        -- destruct IH as (before & after & -> & Hname & Hbefore).
           exists (t :: before), after. split; [done|]. split; [done|].
           intros t' [->|Ht']%elem_of_cons; [done|by apply Hbefore].
        -- intros t' [->|Ht']%elem_of_cons; [done|by apply IH].
    + assert (Hne : tc_name t ≠ Some name) by (by rewrite Hn).
      destruct (find_task rest name) as [task|].
      * destruct IH as (before & after & -> & Hname & Hbefore).
        exists (t :: before), after. split; [done|]. split; [done|].
        intros t' [->|Ht']%elem_of_cons; [done|by apply Hbefore].
      * intros t' [->|Ht']%elem_of_cons; [done|by apply IH].
Qed.

End ConfigGetFacts.

(** ** Listing the reports *)

Module LogReportsFacts.
Import DbAnalyzer LogExecutor LogReports.

Lemma str_ltb_asym a : ∀ b, str_ltb a b = true → str_ltb b a = false.
Proof.
  induction a as [|x a IH]; intros [|y b]; cbn; try done.
  destruct (N.ltb_spec x y), (N.ltb_spec y x), (N.eqb_spec x y), (N.eqb_spec y x);
    cbn; try done; try lia. apply IH.
Qed.

(** If a is before c, any b is after a or before c. *)
Lemma str_ltb_between a : ∀ b c,
  str_ltb a c = true → str_ltb a b = true ∨ str_ltb b c = true.
Proof.
  induction a as [|x a IH]; intros [|y b] [|z c]; cbn; try done; try (by left); try (by right).
  destruct (N.ltb_spec x z), (N.ltb_spec x y), (N.ltb_spec y z),
    (N.eqb_spec x z), (N.eqb_spec x y), (N.eqb_spec y z);
    cbn; try done; try lia; try (by left); try (by right). apply IH.
Qed.

Lemma insert_newest_first_perm e sorted : insert_newest_first e sorted ≡ₚ e :: sorted.
Proof.
  induction sorted as [|x rest IH]; cbn; [done|].
  destruct (str_ltb _ _); [|done]. rewrite IH. apply Permutation_swap.
Qed.

Lemma sort_newest_first_perm reports : sort_newest_first reports ≡ₚ reports.
Proof.
  unfold sort_newest_first. induction reports as [|e rest IH]; cbn; [done|].
  by rewrite insert_newest_first_perm, IH.
Qed.

Lemma insert_newest_first_sorted e sorted :
  StronglySorted not_older sorted → StronglySorted not_older (insert_newest_first e sorted).
Proof.
  induction 1 as [|x rest Hrest IH Hx]; cbn.
  - by repeat constructor.
  - destruct (str_ltb (l_created_at e) (l_created_at x)) eqn:Hex.
    + constructor; [done|]. apply Forall_forall. intros y Hy.
      rewrite insert_newest_first_perm in Hy. apply elem_of_cons in Hy as [->|Hy].
      * by apply str_ltb_asym.
      * by apply (proj1 (Forall_forall _ _) Hx).
    + constructor; [by constructor|]. constructor; [done|].
      apply Forall_forall. intros y Hy. unfold not_older.
      pose proof (proj1 (Forall_forall _ _) Hx y Hy) as Hxy. unfold not_older in Hxy.
      destruct (str_ltb (l_created_at e) (l_created_at y)) eqn:Hey; [|done].
      destruct (str_ltb_between _ (l_created_at x) _ Hey); congruence.
Qed.

Lemma sort_newest_first_sorted reports :
  StronglySorted not_older (sort_newest_first reports).
Proof.
  unfold sort_newest_first. induction reports as [|e rest IH]; cbn; [constructor|].
  by apply insert_newest_first_sorted.
Qed.

Lemma strongly_sorted_take {A} (R : A → A → Prop) n (l : list A) :
  StronglySorted R l → StronglySorted R (take n l).
Proof.
  intros H. revert n. induction H as [|x l Hl IH Hx]; intros [|n]; cbn;
    try constructor; [apply IH|].
  apply Forall_forall. intros y Hy. apply (proj1 (Forall_forall _ _) Hx).
  apply elem_of_take in Hy as (i & Hi & _). by eapply list_elem_of_lookup_2.
Qed.

Lemma lit_cons c s :
  (N_of_ascii c <? 128)%N = true → lit (String c s) = N_of_ascii c :: lit s.
Proof. intros H. unfold lit. cbn. by rewrite H. Qed.

Lemma uint_digits d :
  Forall (λ c, (48 ≤ c ≤ 57)%N) (lit (DecimalString.NilEmpty.string_of_uint d)).
Proof.
  induction d; cbn [DecimalString.NilEmpty.string_of_uint];
    [by constructor|..];
    (rewrite lit_cons by reflexivity; constructor; [vm_compute; split; discriminate|done]).
Qed.

Lemma str_of_Z_digits z :
  (0 ≤ z)%Z → str_of_Z z ≠ [] ∧ Forall (λ c, (48 ≤ c ≤ 57)%N) (str_of_Z z).
Proof.
  intros Hz. unfold str_of_Z, DecimalString.NilZero.string_of_int.
  destruct (Z.to_int z) as [d|d] eqn:Hd.
  - unfold DecimalString.NilZero.string_of_uint.
    destruct d;
      (split; [cbn [DecimalString.NilEmpty.string_of_uint];
               rewrite lit_cons by reflexivity; done
              |first [apply uint_digits|apply (uint_digits (Decimal.D0 Decimal.Nil))]]).
  - destruct z; cbn in Hd; done.
Qed.

Section WithUnicode.

Variable unicode_isdigit : char → bool.

Lemma gather_spec container_name start_time end_time items : ∀ reports,
  gather unicode_isdigit container_name start_time end_time items reports
  = reports
    ++ map (λ item, summary item.2)
         (List.filter (λ item, negb (passed_over unicode_isdigit container_name start_time
                                       end_time item.1 item.2)) items).
Proof.
  induction items as [|[key report] rest IH]; intros reports; cbn.
  - by rewrite app_nil_r.
  - destruct (passed_over _ _ _ _ key report); cbn; rewrite IH; [done|].
    by rewrite <- app_assoc.
Qed.

Lemma isdigit_digits s :
  s ≠ [] → Forall (λ c, (48 ≤ c ≤ 57)%N) s → isdigit unicode_isdigit s = true.
Proof.
  intros Hne Hs. unfold isdigit. destruct s as [|c s]; [done|]. cbn [LogAnalyzer.is_empty negb andb].
  apply forallb_forall. intros x Hx%list_elem_of_In.
  pose proof (proj1 (Forall_forall _ _) Hs x Hx) as [? ?]. unfold isdigit_char.
  destruct (N.ltb_spec x 128); [|lia].
  apply andb_true_iff. split; by apply N.leb_le.
Qed.

Lemma isdigit_underscore a b : isdigit unicode_isdigit (a ++ lit "_" ++ b) = false.
Proof.
  unfold isdigit. apply andb_false_iff. right.
  apply not_true_is_false. intros H.
  pose proof (proj1 (forallb_forall _ _) H 95%N) as Hc.
  assert (isdigit_char unicode_isdigit 95%N = false) as Hf by reflexivity.
  rewrite Hc in Hf; [done|].
  apply in_or_app. right. apply in_or_app. left. by left.
Qed.

End WithUnicode.

(** X24: without a limit, [list_reports] lists exactly the entries of
    the registry whose key is not all digits and that pass the filters
    given (container name equal; created not before start_time and not
    after end_time, as strings), each as its summary. A report recorded
    by a run under "timestamp_container" and under the run id written
    as a string is therefore listed for the first key and not for the
    second. *)
Theorem list_reports_lists_filtered (unicode_isdigit : char → bool)
    (items : list (str * report)) (container_name start_time end_time : option str) :
  (∀ s, s ∈ list_reports unicode_isdigit items container_name start_time end_time None
        ↔ ∃ key report,
            (key, report) ∈ items
            ∧ passed_over unicode_isdigit container_name start_time end_time key report
              = false
            ∧ s = summary report)
  ∧ (∀ key report,
       passed_over unicode_isdigit container_name start_time end_time key report = false
       ↔ isdigit unicode_isdigit key = false
         ∧ (∀ c, given container_name = Some c → r_container_name report = c)
         ∧ (∀ t, given start_time = Some t → str_ltb (r_created_at report) t = false)
         ∧ (∀ t, given end_time = Some t → str_ltb t (r_created_at report) = false))
  ∧ (∀ run_id, (0 ≤ run_id)%Z → isdigit unicode_isdigit (str_of_Z run_id) = true)
  ∧ (∀ timestamp container, isdigit unicode_isdigit (timestamp ++ lit "_" ++ container) = false).
Proof.
  split; [|split; [|split]].
  - intros s. unfold list_reports. rewrite sort_newest_first_perm, gather_spec. cbn [app].
    rewrite list_elem_of_In, in_map_iff. split.
    + intros ([key report] & <- & [Hin Hp]%filter_In). exists key, report.
      split; [by apply list_elem_of_In|]. split; [by apply negb_true_iff|done].
    + intros (key & report & Hin & Hp & ->). exists (key, report). split; [done|].
      apply filter_In. split; [by apply list_elem_of_In|]. cbn. by rewrite Hp.
  - intros key report. unfold passed_over.
    destruct (isdigit unicode_isdigit key); [split; [done|by intros [? _]]|].
    destruct (given container_name) as [c|].
    + destruct (str_eqb (r_container_name report) c) eqn:Hc; cbn.
      * apply ConfigurationFacts.str_eqb_eq in Hc.
        destruct (given start_time) as [t|].
        -- destruct (str_ltb (r_created_at report) t) eqn:Ht;
             [split; [done|intros (_ & _ & H & _); by rewrite (H t eq_refl) in Ht]|].
           destruct (given end_time) as [t'|].
           ++ destruct (str_ltb t' (r_created_at report)) eqn:Ht'.
              ** split; [done|]. intros (_ & _ & _ & H). by rewrite (H t' eq_refl) in Ht'.
              ** split; [|done]. intros _. split; [done|]. split; [by intros ? [= <-]|].
                 split; by intros ? [= <-].
           ++ split; [|done]. intros _. split; [done|]. split; [by intros ? [= <-]|].
              split; [by intros ? [= <-]|done].
        -- destruct (given end_time) as [t'|].
           ++ destruct (str_ltb t' (r_created_at report)) eqn:Ht'.
              ** split; [done|]. intros (_ & _ & _ & H). by rewrite (H t' eq_refl) in Ht'.
              ** split; [|done]. intros _. split; [done|]. split; [by intros ? [= <-]|].
                 split; [done|by intros ? [= <-]].
           ++ split; [|done]. intros _. split; [done|]. split; [by intros ? [= <-]|done].
      * split; [done|]. intros (_ & H & _). specialize (H c eq_refl).
        apply ConfigurationFacts.str_eqb_eq in H. congruence.
    + destruct (given start_time) as [t|].
      * destruct (str_ltb (r_created_at report) t) eqn:Ht;
          [split; [done|intros (_ & _ & H & _); by rewrite (H t eq_refl) in Ht]|].
        destruct (given end_time) as [t'|].
        -- destruct (str_ltb t' (r_created_at report)) eqn:Ht'.
           ++ split; [done|]. intros (_ & _ & _ & H). by rewrite (H t' eq_refl) in Ht'.
           ++ split; [|done]. intros _. split; [done|]. split; [done|].
              split; by intros ? [= <-].
        -- split; [|done]. intros _. split; [done|]. split; [done|].
           split; [by intros ? [= <-]|done].
      * destruct (given end_time) as [t'|].
        -- destruct (str_ltb t' (r_created_at report)) eqn:Ht'.
           ++ split; [done|]. intros (_ & _ & _ & H). by rewrite (H t' eq_refl) in Ht'.
           ++ split; [|done]. intros _. split; [done|]. split; [done|].
              split; [done|by intros ? [= <-]].
        -- split; [|done]. intros _. by repeat split.
  - intros run_id Hz. destruct (str_of_Z_digits run_id Hz) as [Hne Hd].
    by apply isdigit_digits.
  - intros timestamp container. apply isdigit_underscore.
Qed.

(** X25: [list_reports] returns the reports newest first by creation
    time; a positive limit n cuts the list after its first n elements,
    the n newest, and no limit, 0 or a negative limit leave it whole. *)
Theorem list_reports_newest_first (unicode_isdigit : char → bool)
    (items : list (str * report)) (container_name start_time end_time : option str)
    (limit : option Z) :
  StronglySorted not_older
    (list_reports unicode_isdigit items container_name start_time end_time limit)
  ∧ list_reports unicode_isdigit items container_name start_time end_time limit
    = match limit with
      | Some n =>
        if (0 <? n)%Z
        then take (Z.to_nat n)
               (list_reports unicode_isdigit items container_name start_time end_time None)
        else list_reports unicode_isdigit items container_name start_time end_time None
      | None => list_reports unicode_isdigit items container_name start_time end_time None
      end
  ∧ (∀ n, limit = Some n → (0 < n)%Z →
       length (list_reports unicode_isdigit items container_name start_time end_time limit)
       ≤ Z.to_nat n).
Proof.
  split; [|split].
  - unfold list_reports. destruct limit as [n|]; [destruct (0 <? n)%Z|];
      try apply strongly_sorted_take; apply sort_newest_first_sorted.
  - unfold list_reports. by destruct limit.
  - intros n -> Hn. unfold list_reports. apply Z.ltb_lt in Hn. rewrite Hn.
    rewrite length_take. lia.
Qed.

End LogReportsFacts.

(** ** The path of the file sink (database variant) *)

Module DbFileSinkFacts.
Import DbFileSink.

Section Replace.

(** The text replaced, [o :: old_tail], shares no character with the
    replacement, which is not empty. *)
Variable o : char.
Variable old_tail new : str.
Hypothesis new_apart : ∀ c, c ∈ new → c ≠ o ∧ c ∉ old_tail.
Hypothesis new_nonempty : new ≠ [].

Lemma startswith_cons_false (p : str) c d s :
  c ≠ d → startswith (c :: p) (d :: s) = false.
Proof. intros H. cbn. by rewrite (proj2 (N.eqb_neq c d) H). Qed.

Lemma prefix_reflected p : ∀ s,
  (∀ c, c ∈ p → c ∈ old_tail) →
  startswith p (replace_go (o :: old_tail) new 0 s) = true → startswith p s = true.
Proof using new_apart new_nonempty.
  induction p as [|a p IH]; intros s Hp; [done|].
  destruct s as [|c s]; [done|]. cbn [replace_go].
  destruct (startswith (o :: old_tail) (c :: s)) eqn:Hm.
  - destruct new as [|n new'] eqn:Hnew; [done|]. cbn [app].
    assert (a ≠ n).
    { intros ->. destruct (new_apart n) as [_ Hn]; [by left|].
      apply Hn, Hp. by left. }
    by rewrite startswith_cons_false.
  - cbn [startswith]. intros [Hac Hrest]%andb_prop. rewrite Hac. cbn.
    apply IH; [|done]. intros x Hx. apply Hp. by right.
Qed.

Lemma contains_after_new r :
  contains (o :: old_tail) (new ++ r) = contains (o :: old_tail) r.
Proof using new_apart.
  assert (Hgen : ∀ l, (∀ c, c ∈ l → c ≠ o) →
                      contains (o :: old_tail) (l ++ r) = contains (o :: old_tail) r).
  { induction l as [|n l IH]; intros Hl; [done|]. cbn [app contains].
    rewrite startswith_cons_false.
    - cbn. apply IH. intros c Hc. apply Hl. by right.
    - intros ->. by destruct (Hl n); [left|]. }
  apply Hgen. intros c Hc. by destruct (new_apart c Hc).
Qed.

(** After the replacement no occurrence is left. *)
Lemma replaced_everywhere s : ∀ skip,
  contains (o :: old_tail) (replace_go (o :: old_tail) new skip s) = false.
Proof using new_apart new_nonempty.
  induction s as [|c s IH]; intros skip; [done|]. cbn [replace_go].
  destruct skip as [|k]; [|apply IH].
  destruct (startswith (o :: old_tail) (c :: s)) eqn:Hm.
  - rewrite contains_after_new. apply IH.
  - cbn [contains]. rewrite IH, orb_false_r.
    destruct (startswith (o :: old_tail) (c :: replace_go (o :: old_tail) new 0 s)) eqn:Hs;
      [|done].
    cbn [startswith] in Hs, Hm. apply andb_prop in Hs as [Hoc Hrest].
    rewrite Hoc in Hm. cbn in Hm. by rewrite (prefix_reflected old_tail s) in Hm.
Qed.

End Replace.

(** Where there is no occurrence, nothing is replaced. *)
Lemma replace_absent old new s :
  contains old s = false → replace old new s = s.
Proof.
  unfold replace. induction s as [|c s IH]; [done|]. cbn [contains replace_go].
  intros [Hm Hrest]%orb_false_iff. rewrite Hm. by rewrite IH.
Qed.

Lemma timestamp_char_apart now c :
  forallb timestamp_char now = true → c ∈ now →
  c ≠ 123%N ∧ c ∉ [116; 105; 109; 101; 115; 116; 97; 109; 112; 125]%N.
Proof.
  intros Hnow Hc. apply list_elem_of_In in Hc.
  pose proof (proj1 (forallb_forall _ _) Hnow c Hc) as Ht. unfold timestamp_char in Ht.
  assert (c ≤ 95)%N as Hle.
  { apply orb_prop in Ht as [[_ H]%andb_prop|H].
    - apply N.leb_le in H. lia.
    - apply N.eqb_eq in H. lia. }
  split; [lia|]. intros Hin. repeat (apply elem_of_cons in Hin as [->|Hin]; [lia|]).
  by apply elem_of_nil in Hin.
Qed.

(** X26: the file sink of the database variant names its file after
    the time of saving only. For a time text as [strftime] produces it
    (digits and underscores), the path is the template with every
    "{timestamp}" replaced by that time, whether or not the run's
    metadata carry a timestamp: the second replacement never finds
    anything. With the default template, whose placeholder is written
    with doubled braces, one pair of braces stays in the file name. *)
Theorem file_sink_path (self : FileSink) (now : str) (metadata_timestamp : option str) :
  now ≠ [] →
  forallb timestamp_char now = true →
  output_path self now metadata_timestamp
  = replace PLACEHOLDER now (output_path_template self)
  ∧ contains PLACEHOLDER (output_path self now metadata_timestamp) = false
  ∧ output_path {| output_path_template := DEFAULT_TEMPLATE |} now metadata_timestamp
    = lit "reports/db_analysis_{" ++ now ++ lit "}.md".
Proof.
  intros Hne Hnow.
  assert (Hnone : ∀ s, contains PLACEHOLDER (replace PLACEHOLDER now s) = false).
  { intros s. unfold replace.
    change PLACEHOLDER with (123 :: [116; 105; 109; 101; 115; 116; 97; 109; 112; 125])%N.
    apply replaced_everywhere; [|done].
    intros c Hc. by apply (timestamp_char_apart now). }
  assert (Hpath : ∀ self', output_path self' now metadata_timestamp
                           = replace PLACEHOLDER now (output_path_template self')).
  { intros self'. unfold output_path.
    destruct (contains PLACEHOLDER (output_path_template self')) eqn:Hc.
    - destruct metadata_timestamp as [ts|]; [|done]. by rewrite replace_absent.
    - rewrite (replace_absent _ now) by done.
      destruct metadata_timestamp as [ts|]; [|done]. by rewrite replace_absent. }
  split; [apply Hpath|]. split; [rewrite Hpath; apply Hnone|].
  rewrite Hpath. cbn [output_path_template]. vm_compute. reflexivity.
Qed.

Lemma file_sink_path_witness :
  output_path {| output_path_template := lit "out/{timestamp}/db_{timestamp}.md" |}
    (lit "20260101_120000") (Some (lit "20251231_235959"))
  = lit "out/20260101_120000/db_20260101_120000.md".
Proof.
  destruct (file_sink_path {| output_path_template := lit "out/{timestamp}/db_{timestamp}.md" |}
              (lit "20260101_120000") (Some (lit "20251231_235959")))
    as (Hpath & _ & _).
  - vm_compute. discriminate.
  - vm_compute. reflexivity.
  - rewrite Hpath. vm_compute. reflexivity.
Defined.

End DbFileSinkFacts.
